(** * Configuration resolution of apollo-tooling: [packages/apollo/src/config.ts]

    The file has two layers, and so has this development.

    - The normalizers ([loadEndpointConfig], [loadSchemaConfig],
      [loadDocumentSet], [getSchemasFromServices], [loadConfig]) take values
      typed [any]: they are embedded over dynamically typed JavaScript values
      living in a heap, because they read members of whatever they are given
      and because [loadEndpointConfig] writes into the object it was passed.
    - The resolvers ([resolveSchema], [resolveDocumentSets]) take an
      [ApolloConfig]: they are embedded over records, in a monad that logs the
      calls to the GraphQL, network and file-system collaborators. *)

From stdpp Require Import base strings list gmap pretty.
From Stdlib Require Import ZArith Lia.

#[local] Set Warnings "-register-all".

Open Scope string_scope.
Open Scope list_scope.

(** ** Strings *)

Module Str.

(** [s.match(/http/)] with an unanchored literal pattern, and
    [s.includes(pat)]: does [pat] occur in [s]? *)
Fixpoint occurs (pat s : string) : bool :=
  String.prefix pat s
  || match s with
     | EmptyString => false
     | String _ s' => occurs pat s'
     end.

Fixpoint drop (n : nat) (s : string) : string :=
  match n, s with
  | S n', String _ s' => drop n' s'
  | _, _ => s
  end.

(** [s.replace(pat, rep)] for a string pattern: only the first occurrence is
    replaced. [rep] is inserted literally, which is what JavaScript does for
    a replacement without [$]. *)
Fixpoint replace (pat rep s : string) : string :=
  if String.prefix pat s then rep +:+ drop (String.length pat) s
  else match s with
       | EmptyString => EmptyString
       | String c s' => String c (replace pat rep s')
       end.

End Str.

(** ** JavaScript values, objects and the heap *)

Module Js.

Abbreviation loc := nat.

(** A value is a primitive, a reference to a heap object, or a built-in
    method found on a prototype (named by its path). *)
Inductive value :=
| VUndefined
| VNull
| VBool (b : bool)
| VNum (n : Z)
| VStr (s : string)
| VRef (l : loc)
| VBuiltin (path : string).

(** Own enumerable properties are kept in enumeration order:
    [Object.keys(schemas)[0]] and [Object.entries(obj.services)] depend on
    it. *)
Inductive object :=
| OObj (props : list (string * value))
| OArr (elems : list value).

Abbreviation heap := (list object).

Inductive JsError :=
| TypeError (msg : string)
| RangeError (msg : string)
| Error (msg : string).

Inductive result (A : Type) :=
| Ok (a : A)
| Throw (e : JsError).
Arguments Ok {A} a.
Arguments Throw {A} e.

(** Computations that read and write the heap and may throw. *)
Definition M (A : Type) := heap -> result A * heap.

Definition ret {A} (a : A) : M A := fun h => (Ok a, h).
Definition throw {A} (e : JsError) : M A := fun h => (Throw e, h).
Definition bind {A B} (m : M A) (k : A -> M B) : M B :=
  fun h => match m h with
           | (Ok a, h') => k a h'
           | (Throw e, h') => (Throw e, h')
           end.

Declare Scope js_scope.
Delimit Scope js_scope with js.
Notation "'let*' x ':=' m 'in' k" := (bind m (fun x => k))
  (at level 10, x pattern, m at level 100, k at level 200) : js_scope.

Definition is_string (v : value) : bool :=
  match v with VStr _ => true | _ => false end.

(** ToBoolean. *)
Definition truthy (v : value) : bool :=
  match v with
  | VUndefined | VNull => false
  | VBool b => b
  | VNum n => negb (n =? 0)%Z
  | VStr s => negb (String.eqb s EmptyString)
  | VRef _ | VBuiltin _ => true
  end.

(** [a || b] on values. *)
Definition or_else (a b : value) : value := if truthy a then a else b.

(** Association lists as property tables. *)
Fixpoint assoc (k : string) (ps : list (string * value)) : option value :=
  match ps with
  | [] => None
  | (k', v) :: ps' => if String.eqb k k' then Some v else assoc k ps'
  end.

(** Assignment keeps the position of an existing key and appends a new
    one. *)
Fixpoint assoc_set (k : string) (x : value) (ps : list (string * value))
  : list (string * value) :=
  match ps with
  | [] => [(k, x)]
  | (k', v) :: ps' =>
      if String.eqb k k' then (k, x) :: ps' else (k', v) :: assoc_set k x ps'
  end.

Definition mem (k : string) (ks : list string) : bool :=
  existsb (String.eqb k) ks.

(** Members inherited from the prototypes (ES2019, the level at which
    [Array.prototype.flatMap], used by [resolveDocumentSets], exists). *)
Definition object_prototype_names : list string :=
  ["constructor"; "__defineGetter__"; "__defineSetter__"; "hasOwnProperty";
   "__lookupGetter__"; "__lookupSetter__"; "isPrototypeOf";
   "propertyIsEnumerable"; "toString"; "valueOf"; "__proto__";
   "toLocaleString"].

Definition string_prototype_names : list string :=
  ["anchor"; "big"; "blink"; "bold"; "charAt"; "charCodeAt"; "codePointAt";
   "concat"; "endsWith"; "fontcolor"; "fontsize"; "fixed"; "includes";
   "indexOf"; "italics"; "lastIndexOf"; "link"; "localeCompare"; "match";
   "normalize"; "padEnd"; "padStart"; "repeat"; "replace"; "search";
   "slice"; "small"; "split"; "strike"; "sub"; "substr"; "substring";
   "sup"; "startsWith"; "toLocaleLowerCase"; "toLocaleUpperCase";
   "toLowerCase"; "toUpperCase"; "trim"; "trimStart"; "trimLeft";
   "trimEnd"; "trimRight"].

Definition array_prototype_names : list string :=
  ["concat"; "copyWithin"; "fill"; "find"; "findIndex"; "lastIndexOf";
   "pop"; "push"; "reverse"; "shift"; "unshift"; "slice"; "sort"; "splice";
   "includes"; "indexOf"; "join"; "keys"; "entries"; "values"; "forEach";
   "filter"; "flat"; "flatMap"; "map"; "every"; "some"; "reduce";
   "reduceRight"].

Definition inherited (owner : string) (names : list string) (k : string)
  : option value :=
  if mem k names then Some (VBuiltin (owner +:+ "." +:+ k)) else None.

Definition from_object_prototype (k : string) : value :=
  default VUndefined (inherited "Object.prototype" object_prototype_names k).

(** Members of a string primitive. Index members ([s[0]]) are left out: no
    member name read in this module is an array index. *)
Definition string_member (s : string) (k : string) : value :=
  if String.eqb k "length" then VNum (Z.of_nat (String.length s))
  else match inherited "String.prototype" string_prototype_names k with
       | Some f => f
       | None => from_object_prototype k
       end.

Definition array_member (es : list value) (k : string) : value :=
  if String.eqb k "length" then VNum (Z.of_nat (List.length es))
  else match inherited "Array.prototype" array_prototype_names k with
       | Some f => f
       | None => from_object_prototype k
       end.

Definition object_member (ps : list (string * value)) (k : string) : value :=
  match assoc k ps with
  | Some v => v
  | None => from_object_prototype k
  end.

(** [v.k] and [v[k]]: reading a member. *)
Definition get (v : value) (k : string) : M value :=
  fun h =>
    match v with
    | VUndefined =>
        (Throw (TypeError ("Cannot read property '" +:+ k +:+ "' of undefined")), h)
    | VNull =>
        (Throw (TypeError ("Cannot read property '" +:+ k +:+ "' of null")), h)
    | VStr s => (Ok (string_member s k), h)
    | VRef l =>
        match h !! l with
        | Some (OObj ps) => (Ok (object_member ps k), h)
        | Some (OArr es) => (Ok (array_member es k), h)
        | None => (Ok VUndefined, h)
        end
    | VBool _ | VNum _ | VBuiltin _ => (Ok (from_object_prototype k), h)
    end.

(** [v.k = x] and [v[k] = x]. Assigning [__proto__] on an object replaces
    its prototype and creates no own property. The module only ever assigns
    to objects; a primitive receiver is a TypeError in a strict-mode
    module. *)
Definition set (v : value) (k : string) (x : value) : M unit :=
  fun h =>
    match v with
    | VRef l =>
        match h !! l with
        | Some (OObj ps) =>
            if String.eqb k "__proto__" then (Ok tt, h)
            else (Ok tt, <[l := OObj (assoc_set k x ps)]> h)
        | _ => (Ok tt, h)
        end
    | VUndefined | VNull =>
        (Throw (TypeError ("Cannot set property '" +:+ k +:+ "' of undefined")), h)
    | _ =>
        (Throw (TypeError ("Cannot create property '" +:+ k +:+ "'")), h)
    end.

(** Evaluating an object or array literal allocates a fresh object. *)
Definition alloc (o : object) : M value :=
  fun h => (Ok (VRef (List.length h)), h ++ [o]).

Fixpoint chars (i : nat) (s : string) : list (string * value) :=
  match s with
  | EmptyString => []
  | String c s' => (pretty i, VStr (String c EmptyString)) :: chars (S i) s'
  end.

(** The own enumerable properties of a value, as [Object.entries] and
    object spread see them. *)
Definition own_props (h : heap) (v : value) : list (string * value) :=
  match v with
  | VRef l =>
      match h !! l with
      | Some (OObj ps) => ps
      | Some (OArr es) => imap (fun i e => (pretty i, e)) es
      | None => []
      end
  | VStr s => chars 0 s
  | _ => []
  end.

Definition entries (v : value) : M (list (string * value)) :=
  fun h => (Ok (own_props h v), h).

Definition keys (v : value) : M (list string) :=
  fun h => (Ok (own_props h v).*1, h).

Definition isArray (v : value) : M bool :=
  fun h =>
    match v with
    | VRef l => match h !! l with
                | Some (OArr _) => (Ok true, h)
                | _ => (Ok false, h)
                end
    | _ => (Ok false, h)
    end.

(** [xs[0]] on a list of keys. *)
Definition first_key (ks : list string) : value :=
  match ks with
  | [] => VUndefined
  | k :: _ => VStr k
  end.

(** A deep copy of what a value denotes in a heap, to state results.
    [TDeep] marks where the depth bound was reached. *)
Inductive tree :=
| TUndefined
| TNull
| TBool (b : bool)
| TNum (n : Z)
| TStr (s : string)
| TBuiltin (path : string)
| TObj (props : list (string * tree))
| TArr (elems : list tree)
| TDeep.

Fixpoint snapshot (depth : nat) (h : heap) (v : value) : tree :=
  match v with
  | VUndefined => TUndefined
  | VNull => TNull
  | VBool b => TBool b
  | VNum n => TNum n
  | VStr s => TStr s
  | VBuiltin p => TBuiltin p
  | VRef l =>
      match depth with
      | O => TDeep
      | S d =>
          match h !! l with
          | Some (OObj ps) => TObj (map (fun kv => (kv.1, snapshot d h kv.2)) ps)
          | Some (OArr es) => TArr (map (snapshot d h) es)
          | None => TUndefined
          end
      end
  end.

(** The member [k] of the object a computation returned, copied out of the
    heap it left. *)
Definition member_snapshot (depth : nat) (run : result value * heap)
  (k : string) : option tree :=
  match run with
  | (Ok v, h') =>
      match get v k h' with
      | (Ok x, _) => Some (snapshot depth h' x)
      | (Throw _, _) => None
      end
  | (Throw _, _) => None
  end.

End Js.

(** ** The normalizers *)

Module Load.
Import Js.
Local Open Scope js_scope.

Section Normalizers.

(** [process.env.ENGINE_API_KEY], [fs.existsSync] of the local file-system
    wrapper and Node's [path.basename]. *)
Variable ENGINE_API_KEY : option string.
Variable existsSync : string -> bool.
Variable basename : string -> string.

Definition env_ENGINE_API_KEY : value :=
  match ENGINE_API_KEY with
  | Some k => VStr k
  | None => VUndefined
  end.

(** [url.replace("http", "ws")]: a method call, so the receiver has to be
    a string. The raw configuration is data: it holds no functions of its
    own. *)
Definition call_replace (recv : value) (pat rep : string) : M value :=
  match recv with
  | VStr s => ret (VStr (Str.replace pat rep s))
  | VUndefined | VNull =>
      throw (TypeError "Cannot read property 'replace' of undefined")
  | _ => throw (TypeError "replace is not a function")
  end.

Definition loadEndpointConfig (obj : value) (shouldDefaultURL : bool)
  : M value :=
  let* preSubscriptions :=
    if is_string obj then alloc (OObj [("url", obj)])
    else if truthy obj then ret obj
    else if shouldDefaultURL
         then alloc (OObj [("url", VStr "http://localhost:4000/graphql")])
         else ret VUndefined in
  if truthy preSubscriptions then
    let* subs := get preSubscriptions "subscriptions" in
    if negb (truthy subs) then
      let* url := get preSubscriptions "url" in
      if truthy url then
        let* url' := get preSubscriptions "url" in
        let* replaced := call_replace url' "http" "ws" in
        let* _ := set preSubscriptions "subscriptions" replaced in
        ret preSubscriptions
      else ret preSubscriptions
    else ret preSubscriptions
  else ret preSubscriptions.

(** When [loadEndpointConfig] goes through: it calls [replace] on the
    [url] of an object that has no [subscriptions], so a truthy [url] has
    to be a string. *)
Definition endpoint_ok (h : heap) (v : value) : bool :=
  match v with
  | VRef l =>
      match h !! l with
      | Some (OObj ps) =>
          truthy (object_member ps "subscriptions")
          || negb (truthy (object_member ps "url"))
          || is_string (object_member ps "url")
      | _ => true
      end
  | _ => true
  end.

(** The endpoint that stands in for a missing one. *)
Definition default_endpoint : object :=
  OObj [("url", VStr "http://localhost:4000/graphql");
        ("subscriptions", VStr "ws://localhost:4000/graphql")].

(** The dependency [loadSchemaConfig] makes of [{}], given its
    endpoint. *)
Definition synthesized (endpoint : value) : object :=
  OObj [("endpoint", endpoint);
        ("engineKey", or_else env_ENGINE_API_KEY VUndefined)].

(** The dependency a [clientSchema] becomes. *)
Definition client_dependency (clientSchema base : value) : object :=
  OObj [("schema", clientSchema); ("clientSide", VBool true);
        ("extends", base)].

(** [{ ...obj, endpoint: e, engineKey: k }]. *)
Definition spread_with (ps : list (string * value)) (e k : value)
  : list (string * value) :=
  assoc_set "engineKey" k (assoc_set "endpoint" e ps).

Definition loadSchemaConfig (obj : value) (defaultEndpoint : bool)
  : M value :=
  let* ps := entries obj in
  let* rawEndpoint := get obj "endpoint" in
  let* rawKey := get obj "engineKey" in
  let* endpoint :=
    loadEndpointConfig rawEndpoint (negb (truthy rawKey) && defaultEndpoint) in
  let* rawKey' := get obj "engineKey" in
  alloc (OObj (spread_with ps endpoint (or_else env_ENGINE_API_KEY rawKey'))).

(** The [includes] and [excludes] members of [loadDocumentSet]. *)
Definition patterns (raw : value) (dflt : string) : M value :=
  if is_string raw then alloc (OArr [raw])
  else if truthy raw then ret raw
  else alloc (OArr [VStr dflt]).

Definition loadDocumentSet (obj : value) : M value :=
  let* schema := get obj "schema" in
  let* rawIncludes := get obj "includes" in
  let* includes := patterns rawIncludes "**" in
  let* rawExcludes := get obj "excludes" in
  let* excludes := patterns rawExcludes "node_modules/**" in
  alloc (OObj [("schema", schema); ("includes", includes);
               ("excludes", excludes)]).

(** [!!maybeUrl.match(/http/)]. *)
Definition isUrl (maybeUrl : value) : M bool :=
  match maybeUrl with
  | VStr s => ret (Str.occurs "http" s)
  | VUndefined | VNull =>
      throw (TypeError "Cannot read property 'match' of undefined")
  | _ => throw (TypeError "maybeUrl.match is not a function")
  end.

(** [!isUrl(maybeFile) && fs.existsSync(maybeFile)]; [existsSync] is only
    reached with a string, since [isUrl] throws on anything else. *)
Definition isFile (maybeFile : value) : M bool :=
  let* u := isUrl maybeFile in
  if negb u
  then ret (match maybeFile with VStr s => existsSync s | _ => false end)
  else ret false.

(** [getSchemasFromServices] fills [schemas] in three steps, one per [if]
    of the source. First: [if (obj.services) { ... }]. *)
Definition serviceEntry (obj schemas : value) : M unit :=
  let* services := get obj "services" in
  if truthy services then
    let* es := entries services in
    match es with
    | [] => throw (TypeError "undefined is not iterable")
    | (serviceName, schemaRef) :: _ =>
        let* u := isUrl schemaRef in
        let* endpoint :=
          if u then loadEndpointConfig schemaRef true
          else ret VUndefined in
        let* f := isFile schemaRef in
        let* dep :=
          alloc (OObj [("endpoint", endpoint);
                       ("engineKey", env_ENGINE_API_KEY);
                       ("clientSide", VBool false);
                       ("schema", if f then schemaRef else VNull)]) in
        set schemas serviceName dep
    end
  else ret tt.

(** Second: [if (Object.keys(schemas).length === 0 && defaultSchema)]. *)
Definition defaultEntry (schemas : value)
  (defaultEndpoint defaultSchema : bool) : M unit :=
  let* ks := keys schemas in
  if Nat.eqb (List.length ks) 0 && defaultSchema then
    let* empty := alloc (OObj []) in
    let* dflt := loadSchemaConfig empty defaultEndpoint in
    set schemas "default" dflt
  else ret tt.

(** Third: [if (obj.clientSchema) { schemas.default = ... }]. *)
Definition clientSchemaEntry (obj schemas : value) : M unit :=
  let* clientSchema := get obj "clientSchema" in
  if truthy clientSchema then
    let* clientSchema' := get obj "clientSchema" in
    let* ks := keys schemas in
    let* dep :=
      alloc (OObj [("schema", clientSchema');
                   ("clientSide", VBool true);
                   ("extends", first_key ks)]) in
    set schemas "default" dep
  else ret tt.

Definition getSchemasFromServices
  (obj : value) (defaultEndpoint defaultSchema : bool) : M value :=
  let* schemas := alloc (OObj []) in
  let* _ := serviceEntry obj schemas in
  let* _ := defaultEntry schemas defaultEndpoint defaultSchema in
  let* _ := clientSchemaEntry obj schemas in
  ret schemas.

(** [xs.map(d => loadDocumentSet(d))], left to right. *)
Fixpoint map_loadDocumentSet (ds : list value) : M (list value) :=
  match ds with
  | [] => ret []
  | d :: ds' =>
      let* r := loadDocumentSet d in
      let* rs := map_loadDocumentSet ds' in
      ret (r :: rs)
  end.

Definition array_elems (h : heap) (v : value) : list value :=
  match v with
  | VRef l => match h !! l with
              | Some (OArr es) => es
              | _ => []
              end
  | _ => []
  end.

Definition elems (v : value) : M (list value) :=
  fun h => (Ok (array_elems h v), h).

(** The document sets [loadConfig] normalizes. *)
Definition documentSets (obj schemas : value) : M (list value) :=
  let* rawQueries := get obj "queries" in
  if truthy rawQueries then
    let* arr := isArray rawQueries in
    if arr then elems rawQueries else ret [rawQueries]
  else
    let* ks := keys schemas in
    if Nat.eqb (List.length ks) 1 then
      let* implicit := alloc (OObj [("schema", first_key ks)]) in
      ret [implicit]
    else ret [].

Definition loadConfig
  (obj : value) (configFile configDir : string)
  (defaultEndpoint defaultSchema : bool) : M value :=
  let* schemas := getSchemasFromServices obj defaultEndpoint defaultSchema in
  let name := basename configDir in
  let* sets := documentSets obj schemas in
  let* loaded := map_loadDocumentSet sets in
  let* queries := alloc (OArr loaded) in
  let* engineEndpoint := get obj "engineEndpoint" in
  alloc (OObj [("configFile", VStr configFile);
               ("projectFolder", VStr configDir);
               ("schemas", schemas);
               ("name", VStr name);
               ("queries", queries);
               ("engineEndpoint", engineEndpoint)]).

(** Raw inputs the normalizers go through on. [services], when given,
    has to start with an entry whose value is a string: it is
    destructured and then asked for [match]. *)
Definition services_ok (h : heap) (services : value) : bool :=
  negb (truthy services)
  || match own_props h services with
     | (_, VStr _) :: _ => true
     | _ => false
     end.

(** [loadDocumentSet] reads members of every entry of [queries]. *)
Definition readable (v : value) : bool :=
  match v with
  | VUndefined | VNull => false
  | _ => true
  end.

Definition queries_ok (h : heap) (queries : value) : bool :=
  match queries with
  | VRef l =>
      match h !! l with
      | Some (OArr es) => forallb readable es
      | Some (OObj _) => true
      | None => false
      end
  | _ => true
  end.

End Normalizers.

End Load.

(** ** The canonical configuration model *)

Record EndpointConfig := {
  url : option string;
  subscriptions : option string;
  headers : option (list (string * string));
  skipSSLValidation : option bool
}.

Record SchemaDependency := {
  dep_schema : option string;
  dep_endpoint : option EndpointConfig;
  dep_engineKey : option string;
  extends : option string;
  clientSide : option bool
}.

Record DocumentSet := {
  doc_schema : option string;
  includes : list string;
  excludes : list string
}.

Record ApolloConfig := {
  configFile : string;
  projectFolder : string;
  name : option string;
  schemas : option (gmap string SchemaDependency);
  queries : option (list DocumentSet);
  engineEndpoint : option string
}.

(** A GraphQL document as far as this module looks into it: [visit] walks
    every node and the callback reads [kind] and writes [__client]. *)
Inductive Node := mkNode (kind : string) (__client : bool) (children : list Node).

(** ** The resolvers *)

Module Resolve.
Import Js.

(** Calls that leave the module. *)
Inductive Event :=
| EvLoadQueryDocuments (paths : list (option string))
| EvVisit
| EvExtendSchema
| EvBuildASTSchema
| EvLoadSchema (dependency : SchemaDependency) (tag : option string)
| EvBuildClientSchema
| EvGlobSync (pattern cwd : string).

(** The introspection fetch and the construction of documents and schemas,
    as opposed to the expansion of file patterns. *)
Definition schema_event (e : Event) : bool :=
  match e with
  | EvGlobSync _ _ => false
  | _ => true
  end.

Inductive outcome (A : Type) :=
| Returned (a : A)
| Thrown (e : JsError)
| OutOfFuel.
Arguments Returned {A} a.
Arguments Thrown {A} e.
Arguments OutOfFuel {A}.

(** Computations that log their calls, may throw, and may need more steps
    than the fuel they were given. *)
Definition R (A : Type) := list Event -> outcome A * list Event.

Definition ret {A} (a : A) : R A := fun t => (Returned a, t).
Definition throw {A} (e : JsError) : R A := fun t => (Thrown e, t).
Definition out_of_fuel {A} : R A := fun t => (OutOfFuel, t).
Definition bind {A B} (m : R A) (k : A -> R B) : R B :=
  fun t => match m t with
           | (Returned a, t') => k a t'
           | (Thrown e, t') => (Thrown e, t')
           | (OutOfFuel, t') => (OutOfFuel, t')
           end.

(** Calling a collaborator: the call is logged, then its result or its
    exception comes back. *)
Definition call {A} (e : Event) (r : result A) : R A :=
  fun t => match r with
           | Ok a => (Returned a, t ++ [e])
           | Throw err => (Thrown err, t ++ [e])
           end.

Declare Scope resolve_scope.
Delimit Scope resolve_scope with resolve.
Notation "'let*' x ':=' m 'in' k" := (bind m (fun x => k))
  (at level 10, x pattern, m at level 100, k at level 200) : resolve_scope.
Local Open Scope resolve_scope.

(** Truthiness of an optional string: [undefined] and the empty string are falsy. *)
Definition truthy_str (o : option string) : option string :=
  match o with
  | Some s => if String.eqb s EmptyString then None else Some s
  | None => None
  end.

Definition truthy_flag (o : option bool) : bool := default false o.

(** ToPropertyKey of an optional string used as a computed member name. *)
Definition key_of (o : option string) : string := default "undefined" o.

(** What reading a member inherited from [Object.prototype] yields: a
    function or the prototype object. It is truthy and has none of the
    fields of a schema dependency. *)
Definition inherited_member : SchemaDependency :=
  {| dep_schema := None; dep_endpoint := None; dep_engineKey := None;
     extends := None; clientSide := None |}.

(** [(config.schemas || {})[key]]. *)
Definition lookup_schema (config : ApolloConfig) (key : string)
  : option SchemaDependency :=
  match default ∅ (schemas config) !! key with
  | Some d => Some d
  | None => if mem key object_prototype_names then Some inherited_member
            else None
  end.

(** The visitor of [loadAsAST]: every [FieldDefinition] node is marked. *)
Fixpoint markClient (n : Node) : Node :=
  match n with
  | mkNode k c ch =>
      mkNode k (if String.eqb k "FieldDefinition" then true else c)
             (map markClient ch)
  end.

Record ResolvedDocumentSet {Schema : Type} := {
  res_schema : option Schema;
  res_endpoint : option EndpointConfig;
  res_engineKey : option string;
  documentPaths : list string;
  originalSet : DocumentSet
}.
Arguments ResolvedDocumentSet Schema : clear implicits.

Section Resolvers.

(** The collaborators: [loadQueryDocuments] of apollo-codegen-core,
    [extendSchema], [buildASTSchema] and [buildClientSchema] of graphql,
    [loadSchema] of ./load-schema, [glob.sync] under [withGlobalFS],
    [minimatch] and [path.relative]. *)
Variables Schema Introspection : Type.
Variable loadQueryDocuments : list (option string) -> result (list Node).
Variable extendSchema : option Schema -> option Node -> result Schema.
Variable buildASTSchema : option Node -> result Schema.
Variable buildClientSchema : Introspection -> result Schema.
Variable loadSchema :
  SchemaDependency -> ApolloConfig -> option string ->
  result (option Introspection).
Variable globSync : string -> string -> result (list string).
Variable minimatch : string -> string -> bool.
Variable relative : string -> string -> string.

(** The length past which an array does not grow: 2^32 - 1 by the
    language, less where the engine gives up earlier. *)
Variable array_limit : N.

(** [...(tag && { tag })]. *)
Definition pass_tag (tag : option string) : option string :=
  truthy_str tag.

(** [visit] is given the first document that was loaded; when there is
    none it is taken to have nothing to walk. *)
Definition loadAsAST (referredSchema : SchemaDependency)
  : R (option Node) :=
  let paths := [dep_schema referredSchema] in
  let* docs := call (EvLoadQueryDocuments paths) (loadQueryDocuments paths) in
  let ast := head docs in
  if truthy_flag (clientSide referredSchema)
  then let* _ := call EvVisit (Ok tt) in ret (markClient <$> ast)
  else ret ast.

(** The recursive call is the operand of [await]: it is made before the
    function waits for anything, so the nested calls pile up on the call
    stack of the engine. [stack] is the number of nested calls the stack
    still holds; the call that does not fit throws a RangeError, which
    rejects the promise of every call above it. *)
Fixpoint resolveSchema (stack : nat) (name : string) (config : ApolloConfig)
  (tag : option string) : R (option Schema) :=
  match stack with
  | O => throw (RangeError "Maximum call stack size exceeded")
  | S stack' =>
      match lookup_schema config name with
      | None =>
          throw (TypeError "Cannot read property 'extends' of undefined")
      | Some referredSchema =>
          match truthy_str (extends referredSchema) with
          | Some base =>
              let* baseSchema :=
                resolveSchema stack' base config (pass_tag tag) in
              let* ast := loadAsAST referredSchema in
              let* s := call EvExtendSchema (extendSchema baseSchema ast) in
              ret (Some s)
          | None =>
              if truthy_flag (clientSide referredSchema) then
                let* ast := loadAsAST referredSchema in
                let* s := call EvBuildASTSchema (buildASTSchema ast) in
                ret (Some s)
              else
                let* introspectionSchema :=
                  call (EvLoadSchema referredSchema (pass_tag tag))
                       (loadSchema referredSchema config (pass_tag tag)) in
                match introspectionSchema with
                | None => ret None
                | Some i =>
                    let* s := call EvBuildClientSchema (buildClientSchema i) in
                    ret (Some s)
                end
          end
      end
  end.

(** [schemaPaths.push(p)]: an array that is full throws a RangeError. *)
Definition push (schemaPaths : list string) (p : string)
  : R (list string) :=
  if (N.of_nat (length schemaPaths) <? array_limit)%N
  then ret (schemaPaths ++ [p])
  else throw (RangeError "Invalid array length").

(** The [while (currentSchema)] loop that collects the schema files along
    the [extends] chain. Nothing bounds the number of its rounds: [fuel]
    is the number of rounds a run is given. *)
Fixpoint collectSchemaPaths (fuel : nat) (config : ApolloConfig)
  (currentSchema : option SchemaDependency) (schemaPaths : list string)
  : R (list string) :=
  match currentSchema with
  | None => ret schemaPaths
  | Some cur =>
      match fuel with
      | O => out_of_fuel
      | S fuel' =>
          let* schemaPaths' :=
            match truthy_str (dep_schema cur) with
            | Some p => push schemaPaths p
            | None => ret schemaPaths
            end in
          collectSchemaPaths fuel' config
            (lookup_schema config (key_of (extends cur))) schemaPaths'
      end
  end.

(** [doc.includes.flatMap(i => fg.sync(i, { cwd, absolute: true }))]. *)
Fixpoint expandIncludes (cwd : string) (patterns : list string)
  : R (list string) :=
  match patterns with
  | [] => ret []
  | i :: rest =>
      let* found := call (EvGlobSync i cwd) (globSync i cwd) in
      let* more := expandIncludes cwd rest in
      ret (found ++ more)
  end.

(** The predicate of [.filter]: no pattern of [patterns] matches the path
    taken relative to the project folder. *)
Definition kept (cwd : string) (patterns : list string) (f : string)
  : bool :=
  negb (existsb (fun e => minimatch (relative cwd f) e) patterns).

(** [doc.schema ? (config.schemas || {})[doc.schema] : undefined]. *)
Definition referred (config : ApolloConfig) (doc : DocumentSet)
  : option SchemaDependency :=
  match truthy_str (doc_schema doc) with
  | Some n => lookup_schema config n
  | None => None
  end.

Definition resolveDocumentSet (fuel stack : nat) (config : ApolloConfig)
  (needSchema : bool) (tag : option string) (doc : DocumentSet)
  : R (ResolvedDocumentSet Schema) :=
  let referredSchema := referred config doc in
  let* schemaPaths :=
    collectSchemaPaths fuel config
      (lookup_schema config (key_of (doc_schema doc))) [] in
  let* schema :=
    match needSchema, truthy_str (doc_schema doc) with
    | true, Some n => resolveSchema stack n config (pass_tag tag)
    | _, _ => ret None
    end in
  let* found := expandIncludes (projectFolder config) (includes doc) in
  ret {| res_schema := schema;
         res_endpoint := referredSchema ≫= dep_endpoint;
         res_engineKey := referredSchema ≫= dep_engineKey;
         documentPaths :=
           filter (fun f => kept (projectFolder config)
                                 (excludes doc ++ schemaPaths) f = true)
                  found;
         originalSet := doc |}.

(** [Promise.all(sets.map(async doc => ...))]. The callbacks are run to
    completion one after the other here. In the source a callback runs up
    to its first [await] before the next one starts, and [Promise.all]
    reports the rejection that comes first in time: with several sets,
    the order of the logged calls and the choice among several failures
    are those of this model. Whether all sets are returned, and what each
    returned set holds, do not depend on it; without [needSchema] no
    callback waits and the model is exact. *)
Fixpoint resolveEach (fuel stack : nat) (config : ApolloConfig)
  (needSchema : bool) (tag : option string) (docs : list DocumentSet)
  : R (list (ResolvedDocumentSet Schema)) :=
  match docs with
  | [] => ret []
  | doc :: rest =>
      let* r := resolveDocumentSet fuel stack config needSchema tag doc in
      let* rs := resolveEach fuel stack config needSchema tag rest in
      ret (r :: rs)
  end.

Definition resolveDocumentSets (fuel stack : nat) (config : ApolloConfig)
  (needSchema : bool) (tag : option string)
  : R (list (ResolvedDocumentSet Schema)) :=
  resolveEach fuel stack config needSchema tag
    (default [] (queries config)).

(** The [extends] chain that starts at [name] ends after [k] hops: at a
    name that is unknown, or at a dependency that extends nothing. *)
Inductive chain_ends (config : ApolloConfig) : string -> nat -> Prop :=
| chain_unknown name :
    lookup_schema config name = None ->
    chain_ends config name 0
| chain_terminal name d :
    lookup_schema config name = Some d ->
    truthy_str (extends d) = None ->
    chain_ends config name 0
| chain_hop name d base k :
    lookup_schema config name = Some d ->
    truthy_str (extends d) = Some base ->
    chain_ends config base k ->
    chain_ends config name (S k).

(** [n] hops along [extends] lead from one name to another. *)
Inductive hops (config : ApolloConfig) : nat -> string -> string -> Prop :=
| hops_here name : hops config 0 name name
| hops_next n name d base target :
    lookup_schema config name = Some d ->
    truthy_str (extends d) = Some base ->
    hops config n base target ->
    hops config (S n) name target.

End Resolvers.

End Resolve.

(** ** Concrete collaborators and configurations

    A small world to run the resolvers in: schemas are kept as the terms that
    built them, every pattern expands to one operations file of the project,
    and a pattern matches a path when it is that path. *)

Module World.
Import Js Resolve.

Inductive SchemaTerm :=
| FromIntrospection (result : string)
| FromAST (ast : option Node)
| Extended (base : option SchemaTerm) (ast : option Node).

Definition loadQueryDocuments (paths : list (option string))
  : result (list Node) :=
  Ok (map (fun p => mkNode "Document" false
                      [mkNode "ObjectTypeDefinition" false
                         [mkNode "FieldDefinition" false []]]) paths).

Definition extendSchema (base : option SchemaTerm) (ast : option Node)
  : result SchemaTerm := Ok (Extended base ast).

Definition buildASTSchema (ast : option Node) : result SchemaTerm :=
  Ok (FromAST ast).

Definition buildClientSchema (i : string) : result SchemaTerm :=
  Ok (FromIntrospection i).

Definition loadSchema (dependency : SchemaDependency) (config : ApolloConfig)
  (tag : option string) : result (option string) :=
  Ok (Some (default "current" tag)).

Definition globSync (pattern cwd : string) : result (list string) :=
  Ok [cwd +:+ "/queries.graphql"].

Definition minimatch (path pattern : string) : bool := String.eqb path pattern.

Definition relative (from to : string) : string :=
  Str.drop (S (String.length from)) to.

(** 2^32 - 1. *)
Definition array_limit : N := 4294967295.

Definition resolveSchema :=
  Resolve.resolveSchema SchemaTerm string loadQueryDocuments extendSchema
    buildASTSchema buildClientSchema loadSchema.

Definition resolveDocumentSets :=
  Resolve.resolveDocumentSets SchemaTerm string loadQueryDocuments
    extendSchema buildASTSchema buildClientSchema loadSchema globSync
    minimatch relative array_limit.

Definition dependency (file base : option string) (client : bool)
  : SchemaDependency :=
  {| dep_schema := file; dep_endpoint := None; dep_engineKey := None;
     extends := base; clientSide := Some client |}.

Definition config (deps : list (string * SchemaDependency))
  (sets : list DocumentSet) : ApolloConfig :=
  {| configFile := "/project/apollo.config.js";
     projectFolder := "/project";
     name := Some "project";
     schemas := Some (list_to_map deps);
     queries := Some sets;
     engineEndpoint := None |}.

(** [A extends B] and [B extends A]. *)
Definition cyclic : ApolloConfig :=
  config [("A", dependency (Some "a.graphql") (Some "B") true);
          ("B", dependency (Some "b.graphql") (Some "A") true)] [].

(** A client schema layered over a service. *)
Definition layered : ApolloConfig :=
  config [("service", dependency None None false);
          ("client", dependency (Some "client.graphql") (Some "service") true)]
         [{| doc_schema := Some "client"; includes := ["**"];
             excludes := ["node_modules/**"] |}].

(** A document set that names a schema nobody declared. *)
Definition dangling : ApolloConfig :=
  config [("service", dependency None None false)]
         [{| doc_schema := Some "missing"; includes := ["**"];
             excludes := ["node_modules/**"] |}].

(** Two include patterns that match the same file. *)
Definition overlapping : ApolloConfig :=
  config [("service", dependency None None false)]
         [{| doc_schema := Some "service";
             includes := ["**/*.graphql"; "queries.graphql"];
             excludes := ["node_modules/**"] |}].

(** The raw side: no file exists, the name of a project is the last
    segment of its folder, and a few raw configurations as heaps whose
    first object is the configuration. *)
Definition existsSync (path : string) : bool := false.

Fixpoint basename (path : string) : string :=
  match path with
  | EmptyString => EmptyString
  | String c rest =>
      if Str.occurs "/" rest then basename rest
      else if String.eqb (String c EmptyString) "/" then rest
           else path
  end.

Definition loadConfig (env : option string) (raw : Js.heap) :=
  Load.loadConfig env existsSync basename (VRef 0)
    "/project/apollo.config.js" "/project" true true raw.

(** [{ queries: "operations/**/*.graphql" }] *)
Definition queries_string : Js.heap :=
  [OObj [("queries", VStr "operations/**/*.graphql")]].

(** [{ services: {} }] *)
Definition services_empty : Js.heap :=
  [OObj [("services", VRef 1)]; OObj []].

(** [{ services: { backend: "http://localhost:8080/graphql" },
       queries: [{ includes: "src/**/*.graphql" }] }] *)
Definition services_url : Js.heap :=
  [OObj [("services", VRef 1); ("queries", VRef 2)];
   OObj [("backend", VStr "http://localhost:8080/graphql")];
   OArr [VRef 3];
   OObj [("includes", VStr "src/**/*.graphql")]].

(** [{ clientSchema: "client.graphql" }] *)
Definition client_only : Js.heap :=
  [OObj [("clientSchema", VStr "client.graphql")]].

(** The raw schema dependency [{ engineKey: "configured" }]. *)
Definition keyed_dependency : Js.heap :=
  [OObj [("engineKey", VStr "configured")]].

(** The raw schema dependency
    [{ endpoint: { url: "http://localhost:8080/graphql" }, extends: "base" }]. *)
Definition nested_endpoint : Js.heap :=
  [OObj [("endpoint", VRef 1); ("extends", VStr "base")];
   OObj [("url", VStr "http://localhost:8080/graphql")]].

End World.

(** ** The walk of the [while] loop, and counting calls *)

Module Walk.
Import Js Resolve.

(** The dependency the loop of [resolveDocumentSets] goes to next:
    [(config.schemas || {})[currentSchema.extends!]]. *)
Definition next (config : ApolloConfig) (cur : SchemaDependency)
  : option SchemaDependency :=
  lookup_schema config (key_of (extends cur)).

(** The dependency the loop starts at: [(config.schemas || {})[doc.schema!]]. *)
Definition start (config : ApolloConfig) (doc : DocumentSet)
  : option SchemaDependency :=
  lookup_schema config (key_of (doc_schema doc)).

(** The loop is over after [k] rounds. *)
Inductive loop_ends (config : ApolloConfig)
  : option SchemaDependency -> nat -> Prop :=
| loop_done : loop_ends config None 0
| loop_round cur k :
    loop_ends config (next config cur) k ->
    loop_ends config (Some cur) (S k).

(** [n] rounds of the loop lead from one dependency to another. *)
Inductive loop_hops (config : ApolloConfig)
  : nat -> option SchemaDependency -> option SchemaDependency -> Prop :=
| loop_hops_here cur : loop_hops config 0 cur cur
| loop_hops_round n cur target :
    loop_hops config n (next config cur) target ->
    loop_hops config (S n) (Some cur) target.

(** The schema files along the loop, in the order the loop comes by them:
    the [schema] members that are set, of the dependencies from
    [currentSchema] on. *)
Inductive schema_files (config : ApolloConfig)
  : option SchemaDependency -> list string -> Prop :=
| schema_files_done : schema_files config None []
| schema_files_round cur rest :
    schema_files config (next config cur) rest ->
    schema_files config (Some cur)
      (match truthy_str (dep_schema cur) with
       | Some p => p :: rest
       | None => rest
       end).

(** The loop, started at [cur], comes by the dependency [d]. *)
Definition visits (config : ApolloConfig) (cur : option SchemaDependency)
  (d : SchemaDependency) : Prop :=
  exists n, loop_hops config n cur (Some d).

Definition is_load_schema (e : Event) : bool :=
  match e with EvLoadSchema _ _ => true | _ => false end.

Definition is_extend_schema (e : Event) : bool :=
  match e with EvExtendSchema => true | _ => false end.

Definition count (p : Event -> bool) (t : list Event) : nat :=
  length (List.filter p t).

End Walk.

(** ** Documents without their marks *)

Module Marks.



End Marks.

(** ** More sample configurations *)

Module Samples.
Import Js Resolve.

(** The cycle of [World.cyclic], with a document set on it. *)
Definition cyclic_set : ApolloConfig :=
  World.config
    [("A", World.dependency (Some "a.graphql") (Some "B") true);
     ("B", World.dependency (Some "b.graphql") (Some "A") true)]
    [{| doc_schema := Some "A"; includes := ["**"]; excludes := [] |}].

(** A cycle none of whose dependencies has a schema file. *)
Definition cyclic_bare : ApolloConfig :=
  World.config
    [("A", World.dependency None (Some "B") false);
     ("B", World.dependency None (Some "A") false)]
    [{| doc_schema := Some "A"; includes := ["**"]; excludes := [] |}].

(** Patterns that are file names: each expands to the file of that name
    in the folder. *)
Definition globSync (pattern cwd : string) : result (list string) :=
  Ok [cwd +:+ "/" +:+ pattern].

Definition resolveDocumentSets :=
  Resolve.resolveDocumentSets World.SchemaTerm string
    World.loadQueryDocuments World.extendSchema World.buildASTSchema
    World.buildClientSchema World.loadSchema globSync World.minimatch
    World.relative World.array_limit.

(** A client schema over a service, and a document set that names the
    file of the client schema among its documents. *)
Definition two_files : ApolloConfig :=
  World.config
    [("service", World.dependency None None false);
     ("client",
      World.dependency (Some "client.graphql") (Some "service") true)]
    [{| doc_schema := Some "client";
        includes := ["queries.graphql"; "client.graphql"];
        excludes := [] |}].

(** A client schema whose file is among the files the patterns find, over
    a service with an endpoint and an engine key. *)
Definition service_endpoint : EndpointConfig :=
  {| url := Some "http://localhost:8080/graphql";
     subscriptions := Some "ws://localhost:8080/graphql";
     headers := None; skipSSLValidation := None |}.

Definition schema_in_tree : ApolloConfig :=
  World.config
    [("service",
      {| dep_schema := None; dep_endpoint := Some service_endpoint;
         dep_engineKey := Some "service:key"; extends := None;
         clientSide := Some false |});
     ("client",
      World.dependency (Some "queries.graphql") (Some "service") true)]
    [{| doc_schema := Some "client"; includes := ["**"]; excludes := [] |};
     {| doc_schema := Some "service"; includes := ["**"];
        excludes := ["node_modules/**"] |}].

(** What [resolveDocumentSets] makes of it without [needSchema]. *)
Definition resolved_client : ResolvedDocumentSet World.SchemaTerm :=
  {| res_schema := None; res_endpoint := None; res_engineKey := None;
     documentPaths := [];
     originalSet := {| doc_schema := Some "client"; includes := ["**"];
                       excludes := [] |} |}.

(** What [resolveDocumentSets] makes of [World.layered] without
    [needSchema]. *)
Definition resolved_layered : ResolvedDocumentSet World.SchemaTerm :=
  {| res_schema := None; res_endpoint := None; res_engineKey := None;
     documentPaths := ["/project/queries.graphql"];
     originalSet := {| doc_schema := Some "client"; includes := ["**"];
                       excludes := ["node_modules/**"] |} |}.

Definition resolved_service : ResolvedDocumentSet World.SchemaTerm :=
  {| res_schema := None; res_endpoint := Some service_endpoint;
     res_engineKey := Some "service:key";
     documentPaths := ["/project/queries.graphql"];
     originalSet := {| doc_schema := Some "service"; includes := ["**"];
                       excludes := ["node_modules/**"] |} |}.

(** [{ services: { backend: "schema.json" }, clientSchema: "client.graphql" }] *)
Definition service_and_client : Js.heap :=
  [OObj [("services", VRef 1); ("clientSchema", VStr "client.graphql")];
   OObj [("backend", VStr "schema.json")]].

End Samples.

(** ** Leaving the raw configuration alone *)

Module Frame.
Import Js.

(** A computation started in a heap that begins with [h0] leaves the
    objects of [h0] as they are, whatever it returns or throws. *)
Definition grows {A} (h0 : heap) (m : M A) : Prop :=
  forall news, exists news', (m (h0 ++ news)).2 = h0 ++ news'.

(** A value that refers to an object refers to one of the heap. *)
Definition defined (h : heap) (v : value) : Prop :=
  match v with
  | VRef l => is_Some (h !! l)
  | _ => True
  end.

End Frame.

(** ** What a service becomes *)

Module Services.
Import Js Load.

(** The objects [getSchemasFromServices] makes for the first entry
    [name: ref] of [services], the first of them at location [at_]: the
    schemas, and a dependency with an endpoint for a URL, with a schema
    file for a file that exists. *)
Definition service_objects (ENGINE_API_KEY : option string)
  (existsSync : string -> bool) (name ref : string) (at_ : loc) : heap :=
  if Str.occurs "http" ref then
    [OObj [(name, VRef (at_ + 2))];
     OObj [("url", VStr ref);
           ("subscriptions", VStr (Str.replace "http" "ws" ref))];
     OObj [("endpoint", VRef (at_ + 1));
           ("engineKey", env_ENGINE_API_KEY ENGINE_API_KEY);
           ("clientSide", VBool false);
           ("schema", VNull)]]
  else
    [OObj [(name, VRef (at_ + 1))];
     OObj [("endpoint", VUndefined);
           ("engineKey", env_ENGINE_API_KEY ENGINE_API_KEY);
           ("clientSide", VBool false);
           ("schema", if existsSync ref then VStr ref else VNull)]].

End Services.

(** ** Finding and reading the configuration file *)

Module Files.
Import Js Load.
Local Open Scope js_scope.

(** [s.endsWith(suffix)]: the last [suffix.length] characters of [s] are
    [suffix]. *)
Definition endsWith (s suffix : string) : bool :=
  let n := String.length s in
  let m := String.length suffix in
  if Nat.ltb n m then false
  else String.eqb (Str.drop (n - m)%nat s) suffix.

(** The result of a call that does not touch the heap. *)
Definition lift {A} (r : result A) : M A := fun h => (r, h).

Section Files.

Variable ENGINE_API_KEY : option string.
Variable existsSync : string -> bool.
Variable basename : string -> string.

(** Node's [path.resolve], [path.dirname] and [path.join] (of a folder
    and a file name). *)
Variable resolve : string -> string.
Variable dirname : string -> string.
Variable join : string -> string -> string.

(** [require.resolve(filepath)], which throws when there is no such
    module; [require(filepath)] once the module's cache entry is deleted,
    which runs the module; [fs.readFileSync(file).toString()] and
    [JSON.parse], which builds what it has parsed. *)
Variable require_resolve : string -> result string.
Variable require : string -> M value.
Variable readFileSync : string -> result string.
Variable JSON_parse : string -> M value.

Definition loadConfigFromFile
  (file : string) (defaultEndpoint defaultSchema : bool) : M value :=
  if endsWith file ".js" then
    let filepath := resolve file in
    let* _ := lift (require_resolve filepath) in
    let* exported := require filepath in
    loadConfig ENGINE_API_KEY existsSync basename
      exported filepath (dirname filepath) defaultEndpoint defaultSchema
  else if endsWith file "package.json" then
    let* text := lift (readFileSync file) in
    let* parsed := JSON_parse text in
    let* apolloKey := get parsed "apollo" in
    if truthy apolloKey then
      loadConfig ENGINE_API_KEY existsSync basename
        apolloKey file (dirname file) defaultEndpoint defaultSchema
    else
      let* empty := alloc (OObj []) in
      loadConfig ENGINE_API_KEY existsSync basename
        empty file (dirname file) defaultEndpoint defaultSchema
  else throw (Error "Unsupported config file format").

Definition findAndLoadConfig
  (dir : string) (defaultEndpoint defaultSchema : bool) : M value :=
  if existsSync (join dir "apollo.config.js") then
    loadConfigFromFile (join dir "apollo.config.js")
      defaultEndpoint defaultSchema
  else if existsSync (join dir "package.json") then
    loadConfigFromFile (join dir "package.json")
      defaultEndpoint defaultSchema
  else
    let* empty := alloc (OObj []) in
    loadConfig ENGINE_API_KEY existsSync basename
      empty dir dir defaultEndpoint defaultSchema.

(** What [loadConfig] makes of [{}], as a tree: the local endpoint
    under the schema "default" and one document set for it with the
    default patterns, as far as [defaultEndpoint] and [defaultSchema]
    ask for them. *)
Definition default_configuration
  (configFile configDir : string) (defaultEndpoint defaultSchema : bool)
  : tree :=
  TObj [("configFile", TStr configFile);
        ("projectFolder", TStr configDir);
        ("schemas",
         TObj (if defaultSchema then
                 [("default",
                   TObj [("endpoint",
                          if defaultEndpoint then
                            TObj [("url", TStr "http://localhost:4000/graphql");
                                  ("subscriptions",
                                   TStr "ws://localhost:4000/graphql")]
                          else TUndefined);
                         ("engineKey",
                          match ENGINE_API_KEY with
                          | Some k =>
                              if String.eqb k EmptyString then TUndefined else TStr k
                          | None => TUndefined
                          end)])]
               else []));
        ("name", TStr (basename configDir));
        ("queries",
         TArr (if defaultSchema then
                 [TObj [("schema", TStr "default");
                        ("includes", TArr [TStr "**"]);
                        ("excludes", TArr [TStr "node_modules/**"])]]
               else []));
        ("engineEndpoint", TUndefined)].

(** The configuration file a folder is read from, if any. *)
Definition found (dir : string) : option string :=
  if existsSync (join dir "apollo.config.js")
  then Some (join dir "apollo.config.js")
  else if existsSync (join dir "package.json")
       then Some (join dir "package.json")
       else None.

End Files.

End Files.

(** ** A sample project folder *)

Module Project.
Import Js.

(** [path.join] of a folder and a file name, on folders that are written
    without dots: the separator is put in unless the folder brings it, and
    no folder at all gives the file name. *)
Definition join (dir file : string) : string :=
  if String.eqb dir EmptyString then file
  else if Files.endsWith dir "/" then dir +:+ file
       else dir +:+ "/" +:+ file.

(** Every path of the sample is absolute. *)
Definition resolve (path : string) : string := path.

Fixpoint dirname (path : string) : string :=
  match path with
  | EmptyString => EmptyString
  | String c rest =>
      if Str.occurs "/" rest then String c (dirname rest) else EmptyString
  end.

(** The folder holds a [package.json] and no [apollo.config.js]. *)
Definition existsSync (path : string) : bool :=
  String.eqb path "/project/package.json".

Definition require_resolve (path : string) : result string := Ok path.

(** [module.exports = { clientSchema: "client.graphql" }] *)
Definition require (path : string) : M value :=
  alloc (OObj [("clientSchema", VStr "client.graphql")]).

(** The [package.json] is [{}]: it has no [apollo] member. *)
Definition readFileSync (path : string) : result string := Ok "{}".

Definition JSON_parse (text : string) : M value := alloc (OObj []).

Definition loadConfigFromFile :=
  Files.loadConfigFromFile None existsSync World.basename resolve dirname
    require_resolve require readFileSync JSON_parse.

Definition findAndLoadConfig :=
  Files.findAndLoadConfig None existsSync World.basename resolve dirname
    join require_resolve require readFileSync JSON_parse.

End Project.

(** * Properties of the string operations *)

Module StrFacts.

Lemma prefix_append pat rest : String.prefix pat (pat +:+ rest) = true.
Proof.
  induction pat as [| c pat IH]; simpl.
  - destruct rest; reflexivity.
  - destruct (Ascii.ascii_dec c c); [exact IH | contradiction].
Qed.

Lemma prefix_split pat s :
  String.prefix pat s = true -> exists rest, s = pat +:+ rest.
Proof.
  revert s. induction pat as [| c pat IH]; intros s H.
  - exists s. reflexivity.
  - destruct s as [| c' s]; simpl in H; [discriminate |].
    destruct (Ascii.ascii_dec c c') as [<- |]; [| discriminate].
    destruct (IH s H) as [rest ->]. exists rest. reflexivity.
Qed.

Lemma drop_append pat rest : Str.drop (String.length pat) (pat +:+ rest) = rest.
Proof. induction pat as [| c pat IH]; simpl; [destruct rest |]; auto. Qed.

Lemma length_append a b :
  String.length (a +:+ b) = String.length a + String.length b.
Proof. induction a as [| c a IH]; simpl; [| rewrite IH]; reflexivity. Qed.

(** [occurs] finds a pattern exactly when the string splits around it. *)
Lemma occurs_split pat s :
  Str.occurs pat s = true <-> exists a b, s = a +:+ pat +:+ b.
Proof.
  split.
  - induction s as [| c s IH]; cbn [Str.occurs]; intros H.
    + rewrite orb_false_r in H. apply prefix_split in H as [rest ->].
      exists EmptyString, rest. reflexivity.
    + apply orb_true_iff in H as [H | H].
      * apply prefix_split in H as [rest ->]. exists EmptyString, rest. reflexivity.
      * destruct (IH H) as (a & b & ->). exists (String c a), b. reflexivity.
  - intros (a & b & ->). induction a as [| c a IH].
    + change (EmptyString +:+ pat +:+ b) with (pat +:+ b).
      destruct (pat +:+ b) eqn:E; cbn [Str.occurs]; rewrite <- ?E;
        rewrite prefix_append; reflexivity.
    + change (String c a +:+ pat +:+ b) with (String c (a +:+ pat +:+ b)).
      cbn [Str.occurs]. rewrite IH. apply orb_true_r.
Qed.

Lemma replace_absent pat rep s :
  Str.occurs pat s = false -> Str.replace pat rep s = s.
Proof.
  induction s as [| c s IH]; cbn [Str.occurs Str.replace]; intros H.
  - rewrite orb_false_r in H. rewrite H. reflexivity.
  - apply orb_false_iff in H as [Hp Ho]. rewrite Hp, (IH Ho). reflexivity.
Qed.

(** [replace] rewrites the first occurrence and nothing else. *)
Lemma replace_first pat rep pre post :
  (forall a b, pre +:+ pat +:+ post = a +:+ pat +:+ b ->
               String.length pre <= String.length a) ->
  Str.replace pat rep (pre +:+ pat +:+ post) = pre +:+ rep +:+ post.
Proof.
  induction pre as [| c pre IH]; intros Hfirst.
  - change (EmptyString +:+ pat +:+ post) with (pat +:+ post).
    change (EmptyString +:+ rep +:+ post) with (rep +:+ post).
    destruct (pat +:+ post) eqn:E; cbn [Str.replace]; rewrite <- ?E;
      rewrite prefix_append, drop_append; reflexivity.
  - change (String c pre +:+ pat +:+ post)
      with (String c (pre +:+ pat +:+ post)) in *.
    cbn [Str.replace].
    destruct (String.prefix pat (String c (pre +:+ pat +:+ post))) eqn:Hp.
    + apply prefix_split in Hp as [rest Hrest].
      specialize (Hfirst EmptyString rest Hrest). simpl in Hfirst. lia.
    + rewrite IH; [reflexivity |].
      intros a b Hab.
      specialize (Hfirst (String c a) b). simpl in Hfirst.
      rewrite Hab in Hfirst. specialize (Hfirst eq_refl). lia.
Qed.

End StrFacts.

(** * Properties of the normalizers *)

Module LoadFacts.
Import Js Load.
Local Open Scope js_scope.

(** *** Running the heap monad

    The heap of a call is written [h ++ news]: the heap the caller came
    with, followed by the objects allocated since. *)

Lemma bind_Ok {A B} (m : M A) (k : A -> M B) h a h' :
  m h = (Ok a, h') -> bind m k h = k a h'.
Proof. unfold bind. intros ->. reflexivity. Qed.

Lemma bind_Throw {A B} (m : M A) (k : A -> M B) h e h' :
  m h = (Throw e, h') -> bind m k h = (Throw e, h').
Proof. unfold bind. intros ->. reflexivity. Qed.

Lemma alloc_ext o (h news : heap) :
  alloc o (h ++ news) =
  (Ok (VRef (length h + length news)), h ++ (news ++ [o])).
Proof. unfold alloc. rewrite length_app, <- app_assoc. reflexivity. Qed.

Lemma lookup_new (h news : heap) i :
  (h ++ news) !! (length h + i) = news !! i.
Proof. rewrite lookup_app_r by lia. f_equal. lia. Qed.

Lemma lookup_old (h news : heap) l o :
  h !! l = Some o -> (h ++ news) !! l = Some o.
Proof. apply lookup_app_l_Some. Qed.

Lemma get_old l k ps (h news : heap) :
  h !! l = Some (OObj ps) ->
  get (VRef l) k (h ++ news) = (Ok (object_member ps k), h ++ news).
Proof. intros H. unfold get. rewrite (lookup_old _ _ _ _ H). reflexivity. Qed.

Lemma get_new i k ps (h news : heap) :
  news !! i = Some (OObj ps) ->
  get (VRef (length h + i)) k (h ++ news) =
  (Ok (object_member ps k), h ++ news).
Proof. intros H. unfold get. rewrite lookup_new, H. reflexivity. Qed.

Lemma set_new i k x ps (h news : heap) :
  news !! i = Some (OObj ps) ->
  String.eqb k "__proto__" = false ->
  set (VRef (length h + i)) k x (h ++ news) =
  (Ok tt, h ++ <[i := OObj (assoc_set k x ps)]> news).
Proof.
  intros H Hk. unfold set. rewrite lookup_new, H, Hk.
  rewrite insert_app_r_alt by lia. do 3 f_equal. lia.
Qed.

Lemma set_new_proto i x ps (h news : heap) :
  news !! i = Some (OObj ps) ->
  set (VRef (length h + i)) "__proto__" x (h ++ news) = (Ok tt, h ++ news).
Proof. intros H. unfold set. rewrite lookup_new, H. reflexivity. Qed.

Lemma set_first k x ps (h news : heap) :
  news !! 0 = Some (OObj ps) ->
  String.eqb k "__proto__" = false ->
  set (VRef (length h)) k x (h ++ news) =
  (Ok tt, h ++ <[0 := OObj (assoc_set k x ps)]> news).
Proof.
  intros H Hk. rewrite <- (set_new 0 k x ps h news H Hk).
  rewrite Nat.add_0_r. reflexivity.
Qed.

Lemma keys_first ps (h news : heap) :
  news !! 0 = Some (OObj ps) ->
  keys (VRef (length h)) (h ++ news) = (Ok ps.*1, h ++ news).
Proof.
  intros H. unfold keys, own_props.
  rewrite <- (Nat.add_0_r (length h)), lookup_new, H. reflexivity.
Qed.

Lemma keys_new i ps (h news : heap) :
  news !! i = Some (OObj ps) ->
  keys (VRef (length h + i)) (h ++ news) = (Ok ps.*1, h ++ news).
Proof. intros H. unfold keys, own_props. rewrite lookup_new, H. reflexivity. Qed.

Lemma entries_new i ps (h news : heap) :
  news !! i = Some (OObj ps) ->
  entries (VRef (length h + i)) (h ++ news) = (Ok ps, h ++ news).
Proof.
  intros H. unfold entries, own_props. rewrite lookup_new, H. reflexivity.
Qed.

Lemma entries_old l ps (h news : heap) :
  h !! l = Some (OObj ps) ->
  entries (VRef l) (h ++ news) = (Ok ps, h ++ news).
Proof.
  intros H. unfold entries, own_props. rewrite (lookup_old _ _ _ _ H).
  reflexivity.
Qed.

Lemma own_props_old (h news : heap) v :
  match v with VRef l => is_Some (h !! l) | _ => True end ->
  own_props (h ++ news) v = own_props h v.
Proof.
  destruct v as [| | | | | l |]; try reflexivity.
  intros [o Ho]. unfold own_props. rewrite (lookup_old _ _ _ _ Ho), Ho.
  reflexivity.
Qed.

(** One step of a computation whose first action is known. *)
Ltac js_known :=
  first
    [ apply alloc_ext
    | eapply get_old; eassumption
    | eapply get_new; reflexivity
    | eapply set_new; [reflexivity | first [reflexivity | eassumption]]
    | eapply set_new_proto; reflexivity
    | eapply keys_new; reflexivity
    | eapply entries_new; reflexivity
    | eapply entries_old; eassumption
    | reflexivity ].

Ltac js_step :=
  erewrite bind_Ok by js_known;
  cbn [app length Nat.add list_insert insert]; cbv beta.

Ltac js_norm :=
  rewrite ?length_app, <- ?app_assoc;
  cbn [app length Nat.add list_insert insert]; cbv beta.

(** Start from a heap [h] seen as [h ++ []]. *)
Ltac js_start h := rewrite <- (app_nil_r h) at 1.

Section Facts.

Variable ENGINE_API_KEY : option string.
Variable existsSync : string -> bool.
Variable basename : string -> string.

#[local] Abbreviation loadSchemaConfig := (loadSchemaConfig ENGINE_API_KEY).
#[local] Abbreviation getSchemasFromServices :=
  (getSchemasFromServices ENGINE_API_KEY existsSync).
#[local] Abbreviation loadConfig :=
  (loadConfig ENGINE_API_KEY existsSync basename).
#[local] Abbreviation isFile := (isFile existsSync).
#[local] Abbreviation synthesized := (synthesized ENGINE_API_KEY).

(** *** [loadEndpointConfig] *)

(** The endpoint record made from a bare string. *)
Lemma loadEndpointConfig_string s b (h : heap) :
  loadEndpointConfig (VStr s) b h =
  (Ok (VRef (length h)),
   h ++ [OObj (if String.eqb s EmptyString then [("url", VStr s)]
               else [("url", VStr s);
                     ("subscriptions", VStr (Str.replace "http" "ws" s))])]).
Proof.
  js_start h. unfold loadEndpointConfig. cbn [is_string].
  js_step. cbn [truthy]. js_step.
  change (truthy (object_member [("url", VStr s)] "subscriptions"))
    with false.
  cbn [negb]. js_step.
  change (object_member [("url", VStr s)] "url") with (VStr s).
  cbn [truthy]. destruct (String.eqb s EmptyString); cbn [negb].
  - rewrite Nat.add_0_r. reflexivity.
  - js_step. unfold call_replace. js_step. js_step.
    rewrite Nat.add_0_r. reflexivity.
Qed.

(** Nothing was given: the local endpoint, or no endpoint. *)
Lemma loadEndpointConfig_absent v b (h : heap) :
  is_string v = false ->
  truthy v = false ->
  loadEndpointConfig v b h =
  if b then (Ok (VRef (length h)), h ++ [default_endpoint])
  else (Ok VUndefined, h).
Proof.
  intros Hs Ht. destruct b.
  - js_start h. unfold loadEndpointConfig. rewrite Hs, Ht.
    js_step. cbn [truthy]. js_step.
    change (truthy (object_member _ "subscriptions")) with false.
    cbn [negb]. js_step.
    change (object_member _ "url")
      with (VStr "http://localhost:4000/graphql").
    cbn [truthy String.eqb Ascii.eqb Bool.eqb negb]. js_step.
    unfold call_replace. js_step. js_step.
    rewrite Nat.add_0_r. reflexivity.
  - unfold loadEndpointConfig. rewrite Hs, Ht.
    unfold bind, ret. cbn [truthy]. reflexivity.
Qed.

(** A truthy value that is neither a string nor an object comes back as
    it is. *)
Lemma loadEndpointConfig_primitive v b (h : heap) :
  is_string v = false ->
  truthy v = true ->
  (forall l, v <> VRef l) ->
  loadEndpointConfig v b h = (Ok v, h).
Proof.
  intros Hs Ht Hr. unfold loadEndpointConfig. rewrite Hs, Ht.
  unfold bind at 1. unfold ret at 1. rewrite Ht.
  destruct v as [| | c | n | s | l | p]; try discriminate;
    try reflexivity.
  contradiction (Hr l eq_refl).
Qed.

(** An object is completed in place. *)
Lemma loadEndpointConfig_ref l b (h : heap) :
  loadEndpointConfig (VRef l) b h =
  match h !! l with
  | Some (OObj ps) =>
      if truthy (object_member ps "subscriptions") then (Ok (VRef l), h)
      else if truthy (object_member ps "url") then
        match object_member ps "url" with
        | VStr s =>
            (Ok (VRef l),
             <[l := OObj (assoc_set "subscriptions"
                            (VStr (Str.replace "http" "ws" s)) ps)]> h)
        | VUndefined | VNull =>
            (Throw (TypeError "Cannot read property 'replace' of undefined"), h)
        | _ => (Throw (TypeError "replace is not a function"), h)
        end
      else (Ok (VRef l), h)
  | _ => (Ok (VRef l), h)
  end.
Proof.
  unfold loadEndpointConfig. cbn [is_string truthy].
  unfold bind at 1. unfold ret at 1. cbn [truthy].
  unfold bind at 1. unfold get at 1.
  destruct (h !! l) as [[ps | es] |] eqn:Hl.
  - destruct (truthy (object_member ps "subscriptions")); cbn [negb];
      [reflexivity |].
    unfold bind at 1. unfold get at 1. rewrite Hl.
    destruct (truthy (object_member ps "url")) eqn:Hurl; [| reflexivity].
    unfold bind at 1. unfold get at 1. rewrite Hl.
    destruct (object_member ps "url") as [| | c | n | s | l' | p];
      try reflexivity.
    unfold call_replace. unfold bind at 1. unfold ret at 1.
    unfold bind, set. rewrite Hl. reflexivity.
  - change (array_member es "subscriptions") with VUndefined.
    cbn [truthy negb]. unfold bind, get. rewrite Hl.
    change (array_member es "url") with VUndefined. reflexivity.
  - cbn [truthy negb]. unfold bind, get. rewrite Hl. reflexivity.
Qed.

(** [loadEndpointConfig] fails exactly on an object without
    [subscriptions] whose [url] is truthy but not a string. *)
Lemma loadEndpointConfig_succeeds v b (h : heap) :
  endpoint_ok h v = true ->
  exists e h', loadEndpointConfig v b h = (Ok e, h').
Proof.
  intros Hok. destruct v as [| | c | n | s | l | p].
  - rewrite loadEndpointConfig_absent by reflexivity.
    destruct b; eauto.
  - rewrite loadEndpointConfig_absent by reflexivity.
    destruct b; eauto.
  - destruct c.
    + rewrite loadEndpointConfig_primitive by (reflexivity || discriminate).
      eauto.
    + rewrite loadEndpointConfig_absent by reflexivity.
      destruct b; eauto.
  - destruct (truthy (VNum n)) eqn:Ht.
    + rewrite loadEndpointConfig_primitive
        by (reflexivity || assumption || discriminate).
      eauto.
    + rewrite loadEndpointConfig_absent by (reflexivity || assumption).
      destruct b; eauto.
  - rewrite loadEndpointConfig_string. eauto.
  - rewrite loadEndpointConfig_ref. unfold endpoint_ok in Hok.
    destruct (h !! l) as [[ps | es] |]; eauto.
    destruct (truthy (object_member ps "subscriptions")); eauto.
    destruct (truthy (object_member ps "url")); eauto.
    destruct (object_member ps "url"); try discriminate; eauto.
  - rewrite loadEndpointConfig_primitive by (reflexivity || discriminate).
    eauto.
Qed.

Lemma loadEndpointConfig_fails v b (h : heap) :
  endpoint_ok h v = false ->
  exists err, loadEndpointConfig v b h = (Throw err, h).
Proof.
  intros Hok. destruct v as [| | c | n | s | l | p]; try discriminate.
  rewrite loadEndpointConfig_ref. unfold endpoint_ok in Hok.
  destruct (h !! l) as [[ps | es] |]; try discriminate.
  destruct (truthy (object_member ps "subscriptions")); try discriminate.
  destruct (truthy (object_member ps "url")); try discriminate.
  destruct (object_member ps "url"); try discriminate; eauto.
Qed.

(** What a call does to the heap: nothing, one allocation, or the
    [subscriptions] member written into the object it was given. *)
Lemma loadEndpointConfig_effect v b (h : heap) r h' :
  loadEndpointConfig v b h = (r, h') ->
  h' = h \/
  (exists o, h' = h ++ [o]) \/
  (exists l ps s,
      v = VRef l /\ h !! l = Some (OObj ps) /\
      truthy (object_member ps "subscriptions") = false /\
      object_member ps "url" = VStr s /\ String.eqb s EmptyString = false /\
      h' = <[l := OObj (assoc_set "subscriptions"
                          (VStr (Str.replace "http" "ws" s)) ps)]> h).
Proof.
  destruct (truthy v) eqn:Ht; destruct v as [| | c | n | s | l | p];
    try discriminate.
  all: try (rewrite loadEndpointConfig_absent by (reflexivity || assumption);
            destruct b; intros [= _ <-]; eauto).
  all: try (rewrite loadEndpointConfig_primitive
              by (reflexivity || assumption || discriminate);
            intros [= _ <-]; eauto).
  all: try (rewrite loadEndpointConfig_string; intros [= _ <-]; eauto).
  rewrite loadEndpointConfig_ref.
  destruct (h !! l) as [[ps | es] |] eqn:Hl; try (intros [= _ <-]; eauto).
  destruct (truthy (object_member ps "subscriptions")) eqn:Hsub;
    try (intros [= _ <-]; eauto).
  destruct (truthy (object_member ps "url")) eqn:Hurl;
    try (intros [= _ <-]; eauto).
  destruct (object_member ps "url") as [| | c | n | s | l' | p] eqn:Hu;
    try (intros [= _ <-]; eauto).
  right. right. exists l, ps, s. cbn [truthy] in Hurl.
  apply negb_true_iff in Hurl. repeat split; assumption.
Qed.

(** *** Property tables *)

Lemma assoc_set_eq k x ps : assoc k (assoc_set k x ps) = Some x.
Proof.
  induction ps as [| [k' v] ps IH]; simpl.
  - rewrite String.eqb_refl. reflexivity.
  - destruct (String.eqb k k') eqn:E; simpl.
    + rewrite String.eqb_refl. reflexivity.
    + rewrite E. exact IH.
Qed.

Lemma assoc_set_ne k k' x ps :
  k <> k' -> assoc k (assoc_set k' x ps) = assoc k ps.
Proof.
  intros Hne. apply String.eqb_neq in Hne.
  induction ps as [| [k'' v] ps IH]; simpl.
  - rewrite Hne. reflexivity.
  - destruct (String.eqb k' k'') eqn:E; simpl.
    + apply String.eqb_eq in E. subst k''. rewrite Hne. reflexivity.
    + destruct (String.eqb k k''); [reflexivity | exact IH].
Qed.

Lemma member_set_ne k k' x ps :
  k <> k' -> object_member (assoc_set k' x ps) k = object_member ps k.
Proof. intros Hne. unfold object_member. rewrite assoc_set_ne; done. Qed.

(** *** [loadSchemaConfig] *)

(** Every object of the heap is still an object with the same members
    after [loadEndpointConfig], [subscriptions] apart. *)
Lemma loadEndpointConfig_keeps v b (h : heap) r h' l ps :
  loadEndpointConfig v b h = (r, h') ->
  h !! l = Some (OObj ps) ->
  exists ps', h' !! l = Some (OObj ps') /\
              forall k, k <> "subscriptions" -> assoc k ps' = assoc k ps.
Proof.
  intros Hrun Hl.
  destruct (loadEndpointConfig_effect _ _ _ _ _ Hrun)
    as [-> | [[o ->] | (l' & ps' & s & -> & Hl' & _ & _ & _ & ->)]].
  - eauto.
  - exists ps. split; [apply lookup_app_l_Some; exact Hl | reflexivity].
  - destruct (decide (l' = l)) as [-> | Hne].
    + assert (ps' = ps) as -> by congruence.
      eexists. split.
      * apply list_lookup_insert_eq. eapply lookup_lt_Some; eassumption.
      * intros k Hk. apply assoc_set_ne. exact Hk.
    + exists ps. split; [| reflexivity].
      rewrite list_lookup_insert_ne by exact Hne. exact Hl.
Qed.

Lemma loadSchemaConfig_object l ps de (h : heap) :
  h !! l = Some (OObj ps) ->
  loadSchemaConfig (VRef l) de h =
  match loadEndpointConfig (object_member ps "endpoint")
          (negb (truthy (object_member ps "engineKey")) && de) h with
  | (Ok e, h1) =>
      (Ok (VRef (length h1)),
       h1 ++ [OObj (spread_with ps e
                      (or_else (env_ENGINE_API_KEY ENGINE_API_KEY)
                               (object_member ps "engineKey")))])
  | (Throw err, h1) => (Throw err, h1)
  end.
Proof.
  intros Hl. unfold Load.loadSchemaConfig.
  unfold bind at 1, entries at 1, own_props. rewrite Hl.
  unfold bind at 1, get at 1. rewrite Hl.
  unfold bind at 1, get at 1. rewrite Hl.
  unfold bind at 1.
  destruct (loadEndpointConfig _ _ h) as [[e | err] h1] eqn:Hrun;
    [| reflexivity].
  destruct (loadEndpointConfig_keeps _ _ _ _ _ _ _ Hrun Hl)
    as (ps' & Hl' & Hsame).
  unfold bind, get, alloc. rewrite Hl'.
  unfold object_member at 1. rewrite Hsame by discriminate.
  reflexivity.
Qed.

(** The dependency synthesized from [{}]. *)
Lemma loadSchemaConfig_empty l de (h : heap) :
  h !! l = Some (OObj []) ->
  loadSchemaConfig (VRef l) de h =
  if de then
    (Ok (VRef (S (length h))),
     h ++ [default_endpoint;
           OObj [("endpoint", VRef (length h));
                 ("engineKey",
                  or_else (env_ENGINE_API_KEY ENGINE_API_KEY) VUndefined)]])
  else
    (Ok (VRef (length h)),
     h ++ [OObj [("endpoint", VUndefined);
                 ("engineKey",
                  or_else (env_ENGINE_API_KEY ENGINE_API_KEY) VUndefined)]]).
Proof.
  intros Hl. rewrite (loadSchemaConfig_object _ _ _ _ Hl).
  change (object_member [] "endpoint") with VUndefined.
  change (object_member [] "engineKey") with VUndefined.
  rewrite loadEndpointConfig_absent by reflexivity.
  cbn [truthy negb andb]. destruct de.
  - rewrite length_app, <- app_assoc, Nat.add_1_r. reflexivity.
  - reflexivity.
Qed.

(** *** [getSchemasFromServices], step by step

    Each step ends with an assignment to [schemas] and leaves every other
    object that was there before as it was. *)

Lemma assign_schemas (H news : heap) sl sps k x :
  H !! sl = Some (OObj sps) ->
  exists H' sps',
    set (VRef sl) k x (H ++ news) = (Ok tt, H') /\
    H' !! sl = Some (OObj sps') /\
    (k <> "__proto__" -> assoc k sps' = Some x) /\
    (forall l o, (H ++ news) !! l = Some o -> l <> sl -> H' !! l = Some o).
Proof.
  intros Hsl. pose proof (lookup_app_l_Some _ news _ _ Hsl) as Hsl'.
  unfold set. rewrite Hsl'.
  destruct (String.eqb k "__proto__") eqn:Hk.
  - exists (H ++ news), sps. repeat split; auto.
    intros Hne. apply String.eqb_eq in Hk. contradiction.
  - eexists _, _. repeat split.
    + apply list_lookup_insert_eq. eapply lookup_lt_Some; exact Hsl'.
    + intros _. apply assoc_set_eq.
    + intros l o Hl Hne. rewrite list_lookup_insert_ne by auto. exact Hl.
Qed.

Lemma isFile_string s (h : heap) :
  isFile (VStr s) h = (Ok (negb (Str.occurs "http" s) && existsSync s), h).
Proof.
  unfold Load.isFile, isUrl, bind, ret.
  destruct (Str.occurs "http" s); reflexivity.
Qed.

Lemma allocate_and_assign (H news : heap) sl sps k o :
  H !! sl = Some (OObj sps) ->
  exists H' sps',
    (let* dep := alloc o in set (VRef sl) k dep)%js (H ++ news)
    = (Ok tt, H') /\
    H' !! sl = Some (OObj sps') /\
    (k <> "__proto__" -> assoc k sps' = Some (VRef (length (H ++ news)))) /\
    H' !! length (H ++ news) = Some o /\
    (forall l' x, H !! l' = Some x -> l' <> sl -> H' !! l' = Some x).
Proof.
  intros Hsl. unfold bind at 1, alloc at 1. rewrite <- app_assoc.
  destruct (assign_schemas H (news ++ [o]) sl sps k
              (VRef (length (H ++ news))) Hsl)
    as (H' & sps' & Hset & Hsl' & Hk & Hframe).
  exists H', sps'. split; [exact Hset |]. split; [exact Hsl' |].
  split; [exact Hk |]. split.
  - apply Hframe.
    + rewrite app_assoc. apply list_lookup_middle. reflexivity.
    + apply lookup_lt_Some in Hsl. rewrite length_app. lia.
  - intros l' x Hl' Hne. apply Hframe; [| exact Hne].
    apply lookup_app_l_Some. exact Hl'.
Qed.

Lemma allocate_and_assign_here (H : heap) sl sps k o :
  H !! sl = Some (OObj sps) ->
  exists H' sps',
    (let* dep := alloc o in set (VRef sl) k dep)%js H = (Ok tt, H') /\
    H' !! sl = Some (OObj sps') /\
    (k <> "__proto__" -> assoc k sps' = Some (VRef (length H))) /\
    H' !! length H = Some o /\
    (forall l' x, H !! l' = Some x -> l' <> sl -> H' !! l' = Some x).
Proof.
  intros Hsl. pose proof (allocate_and_assign H [] sl sps k o Hsl) as Hgen.
  rewrite app_nil_r in Hgen. exact Hgen.
Qed.

Ltac assign_fresh H sl sps Hsl H' sps' Hset Hsl' Hframe :=
  match goal with
  | |- context [bind (alloc ?o) (fun dep => set (VRef sl) ?k dep) (H ++ ?news)] =>
      destruct (allocate_and_assign H news sl sps k o Hsl)
        as (H' & sps' & Hset & Hsl' & _ & _ & Hframe)
  | |- context [bind (alloc ?o) (fun dep => set (VRef sl) ?k dep) H] =>
      destruct (allocate_and_assign_here H sl sps k o Hsl)
        as (H' & sps' & Hset & Hsl' & _ & _ & Hframe)
  end.

Lemma serviceEntry_succeeds (H : heap) l ps sl sps :
  H !! l = Some (OObj ps) ->
  H !! sl = Some (OObj sps) ->
  services_ok H (object_member ps "services") = true ->
  exists H' sps',
    serviceEntry ENGINE_API_KEY existsSync (VRef l) (VRef sl) H = (Ok tt, H') /\
    H' !! sl = Some (OObj sps') /\
    (forall l' o, H !! l' = Some o -> l' <> sl -> H' !! l' = Some o).
Proof.
  intros Hl Hsl Hok. unfold serviceEntry.
  unfold bind at 1, get at 1. rewrite Hl.
  unfold services_ok in Hok.
  destruct (truthy (object_member ps "services")); cbn [negb orb] in Hok.
  - unfold bind at 1, entries at 1.
    destruct (own_props H (object_member ps "services"))
      as [| [serviceName [| | | | ref | |]] rest]; try discriminate.
    unfold bind at 1, isUrl at 1, ret at 1.
    destruct (Str.occurs "http" ref).
    + rewrite (bind_Ok _ _ _ _ _ (loadEndpointConfig_string ref true H)).
      rewrite (bind_Ok _ _ _ _ _ (isFile_string ref _)).
      assign_fresh H sl sps Hsl H' sps' Hset Hsl' Hframe.
      exists H', sps'. split; [exact Hset | auto].
    + unfold bind at 1, ret at 1.
      rewrite (bind_Ok _ _ _ _ _ (isFile_string ref _)).
      assign_fresh H sl sps Hsl H' sps' Hset Hsl' Hframe.
      exists H', sps'. split; [exact Hset | auto].
  - exists H, sps. repeat split; auto.
Qed.

Lemma defaultEntry_succeeds (H : heap) sl sps de ds :
  H !! sl = Some (OObj sps) ->
  exists H' sps',
    defaultEntry ENGINE_API_KEY (VRef sl) de ds H = (Ok tt, H') /\
    H' !! sl = Some (OObj sps') /\
    (forall l' o, H !! l' = Some o -> l' <> sl -> H' !! l' = Some o).
Proof.
  intros Hsl. unfold defaultEntry.
  unfold bind at 1, keys at 1, own_props. rewrite Hsl.
  destruct (Nat.eqb (length sps.*1) 0 && ds).
  - unfold bind at 1, alloc at 1.
    pose proof (loadSchemaConfig_empty (length H) de (H ++ [OObj []])
                  (list_lookup_middle H [] (OObj []) _ eq_refl)) as Hdflt.
    destruct de; rewrite (bind_Ok _ _ _ _ _ Hdflt), <- app_assoc;
      match goal with
      | |- context [set (VRef sl) ?k ?x (H ++ ?news)] =>
          destruct (assign_schemas H news sl sps k x Hsl)
            as (H' & sps' & Hset & Hsl' & _ & Hframe)
      end;
      exists H', sps'; (split; [exact Hset |]); (split; [exact Hsl' |]);
      intros l' o Hl' Hne; (apply Hframe; [| exact Hne]);
      apply lookup_app_l_Some; exact Hl'.
  - exists H, sps. repeat split; auto.
Qed.

Lemma clientSchemaEntry_succeeds (H : heap) l ps sl sps :
  H !! l = Some (OObj ps) ->
  H !! sl = Some (OObj sps) ->
  exists H' sps',
    clientSchemaEntry (VRef l) (VRef sl) H = (Ok tt, H') /\
    H' !! sl = Some (OObj sps') /\
    (forall l' o, H !! l' = Some o -> l' <> sl -> H' !! l' = Some o).
Proof.
  intros Hl Hsl. unfold clientSchemaEntry.
  unfold bind at 1, get at 1. rewrite Hl.
  destruct (truthy (object_member ps "clientSchema")).
  - unfold bind at 1, get at 1. rewrite Hl.
    unfold bind at 1, keys at 1, own_props. rewrite Hsl.
    assign_fresh H sl sps Hsl H' sps' Hset Hsl' Hframe.
    exists H', sps'. split; [exact Hset | auto].
  - exists H, sps. repeat split; auto.
Qed.

Lemma services_ok_ext (h news : heap) v :
  services_ok h v = true -> services_ok (h ++ news) v = true.
Proof.
  unfold services_ok. destruct (truthy v); cbn [negb orb]; [| auto].
  intros Hok. rewrite own_props_old; [exact Hok |].
  destruct v as [| | | | | l' |]; try exact I.
  unfold own_props in Hok. destruct (h !! l'); [eauto | discriminate].
Qed.

(** On an object whose [services] is usable, [getSchemasFromServices]
    returns a fresh mapping and touches nothing that was there. *)
Lemma getSchemasFromServices_succeeds (h : heap) l ps de ds :
  h !! l = Some (OObj ps) ->
  services_ok h (object_member ps "services") = true ->
  exists h' sps,
    getSchemasFromServices (VRef l) de ds h = (Ok (VRef (length h)), h') /\
    h' !! length h = Some (OObj sps) /\
    (forall l' o, h !! l' = Some o -> h' !! l' = Some o).
Proof.
  intros Hl Hok. unfold Load.getSchemasFromServices.
  unfold bind at 1, alloc at 1.
  assert ((h ++ [OObj []]) !! length h = Some (OObj [])) as Hsl
    by (apply list_lookup_middle; reflexivity).
  pose proof (lookup_app_l_Some _ [OObj []] _ _ Hl) as Hl0.
  destruct (serviceEntry_succeeds _ _ _ _ _ Hl0 Hsl
              (services_ok_ext _ _ _ Hok))
    as (H1 & sps1 & Hrun1 & Hsl1 & Hframe1).
  rewrite (bind_Ok _ _ _ _ _ Hrun1).
  assert (l <> length h) as Hne by (apply lookup_lt_Some in Hl; lia).
  destruct (defaultEntry_succeeds H1 _ _ de ds Hsl1)
    as (H2 & sps2 & Hrun2 & Hsl2 & Hframe2).
  rewrite (bind_Ok _ _ _ _ _ Hrun2).
  destruct (clientSchemaEntry_succeeds H2 l ps _ _
              (Hframe2 _ _ (Hframe1 _ _ Hl0 Hne) Hne) Hsl2)
    as (H3 & sps3 & Hrun3 & Hsl3 & Hframe3).
  rewrite (bind_Ok _ _ _ _ _ Hrun3).
  exists H3, sps3. split; [reflexivity |]. split; [exact Hsl3 |].
  intros l' o Hl'.
  assert (l' <> length h) as Hne' by (apply lookup_lt_Some in Hl'; lia).
  apply Hframe3; [| exact Hne']. apply Hframe2; [| exact Hne'].
  apply Hframe1; [| exact Hne']. apply lookup_app_l_Some. exact Hl'.
Qed.

(** *** [loadDocumentSet] and [loadConfig] *)

Lemma get_readable v k (h : heap) :
  readable v = true -> exists x, get v k h = (Ok x, h).
Proof.
  destruct v as [| | c | n | s | l | p]; try discriminate; intros _;
    unfold get; eauto.
  destruct (h !! l) as [[ps | es] |]; eauto.
Qed.

Lemma patterns_succeeds raw dflt (h : heap) :
  exists v h', patterns raw dflt h = (Ok v, h').
Proof.
  unfold patterns. destruct (is_string raw); [unfold alloc; eauto |].
  destruct (truthy raw); unfold alloc, ret; eauto.
Qed.

Lemma loadDocumentSet_succeeds d (h : heap) :
  readable d = true ->
  exists v h', loadDocumentSet d h = (Ok v, h').
Proof.
  intros Hd. unfold loadDocumentSet.
  destruct (get_readable d "schema" h Hd) as [schema Hschema].
  rewrite (bind_Ok _ _ _ _ _ Hschema).
  destruct (get_readable d "includes" h Hd) as [rawIncludes Hinc].
  rewrite (bind_Ok _ _ _ _ _ Hinc).
  destruct (patterns_succeeds rawIncludes "**" h) as (inc & h1 & Hp1).
  rewrite (bind_Ok _ _ _ _ _ Hp1).
  destruct (get_readable d "excludes" h1 Hd) as [rawExcludes Hexc].
  rewrite (bind_Ok _ _ _ _ _ Hexc).
  destruct (patterns_succeeds rawExcludes "node_modules/**" h1)
    as (exc & h2 & Hp2).
  rewrite (bind_Ok _ _ _ _ _ Hp2).
  unfold alloc. eauto.
Qed.

Lemma map_loadDocumentSet_succeeds ds :
  forallb readable ds = true ->
  forall h : heap, exists vs h', map_loadDocumentSet ds h = (Ok vs, h').
Proof.
  induction ds as [| d ds IH]; intros Hall h.
  - unfold map_loadDocumentSet, ret. eauto.
  - cbn [forallb] in Hall. apply andb_true_iff in Hall as [Hd Hds].
    cbn [map_loadDocumentSet].
    destruct (loadDocumentSet_succeeds d h Hd) as (v & h1 & Hv).
    rewrite (bind_Ok _ _ _ _ _ Hv).
    destruct (IH Hds h1) as (vs & h2 & Hvs).
    rewrite (bind_Ok _ _ _ _ _ Hvs).
    unfold ret. eauto.
Qed.

Lemma documentSets_succeeds (H : heap) l ps schemas :
  H !! l = Some (OObj ps) ->
  queries_ok H (object_member ps "queries") = true ->
  exists sets H',
    documentSets (VRef l) schemas H = (Ok sets, H') /\
    forallb readable sets = true.
Proof.
  intros Hl Hok. unfold documentSets.
  unfold bind at 1, get at 1. rewrite Hl.
  destruct (truthy (object_member ps "queries")) eqn:Ht.
  - unfold bind, isArray, elems, array_elems, ret.
    destruct (object_member ps "queries") as [| | c | n | s | q | p];
      try discriminate; try (eexists _, _; split; reflexivity).
    unfold queries_ok in Hok. cbv beta iota.
    destruct (H !! q) as [[qs | es] |] eqn:Hq; try discriminate;
      eexists _, _; (split; [reflexivity |]);
      [reflexivity | rewrite Hq; exact Hok].
  - unfold bind at 1, keys at 1.
    destruct (Nat.eqb (length (own_props H schemas).*1) 1).
    + unfold bind, alloc, ret. eexists _, _. split; reflexivity.
    + unfold ret. eexists _, _. split; reflexivity.
Qed.

Lemma queries_ok_frame (h h' : heap) q :
  (forall l o, h !! l = Some o -> h' !! l = Some o) ->
  queries_ok h q = true -> queries_ok h' q = true.
Proof.
  intros Hframe. unfold queries_ok.
  destruct q as [| | | | | l |]; auto.
  destruct (h !! l) as [o |] eqn:Hl; [| discriminate].
  rewrite (Hframe _ _ Hl). auto.
Qed.

Lemma loadConfig_succeeds (h : heap) l ps configFile configDir de ds :
  h !! l = Some (OObj ps) ->
  services_ok h (object_member ps "services") = true ->
  queries_ok h (object_member ps "queries") = true ->
  exists c h',
    loadConfig (VRef l) configFile configDir de ds h = (Ok (VRef c), h').
Proof.
  intros Hl Hservices Hqueries. unfold Load.loadConfig.
  destruct (getSchemasFromServices_succeeds h l ps de ds Hl Hservices)
    as (h1 & sps & Hrun1 & _ & Hframe).
  rewrite (bind_Ok _ _ _ _ _ Hrun1).
  destruct (documentSets_succeeds h1 l ps (VRef (length h))
              (Hframe _ _ Hl) (queries_ok_frame _ _ _ Hframe Hqueries))
    as (sets & h2 & Hrun2 & Hreadable).
  rewrite (bind_Ok _ _ _ _ _ Hrun2).
  destruct (map_loadDocumentSet_succeeds sets Hreadable h2)
    as (loaded & h3 & Hrun3).
  rewrite (bind_Ok _ _ _ _ _ Hrun3).
  unfold bind at 1, alloc at 1.
  destruct (get_readable (VRef l) "engineEndpoint" (h3 ++ [OArr loaded])
              eq_refl) as [ee Hee].
  rewrite (bind_Ok _ _ _ _ _ Hee).
  unfold alloc. eauto.
Qed.

Lemma services_ok_fresh_empty (h : heap) v :
  services_ok (h ++ [OObj []]) v = services_ok h v.
Proof.
  unfold services_ok. f_equal.
  destruct v as [| | c | n | s | l' | p]; try reflexivity.
  unfold own_props.
  destruct (decide (l' < length h)) as [Hlt | Hge].
  - rewrite lookup_app_l by exact Hlt. reflexivity.
  - rewrite lookup_app_r by lia. rewrite (lookup_ge_None_2 h) by lia.
    destruct (l' - length h) as [| n]; reflexivity.
Qed.

(** With a [services] that cannot be used, the expansion throws. *)
Lemma serviceEntry_fails (H : heap) l ps sl :
  H !! l = Some (OObj ps) ->
  services_ok H (object_member ps "services") = false ->
  exists msg,
    serviceEntry ENGINE_API_KEY existsSync (VRef l) (VRef sl) H
    = (Throw (TypeError msg), H).
Proof.
  intros Hl Hok. unfold serviceEntry.
  unfold bind at 1, get at 1. rewrite Hl.
  unfold services_ok in Hok.
  destruct (truthy (object_member ps "services")); [| discriminate].
  cbn [negb orb] in Hok.
  unfold bind at 1, entries at 1.
  destruct (own_props H (object_member ps "services"))
    as [| [serviceName [| | c | n | ref | r | p]] rest];
    try discriminate; unfold throw, bind, isUrl; eauto.
Qed.

(** *** What the steps write *)

Lemma serviceEntry_none (H : heap) l ps schemas :
  H !! l = Some (OObj ps) ->
  truthy (object_member ps "services") = false ->
  serviceEntry ENGINE_API_KEY existsSync (VRef l) schemas H = (Ok tt, H).
Proof.
  intros Hl Hs. unfold serviceEntry, bind, get. rewrite Hl, Hs.
  reflexivity.
Qed.

(** The dependency built for the first entry of [services]. *)
Lemma serviceEntry_dependency (H : heap) l ps sl sps serviceName ref rest :
  H !! l = Some (OObj ps) ->
  H !! sl = Some (OObj sps) ->
  truthy (object_member ps "services") = true ->
  own_props H (object_member ps "services")
  = (serviceName, VStr ref) :: rest ->
  exists H' sps' dl endpoint,
    serviceEntry ENGINE_API_KEY existsSync (VRef l) (VRef sl) H
    = (Ok tt, H') /\
    H' !! sl = Some (OObj sps') /\
    (serviceName <> "__proto__" -> assoc serviceName sps' = Some (VRef dl)) /\
    H' !! dl =
    Some (OObj [("endpoint", endpoint);
                ("engineKey", env_ENGINE_API_KEY ENGINE_API_KEY);
                ("clientSide", VBool false);
                ("schema",
                 if negb (Str.occurs "http" ref) && existsSync ref
                 then VStr ref else VNull)]).
Proof.
  intros Hl Hsl Hs Hes. unfold serviceEntry.
  unfold bind at 1, get at 1. rewrite Hl, Hs.
  unfold bind at 1, entries at 1. rewrite Hes.
  unfold bind at 1, isUrl at 1, ret at 1.
  destruct (Str.occurs "http" ref) eqn:Hu.
  - rewrite (bind_Ok _ _ _ _ _ (loadEndpointConfig_string ref true H)).
    rewrite (bind_Ok _ _ _ _ _ (isFile_string ref _)).
    match goal with
    | |- context [bind (alloc ?o) (fun dep => set (VRef sl) ?k dep) (H ++ ?news)] =>
        destruct (allocate_and_assign H news sl sps k o Hsl)
          as (H' & sps' & Hset & Hsl' & Hk & Hdep & _)
    end.
    eexists H', sps', _, _.
    split; [exact Hset |]. split; [exact Hsl' |]. split; [exact Hk |].
    rewrite Hu in Hdep. exact Hdep.
  - unfold bind at 1, ret at 1.
    rewrite (bind_Ok _ _ _ _ _ (isFile_string ref _)).
    match goal with
    | |- context [bind (alloc ?o) (fun dep => set (VRef sl) ?k dep) H] =>
        destruct (allocate_and_assign_here H sl sps k o Hsl)
          as (H' & sps' & Hset & Hsl' & Hk & Hdep & _)
    end.
    eexists H', sps', _, _.
    split; [exact Hset |]. split; [exact Hsl' |]. split; [exact Hk |].
    rewrite Hu in Hdep. exact Hdep.
Qed.

Lemma defaultEntry_fresh (h : heap) de :
  defaultEntry ENGINE_API_KEY (VRef (length h)) de true (h ++ [OObj []]) =
  (Ok tt,
   if de then
     h ++ [OObj [("default", VRef (length h + 3))]; OObj [];
           default_endpoint; synthesized (VRef (length h + 2))]
   else
     h ++ [OObj [("default", VRef (length h + 2))]; OObj [];
           synthesized VUndefined]).
Proof.
  unfold defaultEntry.
  rewrite (bind_Ok _ _ _ _ _ (keys_first [] h [OObj []] eq_refl)).
  cbn [fmap list_fmap fst length Nat.eqb andb].
  js_step.
  pose proof (loadSchemaConfig_empty (length h + 1) de
                (h ++ [OObj []; OObj []])) as Hdflt.
  rewrite lookup_new in Hdflt. specialize (Hdflt eq_refl).
  destruct de; rewrite (bind_Ok _ _ _ _ _ Hdflt); js_norm.
  - erewrite set_first by reflexivity.
    cbn [app length Nat.add insert list_insert].
    replace (S (length h + 2)) with (length h + 3) by lia. reflexivity.
  - erewrite set_first by reflexivity. reflexivity.
Qed.

(** [schemas.default = { schema, clientSide: true, extends }]. *)
Lemma clientSchemaEntry_assigns (h news : heap) l ps sps :
  h !! l = Some (OObj ps) ->
  news !! 0 = Some (OObj sps) ->
  truthy (object_member ps "clientSchema") = true ->
  clientSchemaEntry (VRef l) (VRef (length h)) (h ++ news) =
  (Ok tt,
   h ++ <[0 := OObj (assoc_set "default" (VRef (length h + length news)) sps)]>
          (news ++ [client_dependency (object_member ps "clientSchema")
                      (first_key sps.*1)])).
Proof.
  intros Hl Hi Hc. unfold clientSchemaEntry.
  rewrite (bind_Ok _ _ _ _ _ (get_old l "clientSchema" ps h news Hl)).
  rewrite Hc.
  rewrite (bind_Ok _ _ _ _ _ (get_old l "clientSchema" ps h news Hl)).
  rewrite (bind_Ok _ _ _ _ _ (keys_first sps h news Hi)).
  rewrite (bind_Ok _ _ _ _ _ (alloc_ext _ h news)).
  apply set_first; [| reflexivity].
  apply lookup_app_l_Some. exact Hi.
Qed.

Lemma clientSchemaEntry_none (H : heap) l ps schemas :
  H !! l = Some (OObj ps) ->
  truthy (object_member ps "clientSchema") = false ->
  clientSchemaEntry (VRef l) schemas H = (Ok tt, H).
Proof.
  intros Hl Hc. unfold clientSchemaEntry, bind, get. rewrite Hl, Hc.
  reflexivity.
Qed.

(** *** Two runs of [getSchemasFromServices] without [services] *)

Lemma getSchemasFromServices_default (h : heap) l ps de :
  h !! l = Some (OObj ps) ->
  truthy (object_member ps "services") = false ->
  truthy (object_member ps "clientSchema") = false ->
  getSchemasFromServices (VRef l) de true h =
  (Ok (VRef (length h)),
   if de then
     h ++ [OObj [("default", VRef (length h + 3))]; OObj [];
           default_endpoint; synthesized (VRef (length h + 2))]
   else
     h ++ [OObj [("default", VRef (length h + 2))]; OObj [];
           synthesized VUndefined]).
Proof.
  intros Hl Hs Hc. unfold Load.getSchemasFromServices.
  unfold bind at 1, alloc at 1.
  pose proof (lookup_app_l_Some _ [OObj []] _ _ Hl) as Hl0.
  rewrite (bind_Ok _ _ _ _ _ (serviceEntry_none _ l ps _ Hl0 Hs)).
  rewrite (bind_Ok _ _ _ _ _ (defaultEntry_fresh h de)).
  destruct de.
  - erewrite bind_Ok
      by (apply (clientSchemaEntry_none _ l ps);
          [apply lookup_app_l_Some; exact Hl | exact Hc]).
    reflexivity.
  - erewrite bind_Ok
      by (apply (clientSchemaEntry_none _ l ps);
          [apply lookup_app_l_Some; exact Hl | exact Hc]).
    reflexivity.
Qed.

Lemma getSchemasFromServices_client (h : heap) l ps de :
  h !! l = Some (OObj ps) ->
  truthy (object_member ps "services") = false ->
  truthy (object_member ps "clientSchema") = true ->
  getSchemasFromServices (VRef l) de true h =
  (Ok (VRef (length h)),
   if de then
     h ++ [OObj [("default", VRef (length h + 4))]; OObj [];
           default_endpoint; synthesized (VRef (length h + 2));
           client_dependency (object_member ps "clientSchema")
             (VStr "default")]
   else
     h ++ [OObj [("default", VRef (length h + 3))]; OObj [];
           synthesized VUndefined;
           client_dependency (object_member ps "clientSchema")
             (VStr "default")]).
Proof.
  intros Hl Hs Hc. unfold Load.getSchemasFromServices.
  unfold bind at 1, alloc at 1.
  pose proof (lookup_app_l_Some _ [OObj []] _ _ Hl) as Hl0.
  rewrite (bind_Ok _ _ _ _ _ (serviceEntry_none _ l ps _ Hl0 Hs)).
  rewrite (bind_Ok _ _ _ _ _ (defaultEntry_fresh h de)).
  destruct de.
  - erewrite bind_Ok
      by (apply clientSchemaEntry_assigns;
          [exact Hl | reflexivity | exact Hc]).
    reflexivity.
  - erewrite bind_Ok
      by (apply clientSchemaEntry_assigns;
          [exact Hl | reflexivity | exact Hc]).
    reflexivity.
Qed.

End Facts.

End LoadFacts.
(** * Properties of the resolvers *)

Module ResolveFacts.
Import Js Resolve Walk.
Local Open Scope resolve_scope.

Lemma bind_Returned {A B} (m : R A) (k : A -> R B) t b t' :
  bind m k t = (Returned b, t') ->
  exists a t1, m t = (Returned a, t1) /\ k a t1 = (Returned b, t').
Proof.
  unfold bind. destruct (m t) as [[a | e |] t1]; intros H; try discriminate.
  exists a, t1. split; [reflexivity | exact H].
Qed.

Lemma bind_not_OutOfFuel {A B} (m : R A) (k : A -> R B) t :
  (bind m k t).1 <> OutOfFuel ->
  (m t).1 <> OutOfFuel.
Proof.
  unfold bind. destruct (m t) as [[a | e |] t1]; simpl; congruence.
Qed.

Lemma call_not_OutOfFuel {A} e (r : result A) t :
  (call e r t).1 <> OutOfFuel.
Proof. destruct r; simpl; discriminate. Qed.

Section Facts.

Variables Schema Introspection : Type.
Variable loadQueryDocuments : list (option string) -> result (list Node).
Variable extendSchema : option Schema -> option Node -> result Schema.
Variable buildASTSchema : option Node -> result Schema.
Variable buildClientSchema : Introspection -> result Schema.
Variable loadSchema :
  SchemaDependency -> ApolloConfig -> option string ->
  result (option Introspection).
Variable globSync : string -> string -> result (list string).
Variable minimatch : string -> string -> bool.
Variable relative : string -> string -> string.
Variable array_limit : N.

#[local] Abbreviation resolveSchema :=
  (resolveSchema Schema Introspection loadQueryDocuments extendSchema
     buildASTSchema buildClientSchema loadSchema).
#[local] Abbreviation resolveDocumentSet :=
  (resolveDocumentSet Schema Introspection loadQueryDocuments extendSchema
     buildASTSchema buildClientSchema loadSchema globSync minimatch
     relative array_limit).
#[local] Abbreviation resolveEach :=
  (resolveEach Schema Introspection loadQueryDocuments extendSchema
     buildASTSchema buildClientSchema loadSchema globSync minimatch
     relative array_limit).
#[local] Abbreviation resolveDocumentSets :=
  (resolveDocumentSets Schema Introspection loadQueryDocuments extendSchema
     buildASTSchema buildClientSchema loadSchema globSync minimatch
     relative array_limit).
#[local] Abbreviation loadAsAST := (loadAsAST loadQueryDocuments).
#[local] Abbreviation expandIncludes := (expandIncludes globSync).
#[local] Abbreviation kept := (kept minimatch relative).
#[local] Abbreviation push := (push array_limit).
#[local] Abbreviation collectSchemaPaths :=
  (collectSchemaPaths array_limit).

(** *** Unknown names *)

Lemma lookup_schema_None config key :
  default ∅ (schemas config) !! key = None ->
  mem key object_prototype_names = false ->
  lookup_schema config key = None.
Proof. unfold lookup_schema. intros -> ->. reflexivity. Qed.

Lemma resolveSchema_unknown fuel name config tag t :
  lookup_schema config name = None ->
  resolveSchema (S fuel) name config tag t =
  (Thrown (TypeError "Cannot read property 'extends' of undefined"), t).
Proof. intros H. simpl. rewrite H. reflexivity. Qed.

Lemma resolveSchema_unknown_not_Returned fuel name config tag t :
  lookup_schema config name = None ->
  forall s t', resolveSchema fuel name config tag t <> (Returned s, t').
Proof.
  intros H s t'. destruct fuel as [| fuel].
  - discriminate.
  - rewrite resolveSchema_unknown by exact H. discriminate.
Qed.

(** *** What a resolved set is made of *)

Lemma push_trace acc p t : (push acc p t).2 = t.
Proof.
  unfold Resolve.push.
  destruct (N.of_nat (length acc) <? array_limit)%N; reflexivity.
Qed.

Lemma collectSchemaPaths_trace fuel config cur acc t :
  (collectSchemaPaths fuel config cur acc t).2 = t.
Proof.
  revert cur acc. induction fuel as [| fuel IH]; intros [cur |] acc;
    cbn [Resolve.collectSchemaPaths]; try reflexivity.
  unfold bind at 1.
  destruct (truthy_str (dep_schema cur)) as [p |].
  - pose proof (push_trace acc p t) as Hp.
    destruct (push acc p t) as [[acc' | e |] t1]; simpl in Hp; subst t1;
      [apply IH | reflexivity | reflexivity].
  - apply IH.
Qed.

(** The list the loop returns: what it started with, then the schema
    files along the loop. *)
Lemma collectSchemaPaths_files fuel :
  forall config cur acc t paths t',
    collectSchemaPaths fuel config cur acc t = (Returned paths, t') ->
    exists files, schema_files config cur files /\ paths = acc ++ files.
Proof.
  induction fuel as [| fuel IH]; intros config [cur |] acc t paths t' H.
  - discriminate.
  - injection H as <- _. exists []. rewrite app_nil_r.
    split; [constructor | reflexivity].
  - cbn [Resolve.collectSchemaPaths] in H.
    apply bind_Returned in H as (acc' & t1 & Hpush & H).
    apply IH in H as (files & Hfiles & ->).
    pose proof (schema_files_round config cur files Hfiles) as Hround.
    destruct (truthy_str (dep_schema cur)) as [p |].
    + unfold Resolve.push in Hpush.
      destruct (N.of_nat (length acc) <? array_limit)%N; [| discriminate].
      injection Hpush as <- _. exists (p :: files).
      split; [exact Hround |]. rewrite <- app_assoc. reflexivity.
    + injection Hpush as <- _. exists files. split; [exact Hround | auto].
  - injection H as <- _. exists []. rewrite app_nil_r.
    split; [constructor | reflexivity].
Qed.

Lemma expandIncludes_Returned cwd patterns t found t' :
  expandIncludes cwd patterns t = (Returned found, t') ->
  exists expansions,
    Forall2 (fun i fs => globSync i cwd = Ok fs) patterns expansions /\
    found = concat expansions.
Proof.
  revert t found t'. induction patterns as [| i rest IH]; intros t found t' H.
  - injection H as <- _. exists []. split; [constructor | reflexivity].
  - simpl in H.
    apply bind_Returned in H as (fs & t1 & Hcall & H).
    apply bind_Returned in H as (more & t2 & Hrest & H).
    injection H as <- _.
    apply IH in Hrest as (expansions & Hall & ->).
    exists (fs :: expansions). split; [| reflexivity].
    constructor; [| exact Hall].
    unfold call in Hcall. destruct (globSync i cwd); [| discriminate].
    injection Hcall as -> _. reflexivity.
Qed.

(** When every pattern can be expanded, the expansions are put
    together, one call of the collaborator per pattern. *)
Lemma expandIncludes_run cwd patterns expansions :
  Forall2 (fun i fs => globSync i cwd = Ok fs) patterns expansions ->
  forall t,
    expandIncludes cwd patterns t =
    (Returned (concat expansions),
     t ++ map (fun i => EvGlobSync i cwd) patterns).
Proof.
  induction 1 as [| i fs rest more Hi _ IH]; intros t.
  - cbn. rewrite app_nil_r. reflexivity.
  - cbn [Resolve.expandIncludes]. unfold bind at 1, call at 1.
    rewrite Hi. unfold bind at 1. rewrite IH.
    cbn [concat map]. rewrite <- app_assoc. reflexivity.
Qed.

Lemma expandIncludes_trace cwd patterns t :
  exists evs,
    (expandIncludes cwd patterns t).2 = t ++ evs /\
    Forall (fun e => schema_event e = false) evs.
Proof.
  revert t. induction patterns as [| i rest IH]; intros t.
  - exists []. simpl. rewrite app_nil_r. split; [reflexivity | constructor].
  - simpl. unfold bind at 1, call.
    destruct (globSync i cwd) as [fs | err].
    + destruct (IH (t ++ [EvGlobSync i cwd])) as (evs & Hevs & Hall).
      exists (EvGlobSync i cwd :: evs). split.
      * unfold bind.
        destruct (expandIncludes cwd rest (t ++ [EvGlobSync i cwd]))
          as [[more | e |] t1]; simpl in *; subst t1;
          rewrite <- app_assoc; reflexivity.
      * constructor; [reflexivity | exact Hall].
    + exists [EvGlobSync i cwd]. split; [reflexivity |].
      constructor; [reflexivity | constructor].
Qed.

Lemma resolveDocumentSet_Returned
  fuel stack config needSchema tag doc t r t' :
  resolveDocumentSet fuel stack config needSchema tag doc t
  = (Returned r, t') ->
  originalSet r = doc /\
  res_endpoint r = referred config doc ≫= dep_endpoint /\
  res_engineKey r = referred config doc ≫= dep_engineKey /\
  (needSchema = false -> res_schema r = None) /\
  (forall n, needSchema = true -> truthy_str (doc_schema doc) = Some n ->
             exists t1 t2,
               resolveSchema stack n config (pass_tag tag) t1 =
               (Returned (res_schema r), t2)) /\
  exists schemaPaths expansions,
    schema_files config (start config doc) schemaPaths /\
    Forall2 (fun i fs => globSync i (projectFolder config) = Ok fs)
            (includes doc) expansions /\
    documentPaths r =
    filter (fun f => kept (projectFolder config)
                          (excludes doc ++ schemaPaths) f = true)
           (concat expansions).
Proof.
  unfold resolveDocumentSet. intros H.
  apply bind_Returned in H as (schemaPaths & t1 & Hloop & H).
  apply bind_Returned in H as (schema & t2 & Hschema & H).
  apply bind_Returned in H as (found & t3 & Hfound & H).
  injection H as <- _. simpl.
  apply expandIncludes_Returned in Hfound as (expansions & Hall & ->).
  apply collectSchemaPaths_files in Hloop as (files & Hfiles & ->).
  repeat split.
  - intros ->. simpl in Hschema. injection Hschema as <- _. reflexivity.
  - intros n -> Hn. rewrite Hn in Hschema. eauto.
  - exists files, expansions.
    split; [exact Hfiles |]. split; [exact Hall | reflexivity].
Qed.

Lemma resolveEach_Returned fuel stack config needSchema tag docs t rs t' :
  resolveEach fuel stack config needSchema tag docs t = (Returned rs, t') ->
  Forall2 (fun doc r => exists t1 t2,
             resolveDocumentSet fuel stack config needSchema tag doc t1 =
             (Returned r, t2)) docs rs.
Proof.
  revert t rs t'. induction docs as [| doc rest IH]; intros t rs t' H.
  - injection H as <- _. constructor.
  - simpl in H.
    apply bind_Returned in H as (r & t1 & Hr & H).
    apply bind_Returned in H as (rs' & t2 & Hrs & H).
    injection H as <- _.
    constructor; [eauto | eapply IH; exact Hrs].
Qed.

Lemma resolveDocumentSet_trace fuel stack config tag doc t :
  exists evs,
    (resolveDocumentSet fuel stack config false tag doc t).2 = t ++ evs /\
    Forall (fun e => schema_event e = false) evs.
Proof.
  unfold resolveDocumentSet.
  pose proof (collectSchemaPaths_trace fuel config
                (lookup_schema config (key_of (doc_schema doc))) [] t) as Hc.
  unfold bind at 1.
  destruct (collectSchemaPaths fuel config _ [] t) as [[paths | e |] t1];
    simpl in Hc; subst t1;
    try (exists []; rewrite app_nil_r; split; [reflexivity | constructor]).
  unfold bind at 1. simpl.
  destruct (expandIncludes_trace (projectFolder config) (includes doc) t)
    as (evs & Hevs & Hall).
  exists evs. split; [| exact Hall].
  unfold bind.
  destruct (expandIncludes (projectFolder config) (includes doc) t)
    as [[found | e |] t1]; simpl in *; exact Hevs.
Qed.

Lemma resolveEach_trace fuel stack config tag docs t :
  exists evs,
    (resolveEach fuel stack config false tag docs t).2 = t ++ evs /\
    Forall (fun e => schema_event e = false) evs.
Proof.
  revert t. induction docs as [| doc rest IH]; intros t.
  - exists []. simpl. rewrite app_nil_r. split; [reflexivity | constructor].
  - simpl.
    destruct (resolveDocumentSet_trace fuel stack config tag doc t)
      as (evs1 & H1 & Hall1).
    unfold bind at 1.
    destruct (resolveDocumentSet fuel stack config false tag doc t)
      as [[r | e |] t1]; simpl in H1; subst t1;
      try (exists evs1; split; [reflexivity | exact Hall1]).
    destruct (IH (t ++ evs1)) as (evs2 & H2 & Hall2).
    exists (evs1 ++ evs2). split.
    + unfold bind.
      destruct (resolveEach fuel stack config false tag rest (t ++ evs1))
        as [[rs | e |] t2]; simpl in *; subst t2;
        rewrite app_assoc; reflexivity.
    + apply Forall_app. split; assumption.
Qed.

(** *** Termination and the [extends] chain *)

Lemma loadAsAST_not_OutOfFuel d t :
  (loadAsAST d t).1 <> OutOfFuel.
Proof.
  unfold loadAsAST, bind, call.
  destruct (loadQueryDocuments [dep_schema d]); simpl;
    [destruct (truthy_flag (clientSide d)) |]; simpl; discriminate.
Qed.

(** [resolveSchema] always finishes: the stack is finite. *)
Lemma resolveSchema_not_OutOfFuel stack :
  forall name config tag t,
    (resolveSchema stack name config tag t).1 <> OutOfFuel.
Proof.
  induction stack as [| stack IH]; intros name config tag t;
    cbn [Resolve.resolveSchema]; [discriminate |].
  destruct (lookup_schema config name) as [d |]; [| discriminate].
  destruct (truthy_str (extends d)) as [base |].
  - specialize (IH base config (pass_tag tag) t).
    unfold bind at 1.
    destruct (resolveSchema stack base config (pass_tag tag) t)
      as [[s | e |] t1]; simpl in *; try congruence.
    unfold bind.
    pose proof (loadAsAST_not_OutOfFuel d t1) as Hast.
    destruct (loadAsAST d t1) as [[ast | e |] t2]; simpl in *;
      try congruence.
    unfold call. destruct (extendSchema s ast); simpl; discriminate.
  - destruct (truthy_flag (clientSide d)).
    + unfold bind.
      pose proof (loadAsAST_not_OutOfFuel d t) as Hast.
      destruct (loadAsAST d t) as [[ast | e |] t1]; simpl in *;
        try congruence.
      unfold call. destruct (buildASTSchema ast); simpl; discriminate.
    + unfold bind, call.
      destruct (loadSchema d config (pass_tag tag)) as [[i |] | e]; simpl;
        try discriminate.
      destruct (buildClientSchema i); simpl; discriminate.
Qed.

(** A chain that ends within the stack: how much more room the stack
    has makes no difference. *)
Lemma resolveSchema_stack config name k :
  chain_ends config name k ->
  forall s1 s2 tag t, k < s1 -> k < s2 ->
    resolveSchema s1 name config tag t = resolveSchema s2 name config tag t.
Proof.
  induction 1 as [name Hnone | name d Hd Hext | name d base k Hd Hext _ IH];
    intros s1 s2 tag t H1 H2;
    destruct s1 as [| s1]; try lia; destruct s2 as [| s2]; try lia;
    cbn [Resolve.resolveSchema]; rewrite ?Hnone, ?Hd, ?Hext;
    try reflexivity.
  unfold bind at 1 3.
  rewrite (IH s1 s2 (pass_tag tag) t) by lia. reflexivity.
Qed.

(** A chain that does not end within the stack overflows it, before
    anything is called. *)
Lemma resolveSchema_overflow stack :
  forall name config tag t,
    (forall k, chain_ends config name k -> stack <= k) ->
    resolveSchema stack name config tag t =
    (Thrown (RangeError "Maximum call stack size exceeded"), t).
Proof.
  induction stack as [| stack IH]; intros name config tag t Hlong;
    cbn [Resolve.resolveSchema]; [reflexivity |].
  destruct (lookup_schema config name) as [d |] eqn:Hd.
  2:{ specialize (Hlong 0 (chain_unknown _ _ Hd)). lia. }
  destruct (truthy_str (extends d)) as [base |] eqn:Hext.
  2:{ specialize (Hlong 0 (chain_terminal _ _ _ Hd Hext)). lia. }
  unfold bind at 1. rewrite IH; [reflexivity |].
  intros k Hk. specialize (Hlong (S k) (chain_hop _ _ _ _ _ Hd Hext Hk)).
  lia.
Qed.

Lemma chain_ends_hops config n name target :
  hops config n name target ->
  forall k, chain_ends config name k ->
    n <= k /\ chain_ends config target (k - n).
Proof.
  induction 1 as [name | n name d base target Hd Hext _ IH]; intros k Hk.
  - rewrite Nat.sub_0_r. split; [lia | exact Hk].
  - inversion Hk as [? Hnone | ? d' Hd' Hext' | ? d' base' k' Hd' Hext' Hk'];
      subst; try congruence.
    assert (d' = d) as -> by congruence.
    assert (base' = base) as -> by congruence.
    destruct (IH _ Hk') as [Hle Hend]. split; [lia | exact Hend].
Qed.

Lemma cycle_never_ends config n name :
  hops config (S n) name name ->
  forall k, ~ chain_ends config name k.
Proof.
  intros Hcycle k. induction k as [k IH] using lt_wf_ind. intros Hk.
  destruct (chain_ends_hops _ _ _ _ Hcycle _ Hk) as [Hle Hend].
  apply (IH (k - S n)); [lia | exact Hend].
Qed.

(** *** A document set that names no schema of the configuration *)

Lemma resolveDocumentSet_dangling fuel stack config tag doc t found t' :
  start config doc = None ->
  expandIncludes (projectFolder config) (includes doc) t
  = (Returned found, t') ->
  resolveDocumentSet fuel stack config false tag doc t =
  (Returned {| res_schema := None; res_endpoint := None;
               res_engineKey := None;
               documentPaths :=
                 filter (fun f => kept (projectFolder config)
                                    (excludes doc) f = true) found;
               originalSet := doc |}, t').
Proof.
  unfold start. intros Hstart Hfound. unfold Resolve.resolveDocumentSet.
  rewrite Hstart. unfold bind at 1.
  replace (collectSchemaPaths fuel config None [] t)
    with (Returned (@nil string), t) by (destruct fuel; reflexivity).
  unfold bind at 1, ret at 1. unfold bind at 1. rewrite Hfound.
  assert (referred config doc = None) as ->.
  { unfold referred, truthy_str. unfold key_of in Hstart.
    destruct (doc_schema doc) as [n |]; [| reflexivity].
    destruct (String.eqb n EmptyString); [reflexivity | exact Hstart]. }
  rewrite app_nil_r. reflexivity.
Qed.

End Facts.

End ResolveFacts.

(** * The normalizers against their specification *)

Module LoadClaims.
Import Js Load LoadFacts.

Section Claims.

Variable ENGINE_API_KEY : option string.
Variable existsSync : string -> bool.
Variable basename : string -> string.

#[local] Abbreviation loadSchemaConfig := (loadSchemaConfig ENGINE_API_KEY).
#[local] Abbreviation serviceEntry :=
  (serviceEntry ENGINE_API_KEY existsSync).
#[local] Abbreviation getSchemasFromServices :=
  (getSchemasFromServices ENGINE_API_KEY existsSync).
#[local] Abbreviation loadConfig :=
  (loadConfig ENGINE_API_KEY existsSync basename).
#[local] Abbreviation synthesized := (synthesized ENGINE_API_KEY).

(** C3, as the code has it. A bare string given as [queries] is wrapped
    into a list and normalized as if it were a document set: its
    [schema] and [excludes] members are undefined, and its [includes]
    member is the [includes] method every string has, so that method, not
    a list holding the string, ends up in [includes]. The promotion of a
    string to a one-element list is what happens to the [includes] member
    of a document set. Neither depends on the schemas. *)
Theorem C3_queries_string_is_not_promoted
  (s configFile configDir : string) (defaultEndpoint defaultSchema : bool) :
  s <> EmptyString ->
  member_snapshot 3
    (loadConfig (VRef 0) configFile configDir defaultEndpoint defaultSchema
       [OObj [("queries", VStr s)]])
    "queries"
  = Some (TArr [TObj [("schema", TUndefined);
                      ("includes", TBuiltin "String.prototype.includes");
                      ("excludes", TArr [TStr "node_modules/**"])]])
  /\ member_snapshot 3
       (loadConfig (VRef 0) configFile configDir defaultEndpoint
          defaultSchema
          [OObj [("queries", VRef 1)]; OObj [("includes", VStr s)]])
       "queries"
     = Some (TArr [TObj [("schema", TUndefined);
                         ("includes", TArr [TStr s]);
                         ("excludes", TArr [TStr "node_modules/**"])]]).
Proof.
  intros Hs. destruct s as [| c s]; [contradiction |].
  destruct defaultEndpoint, defaultSchema, ENGINE_API_KEY as [[| k ks] |];
    split; vm_compute; reflexivity.
Qed.

(** C6, as the code has it. In [loadSchemaConfig] an [ENGINE_API_KEY]
    that is set to a non-empty string replaces the engine key of the raw
    value; when it is not set, or set to the empty string, the raw value
    keeps its own. The dependency built for an entry of [services] gets
    [ENGINE_API_KEY] as it is. *)
Theorem C6_engineKey_from_environment :
  (forall (h : heap) l ps defaultEndpoint,
      h !! l = Some (OObj ps) ->
      endpoint_ok h (object_member ps "endpoint") = true ->
      exists r h' rps,
        loadSchemaConfig (VRef l) defaultEndpoint h = (Ok (VRef r), h') /\
        h' !! r = Some (OObj rps) /\
        assoc "engineKey" rps =
        Some match ENGINE_API_KEY with
             | Some k => if String.eqb k EmptyString then object_member ps "engineKey"
                         else VStr k
             | None => object_member ps "engineKey"
             end)
  /\ (forall (h : heap) l ps sl sps serviceName ref rest,
         h !! l = Some (OObj ps) ->
         h !! sl = Some (OObj sps) ->
         truthy (object_member ps "services") = true ->
         own_props h (object_member ps "services")
         = (serviceName, VStr ref) :: rest ->
         exists h' sps' dl dps,
           serviceEntry (VRef l) (VRef sl) h = (Ok tt, h') /\
           h' !! sl = Some (OObj sps') /\
           (serviceName <> "__proto__" ->
            assoc serviceName sps' = Some (VRef dl)) /\
           h' !! dl = Some (OObj dps) /\
           assoc "engineKey" dps =
           Some match ENGINE_API_KEY with
                | Some k => VStr k
                | None => VUndefined
                end).
Proof.
  split.
  - intros h l ps de Hl Hok.
    rewrite (loadSchemaConfig_object _ _ _ _ _ Hl).
    destruct (loadEndpointConfig_succeeds _
                (negb (truthy (object_member ps "engineKey")) && de) _ Hok)
      as (e & h1 & ->).
    eexists _, _, _. split; [reflexivity |].
    split; [apply list_lookup_middle; reflexivity |].
    unfold spread_with. rewrite assoc_set_eq. f_equal.
    unfold or_else, env_ENGINE_API_KEY.
    destruct ENGINE_API_KEY as [k |]; [| reflexivity].
    cbn [truthy]. destruct (String.eqb k EmptyString); reflexivity.
  - intros h l ps sl sps serviceName ref rest Hl Hsl Hs Hes.
    destruct (serviceEntry_dependency ENGINE_API_KEY existsSync
                h l ps sl sps serviceName ref rest Hl Hsl Hs Hes)
      as (h' & sps' & dl & endpoint & Hrun & Hsl' & Hk & Hdl).
    eexists h', sps', dl, _.
    split; [exact Hrun |]. split; [exact Hsl' |]. split; [exact Hk |].
    split; [exact Hdl |]. reflexivity.
Qed.

(** C8, as the code has it. The normalizers validate nothing, so they go
    through on the inputs whose members they can use, and throw a
    TypeError on the others. [loadEndpointConfig] needs the [url] of an
    object without [subscriptions] to be a string when it is truthy;
    [loadSchemaConfig] needs that of the endpoint of its object;
    [loadDocumentSet] needs a value that is neither [undefined] nor
    [null]; [getSchemasFromServices] needs [services], when given, to
    start with an entry whose value is a string; [loadConfig] needs that
    too, and every entry of [queries] to be neither [undefined] nor
    [null]. A [services] that is given but unusable, the empty mapping for
    one, makes both throw. *)
Theorem C8_normalizers_succeed_on_usable_input :
  (forall v b (h : heap),
      endpoint_ok h v = true ->
      exists e h', loadEndpointConfig v b h = (Ok e, h'))
  /\ (forall (h : heap) l ps defaultEndpoint,
         h !! l = Some (OObj ps) ->
         endpoint_ok h (object_member ps "endpoint") = true ->
         exists r h', loadSchemaConfig (VRef l) defaultEndpoint h = (Ok r, h'))
  /\ (forall d (h : heap),
         readable d = true ->
         exists v h', loadDocumentSet d h = (Ok v, h'))
  /\ (forall (h : heap) l ps defaultEndpoint defaultSchema,
         h !! l = Some (OObj ps) ->
         services_ok h (object_member ps "services") = true ->
         exists s h',
           getSchemasFromServices (VRef l) defaultEndpoint defaultSchema h
           = (Ok s, h'))
  /\ (forall (h : heap) l ps configFile configDir defaultEndpoint
             defaultSchema,
         h !! l = Some (OObj ps) ->
         services_ok h (object_member ps "services") = true ->
         queries_ok h (object_member ps "queries") = true ->
         exists c h',
           loadConfig (VRef l) configFile configDir defaultEndpoint
             defaultSchema h
           = (Ok c, h'))
  /\ (forall (h : heap) l ps configFile configDir defaultEndpoint
             defaultSchema,
         h !! l = Some (OObj ps) ->
         services_ok h (object_member ps "services") = false ->
         exists msg h',
           getSchemasFromServices (VRef l) defaultEndpoint defaultSchema h
           = (Throw (TypeError msg), h') /\
           loadConfig (VRef l) configFile configDir defaultEndpoint
             defaultSchema h
           = (Throw (TypeError msg), h')).
Proof.
  split; [exact loadEndpointConfig_succeeds |].
  split.
  { intros h l ps de Hl Hok.
    rewrite (loadSchemaConfig_object _ _ _ _ _ Hl).
    destruct (loadEndpointConfig_succeeds _
                (negb (truthy (object_member ps "engineKey")) && de) _ Hok)
      as (e & h1 & ->).
    eauto. }
  split; [exact loadDocumentSet_succeeds |].
  split.
  { intros h l ps de ds Hl Hok.
    destruct (getSchemasFromServices_succeeds ENGINE_API_KEY existsSync
                h l ps de ds Hl Hok) as (h' & sps & Hrun & _).
    eauto. }
  split.
  { intros h l ps cf cd de ds Hl Hs Hq.
    destruct (loadConfig_succeeds ENGINE_API_KEY existsSync basename
                h l ps cf cd de ds Hl Hs Hq) as (c & h' & Hrun).
    eauto. }
  intros h l ps cf cd de ds Hl Hok.
  pose proof (services_ok_fresh_empty h (object_member ps "services"))
    as Hok'.
  rewrite Hok in Hok'.
  destruct (serviceEntry_fails ENGINE_API_KEY existsSync
              (h ++ [OObj []]) l ps (length h)
              (lookup_app_l_Some _ _ _ _ Hl) Hok') as [msg Hfail].
  assert (getSchemasFromServices (VRef l) de ds h
          = (Throw (TypeError msg), h ++ [OObj []])) as Hget.
  { unfold Load.getSchemasFromServices. unfold bind at 1, alloc at 1.
    apply bind_Throw. exact Hfail. }
  exists msg, (h ++ [OObj []]). split; [exact Hget |].
  unfold Load.loadConfig. apply bind_Throw. exact Hget.
Qed.

(** C9, as the code has it. [loadSchemaConfig] builds a new object and
    writes to no object it was given but one: the nested endpoint
    object, which gets its [subscriptions] member in place when it has a
    [url] and no [subscriptions]. Every other object is left as it was,
    and so is the endpoint object that needs no completion. The raw
    members other than [endpoint] and [engineKey] are in the result as
    they were in the input, and an endpoint that is an object is in the
    result as the very object of the input: the result shares it. *)
Theorem C9_loadSchemaConfig_frame
  (h : heap) l ps defaultEndpoint (r : result value) (h' : heap) :
  h !! l = Some (OObj ps) ->
  loadSchemaConfig (VRef l) defaultEndpoint h = (r, h') ->
  (forall l' o, h !! l' = Some o ->
                object_member ps "endpoint" <> VRef l' ->
                h' !! l' = Some o)
  /\ (forall l' eps,
         object_member ps "endpoint" = VRef l' ->
         h !! l' = Some (OObj eps) ->
         truthy (object_member eps "subscriptions") = true \/
         truthy (object_member eps "url") = false ->
         h' !! l' = Some (OObj eps))
  /\ (forall l' eps s,
         object_member ps "endpoint" = VRef l' ->
         h !! l' = Some (OObj eps) ->
         truthy (object_member eps "subscriptions") = false ->
         object_member eps "url" = VStr s -> s <> EmptyString ->
         h' !! l' =
         Some (OObj (assoc_set "subscriptions"
                       (VStr (Str.replace "http" "ws" s)) eps))
         /\ exists rl rps,
              r = Ok (VRef rl) /\ rl <> l' /\
              h' !! rl = Some (OObj rps) /\
              assoc "endpoint" rps = Some (VRef l'))
  /\ (forall v, r = Ok v ->
                exists rl rps,
                  v = VRef rl /\ length h <= rl /\
                  h' !! rl = Some (OObj rps) /\
                  (forall k, k <> "endpoint" -> k <> "engineKey" ->
                             assoc k rps = assoc k ps) /\
                  (forall l', object_member ps "endpoint" = VRef l' ->
                              assoc "endpoint" rps = Some (VRef l'))).
Proof.
  intros Hl Hrun. rewrite (loadSchemaConfig_object _ _ _ _ _ Hl) in Hrun.
  destruct (loadEndpointConfig (object_member ps "endpoint")
              (negb (truthy (object_member ps "engineKey"))
               && defaultEndpoint) h) as [re h1] eqn:Hep.
  assert (forall l' o, h1 !! l' = Some o -> h' !! l' = Some o) as Hgrow.
  { destruct re; injection Hrun as <- <-; [| auto].
    intros l' o. apply lookup_app_l_Some. }
  assert (length h <= length h1) as Hlen.
  { destruct (loadEndpointConfig_effect _ _ _ _ _ Hep)
      as [-> | [[o ->] | (l0 & ps0 & s0 & _ & _ & _ & _ & _ & ->)]].
    - lia.
    - rewrite length_app. lia.
    - rewrite length_insert. lia. }
  split; [| split; [| split]].
  - intros l' o Hl' Hne. apply Hgrow.
    destruct (loadEndpointConfig_effect _ _ _ _ _ Hep)
      as [-> | [[o' ->] | (l0 & ps0 & s0 & Hv & _ & _ & _ & _ & ->)]].
    + exact Hl'.
    + apply lookup_app_l_Some. exact Hl'.
    + rewrite list_lookup_insert_ne; [exact Hl' |].
      intros <-. apply Hne. exact Hv.
  - intros l' eps Hv Hl' Hdone. apply Hgrow.
    rewrite Hv, loadEndpointConfig_ref, Hl' in Hep.
    destruct Hdone as [Hsub | Hurl].
    + rewrite Hsub in Hep. injection Hep as _ <-. exact Hl'.
    + rewrite Hurl in Hep.
      destruct (truthy (object_member eps "subscriptions"));
        injection Hep as _ <-; exact Hl'.
  - intros l' eps s Hv Hl' Hsub Hurl Hs.
    rewrite Hv, loadEndpointConfig_ref, Hl', Hsub, Hurl in Hep.
    cbn [truthy] in Hep. apply String.eqb_neq in Hs. rewrite Hs in Hep.
    cbn [negb] in Hep. injection Hep as <- <-.
    injection Hrun as <- <-.
    pose proof (lookup_lt_Some _ _ _ Hl') as Hlt.
    split.
    + apply lookup_app_l_Some. apply list_lookup_insert_eq. exact Hlt.
    + eexists _, _. split; [reflexivity |].
      rewrite length_insert.
      split; [lia |].
      split; [apply list_lookup_middle; rewrite length_insert;
              reflexivity |].
      unfold spread_with. rewrite assoc_set_ne by discriminate.
      apply assoc_set_eq.
  - intros v ->. destruct re as [e | err]; [| discriminate].
    injection Hrun as <- <-.
    eexists _, _. split; [reflexivity |]. split; [exact Hlen |].
    split; [apply list_lookup_middle; reflexivity |].
    split.
    + intros k Hk1 Hk2. unfold spread_with.
      rewrite !assoc_set_ne by assumption. reflexivity.
    + intros l' Hv. unfold spread_with.
      rewrite assoc_set_ne by discriminate. rewrite assoc_set_eq.
      rewrite Hv, loadEndpointConfig_ref in Hep.
      destruct (h !! l') as [[eps | es] |];
        [| injection Hep as <- _; reflexivity ..].
      destruct (truthy (object_member eps "subscriptions"));
        [injection Hep as <- _; reflexivity |].
      destruct (truthy (object_member eps "url"));
        [| injection Hep as <- _; reflexivity].
      destruct (object_member eps "url");
        first [discriminate | injection Hep as <- _; reflexivity].
Qed.

(** C10. A raw object with a [clientSchema] and no [services], expanded
    with [defaultSchema] set: the dependency synthesized for "default" is
    still in the heap, but the mapping has one entry, "default", which is
    the client schema and extends "default", itself. In a configuration
    with such an entry the chain of extensions that starts at "default"
    has no end. *)
Theorem C10_client_schema_extends_itself
  (h : heap) l ps defaultEndpoint :
  h !! l = Some (OObj ps) ->
  truthy (object_member ps "services") = false ->
  truthy (object_member ps "clientSchema") = true ->
  exists h' dl sl,
    getSchemasFromServices (VRef l) defaultEndpoint true h
    = (Ok (VRef (length h)), h') /\
    h' !! length h = Some (OObj [("default", VRef dl)]) /\
    h' !! dl =
    Some (OObj [("schema", object_member ps "clientSchema");
                ("clientSide", VBool true);
                ("extends", VStr "default")]) /\
    sl <> dl /\
    h' !! sl =
    Some (synthesized (if defaultEndpoint then VRef (length h + 2)
                       else VUndefined)) /\
    (forall l' o, h !! l' = Some o -> h' !! l' = Some o) /\
    (forall config d,
        default ∅ (schemas config) !! "default" = Some d ->
        extends d = Some "default" ->
        forall k, ~ Resolve.chain_ends config "default" k).
Proof.
  intros Hl Hs Hc.
  assert (forall config d,
             default ∅ (schemas config) !! "default" = Some d ->
             extends d = Some "default" ->
             forall k, ~ Resolve.chain_ends config "default" k) as Hself.
  { intros config d Hd Hext.
    apply (ResolveFacts.cycle_never_ends config 0).
    eapply Resolve.hops_next; [| | apply Resolve.hops_here].
    - unfold Resolve.lookup_schema. rewrite Hd. reflexivity.
    - rewrite Hext. reflexivity. }
  rewrite (getSchemasFromServices_client ENGINE_API_KEY existsSync
             h l ps defaultEndpoint Hl Hs Hc).
  destruct defaultEndpoint.
  - exists (h ++ [OObj [("default", VRef (length h + 4))]; OObj [];
                  default_endpoint; synthesized (VRef (length h + 2));
                  client_dependency (object_member ps "clientSchema")
                    (VStr "default")]),
      (length h + 4), (length h + 3).
    split; [reflexivity |].
    split; [rewrite <- (Nat.add_0_r (length h)) at 1; apply lookup_new |].
    split; [apply lookup_new |]. split; [lia |].
    split; [apply lookup_new |].
    split; [| exact Hself].
    intros l' o. apply lookup_app_l_Some.
  - exists (h ++ [OObj [("default", VRef (length h + 3))]; OObj [];
                  synthesized VUndefined;
                  client_dependency (object_member ps "clientSchema")
                    (VStr "default")]),
      (length h + 3), (length h + 2).
    split; [reflexivity |].
    split; [rewrite <- (Nat.add_0_r (length h)) at 1; apply lookup_new |].
    split; [apply lookup_new |]. split; [lia |].
    split; [apply lookup_new |].
    split; [| exact Hself].
    intros l' o. apply lookup_app_l_Some.
Qed.

End Claims.

(** C7, as the code has it. A non-empty bare string [s] becomes the
    endpoint with [url = s] and with [subscriptions] the string [s] in
    which the first occurrence of "http" is replaced by "ws", and [s]
    itself when "http" does not occur. *)
Theorem C7_bare_string_endpoint (s : string) (b : bool) (h : heap) :
  s <> EmptyString ->
  exists sub,
    loadEndpointConfig (VStr s) b h =
    (Ok (VRef (length h)),
     h ++ [OObj [("url", VStr s); ("subscriptions", VStr sub)]]) /\
    (forall pre post,
        s = pre +:+ "http" +:+ post ->
        (forall a c, s = a +:+ "http" +:+ c ->
                     String.length pre <= String.length a) ->
        sub = pre +:+ "ws" +:+ post) /\
    ((forall a c, s <> a +:+ "http" +:+ c) -> sub = s).
Proof.
  intros Hs. exists (Str.replace "http" "ws" s).
  split; [| split].
  - rewrite loadEndpointConfig_string.
    apply String.eqb_neq in Hs. rewrite Hs. reflexivity.
  - intros pre post -> Hfirst. apply StrFacts.replace_first. exact Hfirst.
  - intros Habsent. apply StrFacts.replace_absent.
    destruct (Str.occurs "http" s) eqn:Ho; [| reflexivity].
    apply StrFacts.occurs_split in Ho as (a & c & ->).
    contradiction (Habsent a c eq_refl).
Qed.

End LoadClaims.

(** * The resolvers against their specification *)

Module ResolveClaims.
Import Js Resolve Walk ResolveFacts.

Section Claims.

Variables Schema Introspection : Type.
Variable loadQueryDocuments : list (option string) -> result (list Node).
Variable extendSchema : option Schema -> option Node -> result Schema.
Variable buildASTSchema : option Node -> result Schema.
Variable buildClientSchema : Introspection -> result Schema.
Variable loadSchema :
  SchemaDependency -> ApolloConfig -> option string ->
  result (option Introspection).
Variable globSync : string -> string -> result (list string).
Variable minimatch : string -> string -> bool.
Variable relative : string -> string -> string.
Variable array_limit : N.

#[local] Abbreviation resolveSchema :=
  (resolveSchema Schema Introspection loadQueryDocuments extendSchema
     buildASTSchema buildClientSchema loadSchema).
#[local] Abbreviation resolveDocumentSet :=
  (resolveDocumentSet Schema Introspection loadQueryDocuments extendSchema
     buildASTSchema buildClientSchema loadSchema globSync minimatch
     relative array_limit).
#[local] Abbreviation resolveDocumentSets :=
  (resolveDocumentSets Schema Introspection loadQueryDocuments extendSchema
     buildASTSchema buildClientSchema loadSchema globSync minimatch
     relative array_limit).
#[local] Abbreviation kept := (kept minimatch relative).

(** C1, as the code has it. A name that [config.schemas] does not have
    (and that is no member of [Object.prototype] either) makes
    [resolveSchema] throw, with the TypeError of reading [extends] off
    [undefined]: the module raises no error of its own. A document set
    that refers to such a name keeps [resolveDocumentSets] from returning
    only when [needSchema] is set, and makes it throw that TypeError when
    it is the only set. When [needSchema] is not set the reference is
    tolerated: once its patterns are expanded the set is resolved, with
    no schema, no endpoint and no engine key, and with the paths that no
    exclude pattern matches. *)
Theorem C1_unknown_schema_reference (config : ApolloConfig) (name : string) :
  default ∅ (schemas config) !! name = None ->
  mem name object_prototype_names = false ->
  (forall stack tag t,
      resolveSchema (S stack) name config tag t =
      (Thrown (TypeError "Cannot read property 'extends' of undefined"), t))
  /\ (forall fuel stack tag t doc,
         doc ∈ default [] (queries config) ->
         truthy_str (doc_schema doc) = Some name ->
         forall rs t',
           resolveDocumentSets fuel stack config true tag t
           <> (Returned rs, t'))
  /\ (forall fuel stack tag t doc,
         queries config = Some [doc] ->
         truthy_str (doc_schema doc) = Some name ->
         resolveDocumentSets fuel (S stack) config true tag t =
         (Thrown (TypeError "Cannot read property 'extends' of undefined"), t))
  /\ (forall fuel stack tag t doc expansions,
         doc_schema doc = Some name ->
         Forall2 (fun i fs => globSync i (projectFolder config) = Ok fs)
                 (includes doc) expansions ->
         let r :=
           {| res_schema := None; res_endpoint := None;
              res_engineKey := None;
              documentPaths :=
                filter (fun f => kept (projectFolder config)
                                   (excludes doc) f = true)
                       (concat expansions);
              originalSet := doc |} in
         let t' :=
           t ++ map (fun i => EvGlobSync i (projectFolder config))
                    (includes doc) in
         resolveDocumentSet fuel stack config false tag doc t
         = (Returned r, t') /\
         (queries config = Some [doc] ->
          resolveDocumentSets fuel stack config false tag t
          = (Returned [r], t')))
  /\ (forall fuel stack tag t rs t',
         resolveDocumentSets fuel stack config false tag t
         = (Returned rs, t') ->
         forall r, r ∈ rs ->
           doc_schema (originalSet r) = Some name ->
           res_schema r = None /\ res_endpoint r = None /\
           res_engineKey r = None).
Proof.
  intros Hkey Hproto.
  pose proof (lookup_schema_None config name Hkey Hproto) as Hnone.
  split; [| split; [| split; [| split]]].
  - intros stack tag t. apply resolveSchema_unknown. exact Hnone.
  - intros fuel stack tag t doc Hin Hdoc rs t' Hrun.
    unfold Resolve.resolveDocumentSets in Hrun.
    apply resolveEach_Returned in Hrun.
    apply list_elem_of_lookup in Hin as [i Hi].
    destruct (Forall2_lookup_l _ _ _ _ _ Hrun Hi) as (r & _ & t1 & t2 & Hr).
    apply resolveDocumentSet_Returned in Hr as (_ & _ & _ & _ & Hs & _).
    destruct (Hs name eq_refl Hdoc) as (t3 & t4 & Hres).
    exact (resolveSchema_unknown_not_Returned _ _ _ _ _ _ _ _ _ _ _ _
             Hnone _ _ Hres).
  - intros fuel stack tag t doc Hq Hdoc.
    unfold Resolve.resolveDocumentSets. rewrite Hq.
    change (default [] (Some [doc])) with [doc].
    cbn [resolveEach]. unfold Resolve.resolveDocumentSet.
    assert (key_of (doc_schema doc) = name) as Hk.
    { unfold truthy_str in Hdoc. destruct (doc_schema doc) as [s |];
        [| discriminate].
      destruct (String.eqb s EmptyString); [discriminate |].
      injection Hdoc as <-. reflexivity. }
    rewrite Hk, Hnone, Hdoc.
    unfold bind at 1. unfold bind at 1.
    replace (collectSchemaPaths array_limit fuel config None [] t)
      with (Returned (@nil string), t) by (destruct fuel; reflexivity).
    unfold bind at 1.
    rewrite resolveSchema_unknown by exact Hnone. reflexivity.
  - intros fuel stack tag t doc expansions Hdoc Hglob r t'.
    assert (resolveDocumentSet fuel stack config false tag doc t
            = (Returned r, t')) as Hset.
    { apply resolveDocumentSet_dangling.
      - unfold start. rewrite Hdoc. exact Hnone.
      - apply expandIncludes_run. exact Hglob. }
    split; [exact Hset |].
    intros Hq. unfold Resolve.resolveDocumentSets. rewrite Hq.
    change (default [] (Some [doc])) with [doc].
    cbn [resolveEach]. unfold bind at 1. rewrite Hset. reflexivity.
  - intros fuel stack tag t rs t' Hrun r Hin Hdoc.
    unfold Resolve.resolveDocumentSets in Hrun.
    apply resolveEach_Returned in Hrun.
    apply list_elem_of_lookup in Hin as [i Hi].
    destruct (Forall2_lookup_r _ _ _ _ _ Hrun Hi)
      as (doc & _ & t1 & t2 & Hr).
    apply resolveDocumentSet_Returned in Hr
        as (Horig & Hend & Hkey' & Hs & _).
    rewrite Horig in Hdoc.
    assert (referred config doc = None) as Href.
    { unfold referred, truthy_str. rewrite Hdoc.
      destruct (String.eqb name EmptyString); [reflexivity | exact Hnone]. }
    rewrite Href in Hend, Hkey'. auto.
Qed.

(** C2, as the code has it. [resolveSchema] has no guard against cycles
    and no error for them, and yet every call finishes. The recursive
    call is made before the function waits for anything, so the nested
    calls use up the call stack: a chain of [extends] members that does
    not end within the stack, and so every cycle, ends in the RangeError
    of the engine, before any collaborator is called. On a chain that
    ends within the stack, the room the stack has left plays no role. *)
Theorem C2_cycle_overflows_the_call_stack
  (config : ApolloConfig) (name : string) (tag : option string)
  (t : list Event) :
  (forall stack, (resolveSchema stack name config tag t).1 <> OutOfFuel)
  /\ (forall k, chain_ends config name k ->
                forall stack, k < stack ->
                  resolveSchema stack name config tag t
                  = resolveSchema (S k) name config tag t)
  /\ (forall stack,
         (forall k, chain_ends config name k -> stack <= k) ->
         resolveSchema stack name config tag t =
         (Thrown (RangeError "Maximum call stack size exceeded"), t))
  /\ (forall n, hops config (S n) name name ->
                forall stack,
                  resolveSchema stack name config tag t =
                  (Thrown (RangeError "Maximum call stack size exceeded"),
                   t)).
Proof.
  split; [| split; [| split]].
  - intros stack. apply resolveSchema_not_OutOfFuel.
  - intros k Hk stack Hlt.
    apply (resolveSchema_stack _ _ _ _ _ _ _ _ _ _ Hk); lia.
  - intros stack Hlong. apply resolveSchema_overflow. exact Hlong.
  - intros n Hcycle stack. apply resolveSchema_overflow.
    intros k Hk. contradiction (cycle_never_ends _ _ _ Hcycle k Hk).
Qed.

(** C4, as the code has it. The paths of a resolved set are the
    expansions of its include patterns, one after the other in the order
    of the patterns, without the paths that an exclude pattern matches
    or that one of the schema files along the [extends] members of the
    set's schema matches. Nothing removes duplicates: the list has none
    when the expansions, put together, have none. *)
Theorem C4_documentPaths_concatenate_expansions
  (fuel stack : nat) (config : ApolloConfig) (needSchema : bool)
  (tag : option string) (t t' : list Event)
  (rs : list (ResolvedDocumentSet Schema)) :
  resolveDocumentSets fuel stack config needSchema tag t
  = (Returned rs, t') ->
  Forall (fun r =>
            exists schemaPaths expansions,
              schema_files config (start config (originalSet r))
                schemaPaths /\
              Forall2 (fun i fs => globSync i (projectFolder config) = Ok fs)
                      (includes (originalSet r)) expansions /\
              documentPaths r =
              filter (fun f => kept (projectFolder config)
                                 (excludes (originalSet r) ++ schemaPaths) f
                               = true)
                     (concat expansions) /\
              (NoDup (concat expansions) -> NoDup (documentPaths r)))
         rs.
Proof.
  intros Hrun. unfold Resolve.resolveDocumentSets in Hrun.
  apply resolveEach_Returned in Hrun.
  apply Forall_forall. intros r Hin.
  apply list_elem_of_lookup in Hin as [i Hi].
  destruct (Forall2_lookup_r _ _ _ _ _ Hrun Hi) as (doc & _ & t1 & t2 & Hr).
  apply resolveDocumentSet_Returned in Hr
      as (Horig & _ & _ & _ & _
          & schemaPaths & expansions & Hfiles & Hall & Hpaths).
  exists schemaPaths, expansions. rewrite Horig.
  split; [exact Hfiles |]. split; [exact Hall |]. split; [exact Hpaths |].
  intros Hnodup. rewrite Hpaths. apply NoDup_filter. exact Hnodup.
Qed.

(** C5. With [needSchema] false, [resolveDocumentSets] calls no
    collaborator but the pattern expansion, however far it gets, and
    every set it returns has no schema. *)
Theorem C5_no_schema_work_without_needSchema
  (fuel stack : nat) (config : ApolloConfig) (tag : option string) :
  Forall (fun e => schema_event e = false)
         (resolveDocumentSets fuel stack config false tag []).2
  /\ (forall rs,
         (resolveDocumentSets fuel stack config false tag []).1
         = Returned rs ->
         Forall (fun r => res_schema r = None) rs).
Proof.
  split.
  - unfold Resolve.resolveDocumentSets.
    destruct (resolveEach_trace Schema Introspection loadQueryDocuments
                extendSchema buildASTSchema buildClientSchema loadSchema
                globSync minimatch relative array_limit fuel stack
                config tag (default [] (queries config)) [])
      as (evs & Hevs & Hall).
    rewrite Hevs. exact Hall.
  - intros rs Hrun. unfold Resolve.resolveDocumentSets in Hrun.
    destruct (Resolve.resolveEach _ _ _ _ _ _ _ _ _ _ _ fuel stack config
                false tag (default [] (queries config)) [])
      as [out t'] eqn:Heach.
    simpl in Hrun. subst out.
    apply resolveEach_Returned in Heach.
    apply Forall_forall. intros r Hin.
    apply list_elem_of_lookup in Hin as [i Hi].
    destruct (Forall2_lookup_r _ _ _ _ _ Heach Hi)
      as (doc & _ & t1 & t2 & Hr).
    apply resolveDocumentSet_Returned in Hr as (_ & _ & _ & Hs & _).
    exact (Hs eq_refl).
Qed.

End Claims.

(** *** The claims on the sample configurations *)

Lemma lookup_cyclic_A :
  lookup_schema World.cyclic "A"
  = Some (World.dependency (Some "a.graphql") (Some "B") true).
Proof. vm_compute. reflexivity. Qed.

Lemma lookup_cyclic_B :
  lookup_schema World.cyclic "B"
  = Some (World.dependency (Some "b.graphql") (Some "A") true).
Proof. vm_compute. reflexivity. Qed.

Lemma cyclic_hops : hops World.cyclic 2 "A" "A".
Proof.
  eapply hops_next; [exact lookup_cyclic_A | reflexivity |].
  eapply hops_next; [exact lookup_cyclic_B | reflexivity |].
  apply hops_here.
Qed.

(** Against C1 as stated: with [needSchema] false, the set that refers to
    the undeclared schema "missing" is resolved, not refused, and has
    neither endpoint nor engine key. *)
Lemma C1_dangling_reference_is_resolved :
  default ∅ (schemas World.dangling) !! "missing" = None /\
  World.resolveDocumentSets 1 1 World.dangling false None [] =
  (Returned
     [{| res_schema := None; res_endpoint := None; res_engineKey := None;
         documentPaths := ["/project/queries.graphql"];
         originalSet := {| doc_schema := Some "missing"; includes := ["**"];
                           excludes := ["node_modules/**"] |} |}],
   [EvGlobSync "**" "/project"]).
Proof. split; vm_compute; reflexivity. Qed.

Lemma C1_unknown_schema_reference_witness :
  default ∅ (schemas World.dangling) !! "missing" = None /\
  mem "missing" object_prototype_names = false /\
  World.resolveSchema 1 "missing" World.dangling None [] =
  (Thrown (TypeError "Cannot read property 'extends' of undefined"), []) /\
  World.resolveDocumentSets 0 0 World.dangling false (Some "current") [] =
  (Returned
     [{| res_schema := None; res_endpoint := None; res_engineKey := None;
         documentPaths := ["/project/queries.graphql"];
         originalSet := {| doc_schema := Some "missing"; includes := ["**"];
                           excludes := ["node_modules/**"] |} |}],
   [EvGlobSync "**" "/project"]).
Proof.
  split; [vm_compute; reflexivity |]. split; [reflexivity |].
  destruct (C1_unknown_schema_reference World.SchemaTerm string
              World.loadQueryDocuments World.extendSchema
              World.buildASTSchema World.buildClientSchema World.loadSchema
              World.globSync World.minimatch World.relative
              World.array_limit World.dangling "missing"
              ltac:(vm_compute; reflexivity) eq_refl)
    as (Hthrows & _ & _ & Hresolved & _).
  split; [apply Hthrows |].
  apply (Hresolved 0 0 (Some "current") []
           {| doc_schema := Some "missing"; includes := ["**"];
              excludes := ["node_modules/**"] |}
           [["/project/queries.graphql"]]);
    [reflexivity | repeat constructor | reflexivity].
Defined.

(** Against C2 as stated: on [A extends B], [B extends A] the call ends,
    whatever the stack holds, in the RangeError of the engine; there is no
    error for cycles. *)
Lemma C2_cyclic_extends_overflows :
  World.resolveSchema 64 "A" World.cyclic None [] =
  (Thrown (RangeError "Maximum call stack size exceeded"), []) /\
  ~ exists stack,
      World.resolveSchema stack "A" World.cyclic None [] <>
      (Thrown (RangeError "Maximum call stack size exceeded"), []).
Proof.
  split; [vm_compute; reflexivity |].
  intros [stack Hother]. apply Hother. apply resolveSchema_overflow.
  intros k Hk. contradiction (cycle_never_ends _ _ _ cyclic_hops k Hk).
Qed.

Lemma C2_layered_chain_witness :
  World.resolveSchema 7 "client" World.layered None []
  = World.resolveSchema 2 "client" World.layered None [] /\
  World.resolveSchema 7 "A" World.cyclic None []
  = (Thrown (RangeError "Maximum call stack size exceeded"), []).
Proof.
  split.
  - apply (proj1 (proj2 (C2_cycle_overflows_the_call_stack World.SchemaTerm
                           string World.loadQueryDocuments
                           World.extendSchema World.buildASTSchema
                           World.buildClientSchema World.loadSchema
                           World.layered "client" None [])) 1);
      [| lia].
    eapply chain_hop; [vm_compute; reflexivity | reflexivity |].
    eapply chain_terminal; [vm_compute; reflexivity | reflexivity].
  - apply (proj2 (proj2 (proj2 (C2_cycle_overflows_the_call_stack
                                  World.SchemaTerm string
                                  World.loadQueryDocuments
                                  World.extendSchema World.buildASTSchema
                                  World.buildClientSchema World.loadSchema
                                  World.cyclic "A" None []))) 1).
    exact cyclic_hops.
Defined.

(** Against C4 as stated: two include patterns that match the same file
    put it twice in [documentPaths]. *)
Lemma C4_overlapping_patterns_duplicate :
  exists r,
    (World.resolveDocumentSets 1 1 World.overlapping false None []).1
    = Returned [r] /\
    ~ NoDup (documentPaths r).
Proof.
  eexists. split; [vm_compute; reflexivity |].
  cbn [documentPaths]. intros Hnodup.
  apply NoDup_cons in Hnodup as [Hnotin _].
  apply Hnotin. left.
Qed.

(** Two patterns that expand to two files, one of them the file of the
    client schema: the schema file is left out, and what is left has no
    duplicates because the expansions had none. *)
Lemma C4_documentPaths_witness :
  exists r t',
    Samples.resolveDocumentSets 2 2 Samples.two_files true None []
    = (Returned [r], t') /\
    (exists schemaPaths,
        schema_files Samples.two_files
          (start Samples.two_files (originalSet r)) schemaPaths /\
        documentPaths r =
        filter (fun f => kept World.minimatch World.relative "/project"
                           ([] ++ schemaPaths) f = true)
               ["/project/queries.graphql"; "/project/client.graphql"]) /\
    documentPaths r = ["/project/queries.graphql"] /\
    NoDup (documentPaths r).
Proof.
  eexists _, _. split; [vm_compute; reflexivity |].
  pose proof (C4_documentPaths_concatenate_expansions World.SchemaTerm string
                World.loadQueryDocuments World.extendSchema
                World.buildASTSchema World.buildClientSchema World.loadSchema
                Samples.globSync World.minimatch World.relative
                World.array_limit
                2 2 Samples.two_files true None [] _ _
                ltac:(vm_compute; reflexivity)) as Hall.
  apply Forall_cons_1 in Hall
      as [(schemaPaths & expansions & Hfiles & Hglob & Hpaths & Hnodup) _].
  cbn [originalSet includes excludes] in Hfiles, Hglob, Hpaths.
  assert (concat expansions
          = ["/project/queries.graphql"; "/project/client.graphql"]) as Hex.
  { apply Forall2_cons_inv_l in Hglob as (e1 & rest1 & [= <-] & Hglob & ->).
    apply Forall2_cons_inv_l in Hglob as (e2 & rest2 & [= <-] & Hglob & ->).
    apply Forall2_nil_inv_l in Hglob as ->. reflexivity. }
  rewrite Hex in Hpaths, Hnodup.
  split; [exists schemaPaths; split; [exact Hfiles | exact Hpaths] |].
  split; [reflexivity |].
  apply Hnodup. apply NoDup_cons. split; [| apply NoDup_singleton].
  intros Hin. apply list_elem_of_singleton in Hin. discriminate.
Defined.

Lemma C5_no_schema_work_witness :
  Forall (fun e => schema_event e = false)
         (World.resolveDocumentSets 2 2 World.layered false None []).2 /\
  exists rs,
    (World.resolveDocumentSets 2 2 World.layered false None []).1
    = Returned rs /\
    Forall (fun r => res_schema r = None) rs.
Proof.
  pose proof (C5_no_schema_work_without_needSchema World.SchemaTerm string
                World.loadQueryDocuments World.extendSchema
                World.buildASTSchema World.buildClientSchema World.loadSchema
                World.globSync World.minimatch World.relative
                World.array_limit 2 2 World.layered None)
    as [Htrace Hsets].
  split; [exact Htrace |].
  eexists. split; [vm_compute; reflexivity |].
  apply Hsets. vm_compute. reflexivity.
Defined.

End ResolveClaims.

(** * The normalizers on the sample inputs *)

Module LoadSamples.
Import Js Load LoadClaims.

(** Against C3 as stated: with the single schema "default", the bare
    string does not become the include list of the document set. *)
Lemma C3_bare_string_queries_not_promoted :
  member_snapshot 1 (World.loadConfig None World.queries_string) "schemas"
  = Some (TObj [("default", TDeep)]) /\
  member_snapshot 3 (World.loadConfig None World.queries_string) "queries"
  <> Some (TArr [TObj [("schema", TUndefined);
                       ("includes", TArr [TStr "operations/**/*.graphql"]);
                       ("excludes", TArr [TStr "node_modules/**"])]]).
Proof. split; [vm_compute; reflexivity | vm_compute; discriminate]. Qed.

Lemma C3_queries_string_witness :
  "operations/**/*.graphql" <> EmptyString /\
  member_snapshot 3 (World.loadConfig None World.queries_string) "queries"
  = Some (TArr [TObj [("schema", TUndefined);
                      ("includes", TBuiltin "String.prototype.includes");
                      ("excludes", TArr [TStr "node_modules/**"])]]).
Proof.
  split; [discriminate |].
  apply (C3_queries_string_is_not_promoted None World.existsSync
           World.basename "operations/**/*.graphql"
           "/project/apollo.config.js" "/project" true true).
  discriminate.
Defined.

(** Against C6 as stated: an [ENGINE_API_KEY] that is set, to the empty
    string, does not override the configured engine key. *)
Lemma C6_empty_environment_key_does_not_override :
  member_snapshot 1
    (loadSchemaConfig (Some EmptyString) (VRef 0) false World.keyed_dependency)
    "engineKey"
  = Some (TStr "configured").
Proof. vm_compute. reflexivity. Qed.

Lemma C6_engineKey_witness :
  exists r h' rps,
    loadSchemaConfig (Some "secret") (VRef 0) false World.keyed_dependency
    = (Ok (VRef r), h') /\
    h' !! r = Some (OObj rps) /\
    assoc "engineKey" rps = Some (VStr "secret").
Proof.
  exact (proj1 (C6_engineKey_from_environment (Some "secret")
                  World.existsSync)
           World.keyed_dependency 0 [("engineKey", VStr "configured")] false
           eq_refl eq_refl).
Defined.

(** Against C7 as stated: the empty string gets no [subscriptions] at
    all. *)
Lemma C7_empty_string_has_no_subscriptions :
  member_snapshot 1 (loadEndpointConfig (VStr EmptyString) false []) "url"
  = Some (TStr EmptyString) /\
  member_snapshot 1 (loadEndpointConfig (VStr EmptyString) false []) "subscriptions"
  <> Some (TStr (Str.replace "http" "ws" EmptyString)).
Proof. split; [vm_compute; reflexivity | vm_compute; discriminate]. Qed.

Lemma C7_bare_string_witness :
  "https://example.com/http" <> EmptyString /\
  exists sub,
    loadEndpointConfig (VStr "https://example.com/http") false [] =
    (Ok (VRef 0),
     [OObj [("url", VStr "https://example.com/http");
            ("subscriptions", VStr sub)]]) /\
    sub = "wss://example.com/http".
Proof.
  split; [discriminate |].
  destruct (C7_bare_string_endpoint "https://example.com/http" false []
              ltac:(discriminate)) as (sub & Hrun & Hfirst & _).
  exists sub. split; [exact Hrun |].
  apply (Hfirst EmptyString "s://example.com/http" eq_refl).
  intros a c _. apply Nat.le_0_l.
Defined.

(** Against C8 as stated: on a [services] mapping that is present but
    empty, [getSchemasFromServices] and [loadConfig] throw. *)
Lemma C8_empty_services_throws :
  (getSchemasFromServices None World.existsSync (VRef 0) true true
     World.services_empty).1
  = Throw (TypeError "undefined is not iterable") /\
  (World.loadConfig None World.services_empty).1
  = Throw (TypeError "undefined is not iterable").
Proof. split; vm_compute; reflexivity. Qed.

Lemma C8_normalizers_witness :
  exists c h', World.loadConfig None World.services_url = (Ok c, h').
Proof.
  exact (proj1 (proj2 (proj2 (proj2 (proj2
           (C8_normalizers_succeed_on_usable_input None World.existsSync
              World.basename)))))
           World.services_url 0
           [("services", VRef 1); ("queries", VRef 2)]
           "/project/apollo.config.js" "/project" true true
           eq_refl eq_refl eq_refl).
Defined.

(** Against C9 as stated: normalizing a dependency whose endpoint is an
    object with a [url] writes [subscriptions] into that object. *)
Lemma C9_nested_endpoint_is_modified :
  (loadSchemaConfig None (VRef 0) false World.nested_endpoint).2 !! 1
  = Some (OObj [("url", VStr "http://localhost:8080/graphql");
                ("subscriptions", VStr "ws://localhost:8080/graphql")]) /\
  (loadSchemaConfig None (VRef 0) false World.nested_endpoint).2 !! 1
  <> World.nested_endpoint !! 1.
Proof. split; [vm_compute; reflexivity | vm_compute; discriminate]. Qed.

Lemma C9_loadSchemaConfig_frame_witness :
  World.nested_endpoint !! 0
  = Some (OObj [("endpoint", VRef 1); ("extends", VStr "base")]) /\
  (loadSchemaConfig None (VRef 0) false World.nested_endpoint).2 !! 0
  = Some (OObj [("endpoint", VRef 1); ("extends", VStr "base")]) /\
  (loadSchemaConfig None (VRef 0) false World.nested_endpoint).2 !! 1
  = Some (OObj [("url", VStr "http://localhost:8080/graphql");
                ("subscriptions", VStr "ws://localhost:8080/graphql")]) /\
  exists rl rps,
    (loadSchemaConfig None (VRef 0) false World.nested_endpoint).1
    = Ok (VRef rl) /\ rl <> 1 /\
    (loadSchemaConfig None (VRef 0) false World.nested_endpoint).2 !! rl
    = Some (OObj rps) /\
    assoc "endpoint" rps = Some (VRef 1).
Proof.
  split; [reflexivity |].
  destruct (C9_loadSchemaConfig_frame None World.nested_endpoint 0
              [("endpoint", VRef 1); ("extends", VStr "base")] false
              (loadSchemaConfig None (VRef 0) false
                 World.nested_endpoint).1
              (loadSchemaConfig None (VRef 0) false
                 World.nested_endpoint).2
              eq_refl eq_refl) as (Hframe & _ & Hcompleted & _).
  split; [apply Hframe; [reflexivity | discriminate] |].
  apply (Hcompleted 1 [("url", VStr "http://localhost:8080/graphql")]
           "http://localhost:8080/graphql");
    [reflexivity | reflexivity | reflexivity | reflexivity | discriminate].
Defined.

Lemma C10_client_schema_witness :
  World.client_only !! 0 = Some (OObj [("clientSchema", VStr "client.graphql")])
  /\ member_snapshot 2
       (getSchemasFromServices None World.existsSync (VRef 0) true true
          World.client_only)
       "default"
     = Some (TObj [("schema", TStr "client.graphql");
                   ("clientSide", TBool true);
                   ("extends", TStr "default")]).
Proof.
  split; [reflexivity |].
  destruct (C10_client_schema_extends_itself None World.existsSync
              World.client_only 0 [("clientSchema", VStr "client.graphql")]
              true eq_refl eq_refl eq_refl)
    as (h' & dl & sl & Hrun & Hschemas & Hdl & _).
  rewrite Hrun. unfold member_snapshot, get. rewrite Hschemas.
  cbn [object_member assoc String.eqb Ascii.eqb Bool.eqb snapshot].
  rewrite Hdl. reflexivity.
Defined.

End LoadSamples.

(** * More on the resolvers *)

Module ResolveExtras.
Import Js Resolve ResolveFacts Walk.

Lemma count_app p (t1 t2 : list Event) :
  count p (t1 ++ t2) = count p t1 + count p t2.
Proof. unfold count. rewrite List.filter_app, length_app. reflexivity. Qed.

Lemma count_one p (e : Event) : count p [e] = if p e then 1 else 0.
Proof. unfold count. simpl. destruct (p e); reflexivity. Qed.

Ltac count_up :=
  rewrite ?count_app, ?count_one;
  cbn [is_load_schema is_extend_schema].

Lemma loop_ends_hops config n cur target :
  loop_hops config n cur target ->
  forall k, loop_ends config cur k ->
    n <= k /\ loop_ends config target (k - n).
Proof.
  induction 1 as [cur | n cur target _ IH]; intros k Hk.
  - rewrite Nat.sub_0_r. split; [lia | exact Hk].
  - inversion Hk as [| cur' k' Hk']; subst.
    destruct (IH _ Hk') as [Hle Hend]. split; [lia | exact Hend].
Qed.

Lemma loop_cycle_never_ends config n d :
  loop_hops config (S n) (Some d) (Some d) ->
  forall k, ~ loop_ends config (Some d) k.
Proof.
  intros Hcycle k. induction k as [k IH] using lt_wf_ind. intros Hk.
  destruct (loop_ends_hops _ _ _ _ Hcycle _ Hk) as [Hle Hend].
  apply (IH (k - S n)); [lia | exact Hend].
Qed.

Lemma loop_hops_None config m cur :
  loop_hops config m cur None -> loop_ends config cur m.
Proof.
  intros H. remember None as target eqn:Ht.
  induction H as [cur | m cur target _ IH]; subst.
  - constructor.
  - constructor. apply IH. reflexivity.
Qed.

Lemma loop_hops_snoc config m cur e target :
  loop_hops config m cur target -> target = Some e ->
  loop_hops config (S m) cur (next config e).
Proof.
  induction 1 as [cur | m cur target _ IH]; intros ->.
  - apply loop_hops_round. apply loop_hops_here.
  - apply loop_hops_round. apply IH. reflexivity.
Qed.

Lemma loop_hops_same config m cur x :
  loop_hops config m cur x -> forall y, loop_hops config m cur y -> x = y.
Proof.
  induction 1 as [cur | m cur target _ IH]; intros y Hy.
  - inversion Hy. reflexivity.
  - inversion Hy; subst. apply IH. assumption.
Qed.

Lemma loop_hops_split config a :
  forall b cur z,
    loop_hops config (a + b) cur z ->
    exists mid, loop_hops config a cur mid /\ loop_hops config b mid z.
Proof.
  induction a as [| a IH]; intros b cur z H.
  - exists cur. split; [constructor | exact H].
  - cbn [Nat.add] in H. inversion H as [| ? c ? H']; subst.
    apply IH in H' as (mid & Ha & Hb).
    exists mid. split; [constructor; exact Ha | exact Hb].
Qed.

(** What the loop comes by on a cycle, it comes by within the first
    round of the cycle. *)
Lemma visits_on_cycle config n d e :
  loop_hops config (S n) (Some d) (Some d) ->
  visits config (Some d) e ->
  exists j, j <= n /\ loop_hops config j (Some d) (Some e).
Proof.
  intros Hcycle [m Hm]. induction m as [m IH] using lt_wf_ind.
  destruct (le_lt_dec m n) as [Hle | Hlt]; [eauto |].
  replace m with (S n + (m - S n)) in Hm by lia.
  apply loop_hops_split in Hm as (mid & Ha & Hb).
  rewrite <- (loop_hops_same _ _ _ _ Hcycle _ Ha) in Hb.
  apply (IH (m - S n)); [lia | exact Hb].
Qed.

(** On a cycle the loop always has a next dependency. *)
Lemma visits_next config n d e :
  loop_hops config (S n) (Some d) (Some d) ->
  visits config (Some d) e ->
  exists e', next config e = Some e' /\ visits config (Some d) e'.
Proof.
  intros Hcycle [m Hm].
  pose proof (loop_hops_snoc _ _ _ _ _ Hm eq_refl) as Hnext.
  destruct (next config e) as [e' |] eqn:He.
  - exists e'. split; [reflexivity | exists (S m); exact Hnext].
  - apply loop_hops_None in Hnext.
    contradiction (loop_cycle_never_ends _ _ _ Hcycle _ Hnext).
Qed.

Section Extras.

Variables Schema Introspection : Type.
Variable loadQueryDocuments : list (option string) -> result (list Node).
Variable extendSchema : option Schema -> option Node -> result Schema.
Variable buildASTSchema : option Node -> result Schema.
Variable buildClientSchema : Introspection -> result Schema.
Variable loadSchema :
  SchemaDependency -> ApolloConfig -> option string ->
  result (option Introspection).
Variable globSync : string -> string -> result (list string).
Variable minimatch : string -> string -> bool.
Variable relative : string -> string -> string.
Variable array_limit : N.

#[local] Abbreviation resolveSchema :=
  (resolveSchema Schema Introspection loadQueryDocuments extendSchema
     buildASTSchema buildClientSchema loadSchema).
#[local] Abbreviation resolveDocumentSet :=
  (resolveDocumentSet Schema Introspection loadQueryDocuments extendSchema
     buildASTSchema buildClientSchema loadSchema globSync minimatch
     relative array_limit).
#[local] Abbreviation resolveEach :=
  (resolveEach Schema Introspection loadQueryDocuments extendSchema
     buildASTSchema buildClientSchema loadSchema globSync minimatch
     relative array_limit).
#[local] Abbreviation resolveDocumentSets :=
  (resolveDocumentSets Schema Introspection loadQueryDocuments extendSchema
     buildASTSchema buildClientSchema loadSchema globSync minimatch
     relative array_limit).
#[local] Abbreviation loadAsAST := (loadAsAST loadQueryDocuments).
#[local] Abbreviation expandIncludes := (expandIncludes globSync).
#[local] Abbreviation kept := (kept minimatch relative).
#[local] Abbreviation push := (push array_limit).
#[local] Abbreviation collectSchemaPaths :=
  (collectSchemaPaths array_limit).

(** *** The calls of [resolveSchema] *)

(** What [loadAsAST] logs holds neither a fetch nor an extension. *)
Lemma loadAsAST_trace d t o t' :
  loadAsAST d t = (o, t') ->
  exists evs,
    t' = t ++ evs /\
    count is_load_schema evs = 0 /\ count is_extend_schema evs = 0 /\
    Forall (fun e => is_load_schema e = false) evs.
Proof.
  unfold Resolve.loadAsAST, bind, call.
  destruct (loadQueryDocuments [dep_schema d]) as [docs | err].
  - destruct (truthy_flag (clientSide d)); intros [= _ <-].
    + exists [EvLoadQueryDocuments [dep_schema d]; EvVisit].
      rewrite <- app_assoc. repeat split; repeat constructor.
    + exists [EvLoadQueryDocuments [dep_schema d]].
      repeat split; repeat constructor.
  - intros [= _ <-]. exists [EvLoadQueryDocuments [dep_schema d]].
    repeat split; repeat constructor.
Qed.

Lemma pass_tag_idempotent tag : pass_tag (pass_tag tag) = pass_tag tag.
Proof.
  unfold pass_tag, truthy_str. destruct tag as [s |]; [| reflexivity].
  destruct (String.eqb s EmptyString) eqn:E; [reflexivity |].
  rewrite E. reflexivity.
Qed.

(** The calls of one run: the fetches carry the tag of the call, there is
    at most one of them, and a run that returns has extended a schema
    once per hop of the chain. *)
Lemma resolveSchema_trace fuel :
  forall name config tag t o t',
    resolveSchema fuel name config tag t = (o, t') ->
    exists evs,
      t' = t ++ evs /\
      Forall (fun e => forall d tg, e = EvLoadSchema d tg ->
                                    tg = pass_tag tag) evs /\
      count is_load_schema evs <= 1 /\
      (forall s, o = Returned s ->
                 chain_ends config name (count is_extend_schema evs)).
Proof.
  induction fuel as [| fuel IH]; intros name config tag t o t' Hrun.
  - injection Hrun as <- <-. exists []. rewrite app_nil_r.
    repeat split; [constructor | auto | intros ? [=]].
  - cbn [Resolve.resolveSchema] in Hrun.
    destruct (lookup_schema config name) as [d |] eqn:Hd.
    2:{ injection Hrun as <- <-. exists []. rewrite app_nil_r.
        repeat split; [constructor | auto | intros ? [=]]. }
    destruct (truthy_str (extends d)) as [base |] eqn:Hext.
    + unfold bind at 1 in Hrun.
      destruct (resolveSchema fuel base config (pass_tag tag) t)
        as [ob t1] eqn:Hbase.
      destruct (IH _ _ _ _ _ _ Hbase) as (evs1 & -> & Htags1 & Hone1 & Hret1).
      rewrite pass_tag_idempotent in Htags1.
      destruct ob as [s | e |];
        [| injection Hrun as <- <-; exists evs1;
           repeat split; auto; intros ? [=] ..].
      unfold bind at 1 in Hrun.
      destruct (loadAsAST d (t ++ evs1)) as [oa t2] eqn:Hast.
      destruct (loadAsAST_trace _ _ _ _ Hast)
        as (evs2 & -> & Hl2 & He2 & Hno2).
      assert (Forall (fun e => forall d0 tg, e = EvLoadSchema d0 tg ->
                                            tg = pass_tag tag)
                     (evs1 ++ evs2)) as Htags12.
      { apply Forall_app. split; [exact Htags1 |].
        eapply Forall_impl; [exact Hno2 |].
        intros e He d0 tg ->. discriminate. }
      destruct oa as [ast | e |];
        [| injection Hrun as <- <-; exists (evs1 ++ evs2);
           (split; [rewrite app_assoc; reflexivity |]);
           (split; [exact Htags12 |]);
           (split; [count_up; lia | intros ? [=]]) ..].
      unfold bind, call, ret in Hrun.
      exists ((evs1 ++ evs2) ++ [EvExtendSchema]).
      assert (Forall (fun e => forall d0 tg, e = EvLoadSchema d0 tg ->
                                            tg = pass_tag tag)
                     ((evs1 ++ evs2) ++ [EvExtendSchema])) as Htags.
      { apply Forall_app. split; [exact Htags12 |].
        constructor; [discriminate | constructor]. }
      destruct (extendSchema s ast) as [s' | err];
        injection Hrun as <- <-;
        (split; [rewrite !app_assoc; reflexivity |]);
        (split; [exact Htags |]);
        (split; [count_up; lia |]);
        [| intros ? [=]].
      intros _ _. count_up. rewrite He2.
      replace (count is_extend_schema evs1 + 0 + 1)
        with (S (count is_extend_schema evs1)) by lia.
      eapply chain_hop; [exact Hd | exact Hext |].
      eapply Hret1. reflexivity.
    + destruct (truthy_flag (clientSide d)) eqn:Hclient.
      * unfold bind at 1 in Hrun.
        destruct (loadAsAST d t) as [oa t2] eqn:Hast.
        destruct (loadAsAST_trace _ _ _ _ Hast)
          as (evs2 & -> & Hl2 & He2 & Hno2).
        assert (Forall (fun e => forall d0 tg, e = EvLoadSchema d0 tg ->
                                              tg = pass_tag tag) evs2)
          as Htags2.
        { eapply Forall_impl; [exact Hno2 |].
          intros e He d0 tg ->. discriminate. }
        destruct oa as [ast | e |];
          [| injection Hrun as <- <-; exists evs2;
             (split; [reflexivity |]); (split; [exact Htags2 |]);
             (split; [lia | intros ? [=]]) ..].
        unfold bind, call, ret in Hrun.
        exists (evs2 ++ [EvBuildASTSchema]).
        destruct (buildASTSchema ast) as [s' | err];
          injection Hrun as <- <-;
          (split; [rewrite app_assoc; reflexivity |]);
          (split; [apply Forall_app; split; [exact Htags2 |];
                   constructor; [discriminate | constructor] |]);
          (split; [count_up; lia |]);
          [| intros ? [=]].
        intros _ _. count_up. rewrite He2.
        eapply chain_terminal; [exact Hd | exact Hext].
      * unfold bind at 1, call at 1 in Hrun.
        assert (Forall (fun e => forall d0 tg, e = EvLoadSchema d0 tg ->
                                              tg = pass_tag tag)
                       [EvLoadSchema d (pass_tag tag)]) as Htag.
        { constructor; [| constructor].
          intros d0 tg [= _ <-]. reflexivity. }
        destruct (loadSchema d config (pass_tag tag)) as [[i |] | err].
        -- unfold bind, call, ret in Hrun.
           exists ([EvLoadSchema d (pass_tag tag)] ++ [EvBuildClientSchema]).
           destruct (buildClientSchema i) as [s' | err];
             injection Hrun as <- <-;
             (split; [rewrite app_assoc; reflexivity |]);
             (split; [apply Forall_app; split; [exact Htag |];
                      constructor; [discriminate | constructor] |]);
             (split; [count_up; lia |]);
             [| intros ? [=]].
           intros _ _. eapply chain_terminal; [exact Hd | exact Hext].
        -- injection Hrun as <- <-.
           exists [EvLoadSchema d (pass_tag tag)].
           split; [reflexivity |]. split; [exact Htag |].
           split; [count_up; lia |].
           intros _ _. eapply chain_terminal; [exact Hd | exact Hext].
        -- injection Hrun as <- <-.
           exists [EvLoadSchema d (pass_tag tag)].
           split; [reflexivity |]. split; [exact Htag |].
           split; [count_up; lia | intros ? [=]].
Qed.

(** *** The loop of [resolveDocumentSets] *)

(** A loop that ends within the rounds it is given finishes. *)
Lemma collectSchemaPaths_ends config cur k :
  loop_ends config cur k ->
  forall fuel acc t, k <= fuel ->
    (collectSchemaPaths fuel config cur acc t).1 <> OutOfFuel.
Proof.
  induction 1 as [| cur k _ IH]; intros fuel acc t Hle.
  - destruct fuel; discriminate.
  - destruct fuel as [| fuel]; [lia |].
    cbn [Resolve.collectSchemaPaths]. unfold bind at 1.
    destruct (truthy_str (dep_schema cur)) as [p |].
    + unfold Resolve.push.
      destruct (N.of_nat (length acc) <? array_limit)%N;
        [apply IH; lia | discriminate].
    + apply IH. lia.
Qed.

(** The loop gathers the schema file of every dependency it comes by. *)
Lemma collectSchemaPaths_collects fuel :
  forall config cur acc t paths t',
    collectSchemaPaths fuel config cur acc t = (Returned paths, t') ->
    (forall p, p ∈ acc -> p ∈ paths) /\
    (forall d p, visits config cur d ->
                 truthy_str (dep_schema d) = Some p -> p ∈ paths).
Proof.
  induction fuel as [| fuel IH]; intros config [cur |] acc t paths t' H.
  - discriminate.
  - injection H as <- _. split; [auto |].
    intros d p [n Hn]. inversion Hn.
  - cbn [Resolve.collectSchemaPaths] in H.
    apply bind_Returned in H as (acc' & t1 & Hpush & H).
    apply IH in H as [Hacc Hvisits].
    assert (forall p, p ∈ acc -> p ∈ acc') as Hkeep.
    { intros p Hp. destruct (truthy_str (dep_schema cur)) as [q |].
      - unfold Resolve.push in Hpush.
        destruct (N.of_nat (length acc) <? array_limit)%N;
          [| discriminate].
        injection Hpush as <- _. apply elem_of_app. left. exact Hp.
      - injection Hpush as <- _. exact Hp. }
    split; [auto |].
    intros d p [n Hn] Hp. inversion Hn as [| n' cur' target Hn']; subst.
    + apply Hacc. rewrite Hp in Hpush. unfold Resolve.push in Hpush.
      destruct (N.of_nat (length acc) <? array_limit)%N; [| discriminate].
      injection Hpush as <- _. apply elem_of_app. right. left.
    + apply (Hvisits d p); [exists n'; exact Hn' | exact Hp].
  - injection H as <- _. split; [auto |].
    intros d p [n Hn]. inversion Hn.
Qed.

(** [m] rounds of the loop: either they go through, and the list has
    grown by the schema files they came by, within what an array holds,
    or the array was full at one of them. *)
Lemma collectSchemaPaths_hops config m cur target :
  loop_hops config m cur target ->
  forall acc,
    (exists acc',
        (forall fuel t,
            collectSchemaPaths (m + fuel) config cur acc t
            = collectSchemaPaths fuel config target acc' t) /\
        length acc <= length acc' /\
        (length acc < length acc' ->
         (N.of_nat (length acc') <= array_limit)%N) /\
        (forall j e p,
            j < m -> loop_hops config j cur (Some e) ->
            truthy_str (dep_schema e) = Some p ->
            length acc < length acc'))
    \/ (forall fuel t,
           collectSchemaPaths (m + fuel) config cur acc t
           = (Thrown (RangeError "Invalid array length"), t)).
Proof.
  induction 1 as [cur | m c target _ IH]; intros acc.
  - left. exists acc. split; [reflexivity |]. split; [lia |].
    split; [lia |]. intros j e p Hj. lia.
  - cbn [Nat.add Resolve.collectSchemaPaths].
    destruct (truthy_str (dep_schema c)) as [q |] eqn:Hq.
    + unfold bind at 1 2, Resolve.push.
      destruct (N.of_nat (length acc) <? array_limit)%N eqn:Hroom;
        [| right; reflexivity].
      apply N.ltb_lt in Hroom. unfold ret at 1 2.
      destruct (IH (acc ++ [q]))
        as [(acc' & Hrun & Hlen & Hbound & _) | Hfull];
        [left | right; exact Hfull].
      rewrite length_app in Hlen, Hbound. cbn [length] in Hlen, Hbound.
      exists acc'. split; [exact Hrun |]. split; [lia |].
      split; [| intros; lia].
      intros _. destruct (Nat.eq_dec (length acc + 1) (length acc'))
        as [Heq | Hne]; [lia | apply Hbound; lia].
    + unfold bind at 1 2, ret at 1 2.
      destruct (IH acc) as [(acc' & Hrun & Hlen & Hbound & Hgrow) | Hfull];
        [left | right; exact Hfull].
      exists acc'. split; [exact Hrun |]. split; [exact Hlen |].
      split; [exact Hbound |].
      intros j e p Hj Hhops Hp.
      inversion Hhops as [| j' c' target' Hhops']; subst.
      * congruence.
      * apply (Hgrow j' e p); [lia | exact Hhops' | exact Hp].
Qed.

(** On a cycle without schema files the loop goes on for ever. *)
Lemma collectSchemaPaths_hangs config n d :
  loop_hops config (S n) (Some d) (Some d) ->
  (forall e, visits config (Some d) e ->
             truthy_str (dep_schema e) = None) ->
  forall fuel cur acc t,
    visits config (Some d) cur ->
    collectSchemaPaths fuel config (Some cur) acc t = (OutOfFuel, t).
Proof.
  intros Hcycle Hbare fuel.
  induction fuel as [| fuel IH]; intros cur acc t Hcur; [reflexivity |].
  cbn [Resolve.collectSchemaPaths]. rewrite (Hbare cur Hcur).
  unfold bind at 1, ret at 1.
  destruct (visits_next _ _ _ _ Hcycle Hcur) as (e' & He' & Hvisits).
  unfold next in He'. rewrite He'. apply IH. exact Hvisits.
Qed.

(** On a cycle with a schema file the loop fills the array. *)
Lemma collectSchemaPaths_fills config n d e p :
  loop_hops config (S n) (Some d) (Some d) ->
  visits config (Some d) e ->
  truthy_str (dep_schema e) = Some p ->
  forall room acc,
    N.to_nat array_limit - length acc <= room ->
    exists fuel0,
      forall fuel t,
        collectSchemaPaths (fuel0 + fuel) config (Some d) acc t
        = (Thrown (RangeError "Invalid array length"), t).
Proof.
  intros Hcycle Hvisits Hp.
  destruct (visits_on_cycle _ _ _ _ Hcycle Hvisits) as (j & Hj & Hhops).
  induction room as [| room IH]; intros acc Hroom;
    (destruct (collectSchemaPaths_hops _ _ _ _ Hcycle acc)
      as [(acc' & Hrun & Hlen & Hbound & Hgrow) | Hfull];
     [| exists (S n); exact Hfull]);
    specialize (Hgrow j e p ltac:(lia) Hhops Hp);
    specialize (Hbound Hgrow).
  - lia.
  - destruct (IH acc' ltac:(lia)) as [fuel0 Hfuel0].
    exists (S n + fuel0). intros fuel t.
    rewrite <- Nat.add_assoc, Hrun. apply Hfuel0.
Qed.

Lemma expandIncludes_not_OutOfFuel cwd patterns t :
  (expandIncludes cwd patterns t).1 <> OutOfFuel.
Proof.
  revert t. induction patterns as [| i rest IH]; intros t; [discriminate |].
  cbn [Resolve.expandIncludes]. unfold bind at 1, call at 1.
  destruct (globSync i cwd) as [fs | err]; [| discriminate].
  unfold bind. specialize (IH (t ++ [EvGlobSync i cwd])).
  destruct (expandIncludes cwd rest (t ++ [EvGlobSync i cwd]))
    as [[more | e |] t1]; simpl in *; congruence.
Qed.

Lemma resolveDocumentSet_loop fuel stack config needSchema tag doc t r t' :
  resolveDocumentSet fuel stack config needSchema tag doc t
  = (Returned r, t') ->
  exists schemaPaths found,
    collectSchemaPaths fuel config (start config doc) [] t
    = (Returned schemaPaths, t) /\
    documentPaths r =
    filter (fun f => kept (projectFolder config)
                          (excludes doc ++ schemaPaths) f = true) found.
Proof.
  unfold Resolve.resolveDocumentSet. intros H.
  apply bind_Returned in H as (schemaPaths & t1 & Hloop & H).
  apply bind_Returned in H as (schema & t2 & _ & H).
  apply bind_Returned in H as (found & t3 & _ & H).
  injection H as <- _. exists schemaPaths, found.
  split; [| reflexivity].
  pose proof (collectSchemaPaths_trace array_limit fuel config
                (lookup_schema config (key_of (doc_schema doc))) [] t) as Ht.
  rewrite Hloop in Ht. simpl in Ht. subst t1. exact Hloop.
Qed.

(** X1. [resolveSchema] comes back without a schema only from a
    dependency that extends nothing and is not client-side, when
    [loadSchema] had no introspection result for it; nothing else was
    called. A dependency that extends another always gets a schema out of
    [extendSchema], even over a base that came back absent. *)
Theorem X1_absent_schema_only_from_fetch
  (fuel : nat) (name : string) (config : ApolloConfig)
  (tag : option string) (t t' : list Event) :
  resolveSchema fuel name config tag t = (Returned None, t') ->
  exists d,
    lookup_schema config name = Some d /\
    truthy_str (extends d) = None /\
    truthy_flag (clientSide d) = false /\
    loadSchema d config (pass_tag tag) = Ok None /\
    t' = t ++ [EvLoadSchema d (pass_tag tag)].
Proof.
  destruct fuel as [| fuel]; [discriminate |].
  cbn [Resolve.resolveSchema].
  destruct (lookup_schema config name) as [d |]; [| discriminate].
  intros H. exists d. split; [reflexivity |].
  destruct (truthy_str (extends d)) as [base |].
  - apply bind_Returned in H as (s & t1 & _ & H).
    apply bind_Returned in H as (ast & t2 & _ & H).
    apply bind_Returned in H as (s' & t3 & _ & H). discriminate.
  - split; [reflexivity |].
    destruct (truthy_flag (clientSide d)).
    + apply bind_Returned in H as (ast & t2 & _ & H).
      apply bind_Returned in H as (s' & t3 & _ & H). discriminate.
    + split; [reflexivity |]. unfold bind, call in H.
      destruct (loadSchema d config (pass_tag tag)) as [[i |] | err];
        try discriminate.
      * destruct (buildClientSchema i); discriminate.
      * injection H as <-. split; reflexivity.
Qed.

(** X2. Every introspection fetch of a run of [resolveSchema] is given
    the tag of the call, all along the chain of extensions, except that
    an empty tag is dropped. *)
Theorem X2_tag_reaches_every_fetch
  (fuel : nat) (name : string) (config : ApolloConfig)
  (tag : option string) (t : list Event) :
  exists evs,
    (resolveSchema fuel name config tag t).2 = t ++ evs /\
    forall d tg,
      EvLoadSchema d tg ∈ evs ->
      tg = match tag with
           | Some s => if String.eqb s EmptyString then None else Some s
           | None => None
           end.
Proof.
  destruct (resolveSchema fuel name config tag t) as [o t'] eqn:Hrun.
  destruct (resolveSchema_trace _ _ _ _ _ _ _ Hrun)
    as (evs & -> & Htags & _).
  exists evs. split; [reflexivity |].
  intros d tg Hin. rewrite Forall_forall in Htags.
  exact (Htags _ Hin d tg eq_refl).
Qed.

(** X3. A run of [resolveSchema] fetches at most one introspection
    result, however long the chain, and a run that returns has called
    [extendSchema] exactly once per extension of the chain. *)
Theorem X3_one_fetch_one_extension_per_hop
  (fuel : nat) (name : string) (config : ApolloConfig)
  (tag : option string) (t : list Event) :
  exists evs,
    (resolveSchema fuel name config tag t).2 = t ++ evs /\
    count is_load_schema evs <= 1 /\
    (forall s, (resolveSchema fuel name config tag t).1 = Returned s ->
               chain_ends config name (count is_extend_schema evs)).
Proof.
  destruct (resolveSchema fuel name config tag t) as [o t'] eqn:Hrun.
  destruct (resolveSchema_trace _ _ _ _ _ _ _ Hrun)
    as (evs & -> & _ & Hone & Hret).
  exists evs. auto.
Qed.

(** X4. Taken relative to the project folder, no path of a resolved set
    is matched by an exclude pattern of the set, nor by the [schema]
    member, used as a pattern, of a dependency the loop over the
    [extends] members came by. *)
Theorem X4_no_path_matches_an_exclude_or_a_schema_member
  (fuel stack : nat) (config : ApolloConfig) (needSchema : bool)
  (tag : option string) (t t' : list Event)
  (rs : list (ResolvedDocumentSet Schema)) :
  resolveDocumentSets fuel stack config needSchema tag t
  = (Returned rs, t') ->
  forall r f,
    r ∈ rs -> f ∈ documentPaths r ->
    (forall e, e ∈ excludes (originalSet r) ->
               minimatch (relative (projectFolder config) f) e = false) /\
    (forall d p,
        visits config (start config (originalSet r)) d ->
        dep_schema d = Some p -> p <> EmptyString ->
        minimatch (relative (projectFolder config) f) p = false).
Proof.
  intros Hrun r f Hr Hf. unfold Resolve.resolveDocumentSets in Hrun.
  apply resolveEach_Returned in Hrun.
  apply list_elem_of_lookup in Hr as [i Hi].
  destruct (Forall2_lookup_r _ _ _ _ _ Hrun Hi) as (doc & _ & t1 & t2 & Hdoc).
  pose proof (resolveDocumentSet_Returned _ _ _ _ _ _ _ _ _ _ _ _ _ _ _ _
                _ _ _ _ Hdoc) as (Horig & _).
  apply resolveDocumentSet_loop in Hdoc
      as (schemaPaths & found & Hloop & Hpaths).
  rewrite Hpaths in Hf. apply list_elem_of_filter in Hf as [Hkept _].
  unfold Resolve.kept in Hkept. apply negb_true_iff in Hkept.
  assert (forall e, e ∈ excludes doc ++ schemaPaths ->
                    minimatch (relative (projectFolder config) f) e = false)
    as Hnone.
  { intros e He.
    destruct (minimatch (relative (projectFolder config) f) e) eqn:Hm;
      [| reflexivity].
    rewrite <- Hkept. symmetry. apply existsb_exists.
    exists e. split; [apply list_elem_of_In; exact He | exact Hm]. }
  rewrite Horig. split.
  - intros e He. apply Hnone, elem_of_app. left. exact He.
  - intros d p Hvisits Hp Hne. apply Hnone, elem_of_app. right.
    apply collectSchemaPaths_collects in Hloop as [_ Hall].
    apply (Hall d p Hvisits). rewrite Hp. unfold truthy_str.
    apply String.eqb_neq in Hne. rewrite Hne. reflexivity.
Qed.

(** X5. [resolveDocumentSets] returns one resolved set per document set,
    in the order of [config.queries], each with its document set as
    [originalSet], and with the endpoint and the engine key of the
    dependency the set names itself: nothing is taken over from the
    dependencies that one extends, and a set without schema has
    neither. *)
Theorem X5_one_resolved_set_per_document_set
  (fuel stack : nat) (config : ApolloConfig) (needSchema : bool)
  (tag : option string) (t t' : list Event)
  (rs : list (ResolvedDocumentSet Schema)) :
  resolveDocumentSets fuel stack config needSchema tag t
  = (Returned rs, t') ->
  map originalSet rs = default [] (queries config) /\
  (forall r, r ∈ rs ->
     (forall n d,
         doc_schema (originalSet r) = Some n -> n <> EmptyString ->
         default ∅ (schemas config) !! n = Some d ->
         res_endpoint r = dep_endpoint d /\
         res_engineKey r = dep_engineKey d) /\
     (doc_schema (originalSet r) = None ->
      res_endpoint r = None /\ res_engineKey r = None)).
Proof.
  intros Hrun. unfold Resolve.resolveDocumentSets in Hrun.
  apply resolveEach_Returned in Hrun. split.
  - induction Hrun as [| doc r docs rs' (t1 & t2 & Hr) _ IH];
      [reflexivity |].
    apply resolveDocumentSet_Returned in Hr as (Horig & _).
    cbn [map]. rewrite Horig, IH. reflexivity.
  - intros r Hin. apply list_elem_of_lookup in Hin as [i Hi].
    destruct (Forall2_lookup_r _ _ _ _ _ Hrun Hi)
      as (doc & _ & t1 & t2 & Hr).
    apply resolveDocumentSet_Returned in Hr as (Horig & Hend & Hkey & _).
    rewrite Horig. unfold referred, truthy_str in Hend, Hkey. split.
    + intros n d Hn Hne Hd. rewrite Hn in Hend, Hkey.
      apply String.eqb_neq in Hne. rewrite Hne in Hend, Hkey.
      unfold lookup_schema in Hend, Hkey. rewrite Hd in Hend, Hkey.
      split; assumption.
    + intros Hn. rewrite Hn in Hend, Hkey. split; assumption.
Qed.

(** X6. Without [needSchema] the only thing that can keep
    [resolveDocumentSets] going is the loop over the [extends] members:
    when the loop of every document set is over within the steps
    allowed, the call finishes. *)
Theorem X6_finishes_when_every_loop_ends
  (fuel stack : nat) (config : ApolloConfig) (tag : option string)
  (t : list Event) :
  (forall doc, doc ∈ default [] (queries config) ->
               exists k, k <= fuel /\
                         loop_ends config (start config doc) k) ->
  (resolveDocumentSets fuel stack config false tag t).1 <> OutOfFuel.
Proof.
  unfold Resolve.resolveDocumentSets.
  generalize (default [] (queries config)) as docs.
  intros docs. revert t.
  induction docs as [| doc rest IH]; intros t Hall; [discriminate |].
  cbn [Resolve.resolveEach].
  destruct (Hall doc ltac:(left)) as (k & Hk & Hends).
  assert ((resolveDocumentSet fuel stack config false tag doc t).1
          <> OutOfFuel) as Hdoc.
  { unfold Resolve.resolveDocumentSet.
    pose proof (collectSchemaPaths_ends _ _ _ Hends fuel [] t Hk)
      as Hloop.
    pose proof (collectSchemaPaths_trace array_limit fuel config
                  (start config doc) [] t) as Htrace.
    unfold start in Hloop, Htrace. unfold bind at 1.
    destruct (collectSchemaPaths fuel config
                (lookup_schema config (key_of (doc_schema doc))) [] t)
      as [[paths | e |] t0]; simpl in Hloop, Htrace; subst t0;
      [| discriminate | congruence].
    unfold bind at 1. unfold ret at 1.
    pose proof (expandIncludes_not_OutOfFuel (projectFolder config)
                  (includes doc) t) as Hglob.
    unfold bind.
    destruct (expandIncludes (projectFolder config) (includes doc) t)
      as [[found | e |] t1]; simpl in *; congruence. }
  unfold bind at 1.
  destruct (resolveDocumentSet fuel stack config false tag doc t)
    as [[r | e |] t1]; simpl in Hdoc; try congruence; [| discriminate].
  specialize (IH t1 (fun d Hd => Hall d ltac:(right; exact Hd))).
  unfold bind.
  destruct (resolveEach fuel stack config false tag rest t1)
    as [[rs | e |] t2];
    simpl in *; congruence.
Qed.

(** X7. The loop has no guard against cycles either. When the schema of
    the first document set lies on a cycle of [extends] members none of
    which has a schema file, [resolveDocumentSets] never finishes, with
    or without [needSchema]. When a dependency of the cycle has a schema
    file, every round of the cycle adds to [schemaPaths]: given rounds
    enough, the array is full and the call, for a configuration with
    this one document set, ends in the RangeError of [push], before any
    collaborator is called. *)
Theorem X7_loop_on_a_cycle
  (config : ApolloConfig) (doc : DocumentSet) (rest : list DocumentSet)
  (d : SchemaDependency) (n : nat) :
  queries config = Some (doc :: rest) ->
  start config doc = Some d ->
  loop_hops config (S n) (Some d) (Some d) ->
  ((forall e, visits config (Some d) e ->
              truthy_str (dep_schema e) = None) ->
   forall fuel stack needSchema tag t,
     (resolveDocumentSets fuel stack config needSchema tag t).1
     = OutOfFuel)
  /\ (forall e p,
         visits config (Some d) e ->
         truthy_str (dep_schema e) = Some p ->
         rest = [] ->
         exists fuel0,
           forall fuel stack needSchema tag t,
             fuel0 <= fuel ->
             resolveDocumentSets fuel stack config needSchema tag t
             = (Thrown (RangeError "Invalid array length"), t)).
Proof.
  intros Hq Hstart Hcycle. unfold start in Hstart. split.
  - intros Hbare fuel stack needSchema tag t.
    unfold Resolve.resolveDocumentSets. rewrite Hq.
    change (default [] (Some (doc :: rest))) with (doc :: rest).
    cbn [Resolve.resolveEach]. unfold Resolve.resolveDocumentSet.
    rewrite Hstart. unfold bind at 1. unfold bind at 1.
    rewrite (collectSchemaPaths_hangs _ _ _ Hcycle Hbare fuel d [] t)
      by (exists 0; constructor).
    reflexivity.
  - intros e p Hvisits Hp ->.
    destruct (collectSchemaPaths_fills _ _ _ _ _ Hcycle Hvisits Hp
                (N.to_nat array_limit) [] ltac:(lia)) as [fuel0 Hfuel0].
    exists fuel0. intros fuel stack needSchema tag t Hle.
    unfold Resolve.resolveDocumentSets. rewrite Hq.
    change (default [] (Some [doc])) with [doc].
    cbn [Resolve.resolveEach]. unfold Resolve.resolveDocumentSet.
    rewrite Hstart. unfold bind at 1. unfold bind at 1.
    replace fuel with (fuel0 + (fuel - fuel0)) by lia.
    rewrite Hfuel0. reflexivity.
Qed.

End Extras.

(** *** On the sample configurations *)

Lemma schema_in_tree_resolved :
  World.resolveDocumentSets 3 3 Samples.schema_in_tree false None []
  = (Returned [Samples.resolved_client; Samples.resolved_service],
     [EvGlobSync "**" "/project"; EvGlobSync "**" "/project"]).
Proof. vm_compute. reflexivity. Qed.

Lemma layered_resolved :
  World.resolveDocumentSets 3 3 World.layered false None []
  = (Returned [Samples.resolved_layered], [EvGlobSync "**" "/project"]).
Proof. vm_compute. reflexivity. Qed.

Lemma X4_patterns_witness :
  World.minimatch (World.relative "/project" "/project/queries.graphql")
    "node_modules/**" = false /\
  World.minimatch (World.relative "/project" "/project/queries.graphql")
    "client.graphql" = false.
Proof.
  destruct (X4_no_path_matches_an_exclude_or_a_schema_member
              World.SchemaTerm string
              World.loadQueryDocuments World.extendSchema
              World.buildASTSchema World.buildClientSchema
              World.loadSchema World.globSync World.minimatch
              World.relative World.array_limit
              3 3 World.layered false None [] _ _
              layered_resolved Samples.resolved_layered
              "/project/queries.graphql"
              ltac:(left) ltac:(left)) as [Hexcludes Hschemas].
  split; [apply Hexcludes; left |].
  apply (Hschemas
           (World.dependency (Some "client.graphql") (Some "service") true)
           "client.graphql");
    [| reflexivity | discriminate].
  exists 0.
  replace (start World.layered (originalSet Samples.resolved_layered))
    with (Some (World.dependency (Some "client.graphql") (Some "service")
                  true))
    by (vm_compute; reflexivity).
  apply loop_hops_here.
Defined.

Lemma X5_resolved_sets_witness :
  res_endpoint Samples.resolved_service = Some Samples.service_endpoint /\
  res_engineKey Samples.resolved_service = Some "service:key".
Proof.
  destruct (X5_one_resolved_set_per_document_set World.SchemaTerm string
              World.loadQueryDocuments World.extendSchema
              World.buildASTSchema World.buildClientSchema World.loadSchema
              World.globSync World.minimatch World.relative
              World.array_limit
              3 3 Samples.schema_in_tree false None [] _ _
              schema_in_tree_resolved) as [_ Hsets].
  destruct (Hsets Samples.resolved_service ltac:(right; left)) as [Hown _].
  apply (Hown "service"
           {| dep_schema := None;
              dep_endpoint := Some Samples.service_endpoint;
              dep_engineKey := Some "service:key"; extends := None;
              clientSide := Some false |});
    [reflexivity | discriminate |].
  vm_compute. reflexivity.
Defined.

Lemma X1_absent_schema_witness :
  exists d,
    lookup_schema World.layered "service" = Some d /\
    truthy_str (extends d) = None /\
    truthy_flag (clientSide d) = false.
Proof.
  destruct (X1_absent_schema_only_from_fetch World.SchemaTerm string
              World.loadQueryDocuments World.extendSchema
              World.buildASTSchema World.buildClientSchema
              (fun _ _ _ => Ok None)
              1 "service" World.layered None []
              [EvLoadSchema (World.dependency None None false) None]
              ltac:(vm_compute; reflexivity))
    as (d & Hd & Hext & Hclient & _).
  exists d. auto.
Defined.

Lemma X6_finishes_witness :
  (World.resolveDocumentSets 3 0 Samples.schema_in_tree false None []).1
  <> OutOfFuel.
Proof.
  apply (X6_finishes_when_every_loop_ends World.SchemaTerm string
           World.loadQueryDocuments World.extendSchema
           World.buildASTSchema World.buildClientSchema World.loadSchema
           World.globSync World.minimatch World.relative World.array_limit
           3 0 Samples.schema_in_tree None []).
  intros doc Hdoc.
  apply elem_of_cons in Hdoc as [-> | Hdoc].
  - exists 2. split; [lia |].
    replace (start Samples.schema_in_tree _)
      with (Some (World.dependency (Some "queries.graphql")
                    (Some "service") true))
      by (vm_compute; reflexivity).
    apply loop_round.
    replace (next Samples.schema_in_tree _)
      with (lookup_schema Samples.schema_in_tree "service")
      by reflexivity.
    destruct (lookup_schema Samples.schema_in_tree "service")
      as [service |] eqn:Hservice; [| discriminate].
    apply loop_round.
    replace (next Samples.schema_in_tree service)
      with (@None SchemaDependency); [apply loop_done |].
    vm_compute in Hservice. injection Hservice as <-.
    vm_compute. reflexivity.
  - apply elem_of_cons in Hdoc as [-> | Hdoc]; [| inversion Hdoc].
    exists 1. split; [lia |].
    destruct (start Samples.schema_in_tree _) as [service |] eqn:Hservice;
      [| discriminate].
    apply loop_round.
    replace (next Samples.schema_in_tree service)
      with (@None SchemaDependency); [apply loop_done |].
    vm_compute in Hservice. injection Hservice as <-.
    vm_compute. reflexivity.
Defined.

Lemma cyclic_bare_round :
  loop_hops Samples.cyclic_bare 2
    (Some (World.dependency None (Some "B") false))
    (Some (World.dependency None (Some "B") false)).
Proof.
  apply loop_hops_round.
  replace (next Samples.cyclic_bare _)
    with (Some (World.dependency None (Some "A") false))
    by (vm_compute; reflexivity).
  apply loop_hops_round.
  replace (next Samples.cyclic_bare _)
    with (Some (World.dependency None (Some "B") false))
    by (vm_compute; reflexivity).
  apply loop_hops_here.
Qed.

Lemma cyclic_set_round :
  loop_hops Samples.cyclic_set 2
    (Some (World.dependency (Some "a.graphql") (Some "B") true))
    (Some (World.dependency (Some "a.graphql") (Some "B") true)).
Proof.
  apply loop_hops_round.
  replace (next Samples.cyclic_set _)
    with (Some (World.dependency (Some "b.graphql") (Some "A") true))
    by (vm_compute; reflexivity).
  apply loop_hops_round.
  replace (next Samples.cyclic_set _)
    with (Some (World.dependency (Some "a.graphql") (Some "B") true))
    by (vm_compute; reflexivity).
  apply loop_hops_here.
Qed.

Lemma cyclic_bare_has_no_schema_file e :
  visits Samples.cyclic_bare
    (Some (World.dependency None (Some "B") false)) e ->
  truthy_str (dep_schema e) = None.
Proof.
  intros Hvisits.
  destruct (visits_on_cycle _ _ _ _ cyclic_bare_round Hvisits)
    as (j & Hj & Hhops).
  destruct j as [| [| j]]; [| | lia].
  - inversion Hhops. reflexivity.
  - inversion Hhops as [| ? ? ? Hnext]; subst.
    vm_compute in Hnext. inversion Hnext. reflexivity.
Qed.

Lemma X7_cycle_witness :
  (World.resolveDocumentSets 1000 5 Samples.cyclic_bare false None []).1
  = OutOfFuel /\
  exists fuel0,
    forall fuel stack needSchema tag t,
      fuel0 <= fuel ->
      World.resolveDocumentSets fuel stack Samples.cyclic_set needSchema
        tag t
      = (Thrown (RangeError "Invalid array length"), t).
Proof.
  split.
  - apply (proj1 (X7_loop_on_a_cycle World.SchemaTerm string
                    World.loadQueryDocuments World.extendSchema
                    World.buildASTSchema World.buildClientSchema
                    World.loadSchema World.globSync World.minimatch
                    World.relative World.array_limit
                    Samples.cyclic_bare
                    {| doc_schema := Some "A"; includes := ["**"];
                       excludes := [] |}
                    []
                    (World.dependency None (Some "B") false) 1
                    eq_refl ltac:(vm_compute; reflexivity)
                    cyclic_bare_round)).
    exact cyclic_bare_has_no_schema_file.
  - apply (proj2 (X7_loop_on_a_cycle World.SchemaTerm string
                    World.loadQueryDocuments World.extendSchema
                    World.buildASTSchema World.buildClientSchema
                    World.loadSchema World.globSync World.minimatch
                    World.relative World.array_limit
                    Samples.cyclic_set
                    {| doc_schema := Some "A"; includes := ["**"];
                       excludes := [] |}
                    []
                    (World.dependency (Some "a.graphql") (Some "B") true) 1
                    eq_refl ltac:(vm_compute; reflexivity)
                    cyclic_set_round)
             (World.dependency (Some "a.graphql") (Some "B") true)
             "a.graphql");
      [exists 0; apply loop_hops_here | reflexivity | reflexivity].
Defined.

(** *** The visitor of [loadAsAST] *)



End ResolveExtras.

(** * More on the normalizers *)

Module LoadExtras.
Import Js Load LoadFacts Frame Services.
Local Open Scope js_scope.

Lemma replace_nonempty rep s :
  String.eqb rep EmptyString = false ->
  String.eqb s EmptyString = false ->
  String.eqb (Str.replace "http" rep s) EmptyString = false.
Proof.
  intros Hrep Hs. destruct s as [| c s]; [discriminate |].
  cbn [Str.replace].
  destruct (String.prefix "http" (String c s)); [| reflexivity].
  destruct rep; [discriminate | reflexivity].
Qed.

Lemma bind_inv {A B} (m : M A) (k : A -> M B) h r h' :
  bind m k h = (r, h') ->
  (exists a h1, m h = (Ok a, h1) /\ k a h1 = (r, h')) \/
  (exists e, m h = (Throw e, h') /\ r = Throw e).
Proof.
  unfold bind. destruct (m h) as [[a | e] h1]; intros H.
  - left. eauto.
  - right. injection H as <- <-. eauto.
Qed.

(** What [loadEndpointConfig] returns: nothing, when nothing was given and
    no default was asked for; the primitive it was given; or an object
    that needs no further completion. *)
Lemma loadEndpointConfig_result v b (h : heap) e h1 :
  loadEndpointConfig v b h = (Ok e, h1) ->
  (e = VUndefined /\ b = false) \/
  (is_string e = false /\ truthy e = true /\ forall l, e <> VRef l) \/
  (exists l, e = VRef l /\
             match h1 !! l with
             | Some (OObj ps) =>
                 truthy (object_member ps "subscriptions") = true \/
                 truthy (object_member ps "url") = false
             | _ => True
             end).
Proof.
  intros Hrun.
  assert (forall u, is_string u = false -> truthy u = false ->
                    loadEndpointConfig u b h = (Ok e, h1) ->
                    (e = VUndefined /\ b = false) \/
                    (exists l, e = VRef l /\
                       match h1 !! l with
                       | Some (OObj ps) =>
                           truthy (object_member ps "subscriptions") = true \/
                           truthy (object_member ps "url") = false
                       | _ => True
                       end)) as Habsent.
  { intros u Hs Ht Hu. rewrite loadEndpointConfig_absent in Hu by assumption.
    destruct b; injection Hu as <- <-; [right | left; auto].
    exists (length h). split; [reflexivity |].
    rewrite list_lookup_middle by reflexivity. left. reflexivity. }
  assert (forall u, is_string u = false -> truthy u = true ->
                    (forall l, u <> VRef l) ->
                    loadEndpointConfig u b h = (Ok e, h1) ->
                    is_string e = false /\ truthy e = true /\
                    forall l, e <> VRef l) as Hprimitive.
  { intros u Hs Ht Hr Hu.
    rewrite loadEndpointConfig_primitive in Hu by assumption.
    injection Hu as <- <-. auto. }
  destruct v as [| | c | n | s | l | p].
  - destruct (Habsent VUndefined eq_refl eq_refl Hrun); auto.
  - destruct (Habsent VNull eq_refl eq_refl Hrun); auto.
  - destruct c.
    + right. left. apply (Hprimitive (VBool true)); auto; discriminate.
    + destruct (Habsent (VBool false) eq_refl eq_refl Hrun); auto.
  - destruct (truthy (VNum n)) eqn:Ht.
    + right. left. apply (Hprimitive (VNum n)); auto; discriminate.
    + destruct (Habsent (VNum n) eq_refl Ht Hrun); auto.
  - right. right. rewrite loadEndpointConfig_string in Hrun.
    injection Hrun as <- <-. exists (length h). split; [reflexivity |].
    rewrite list_lookup_middle by reflexivity.
    destruct (String.eqb s EmptyString) eqn:Hs.
    + right. change (object_member [("url", VStr s)] "url") with (VStr s).
      cbn [truthy]. rewrite Hs. reflexivity.
    + left. change (object_member _ "subscriptions")
        with (VStr (Str.replace "http" "ws" s)).
      cbn [truthy]. rewrite replace_nonempty by (reflexivity || exact Hs).
      reflexivity.
  - right. right. rewrite loadEndpointConfig_ref in Hrun.
    destruct (h !! l) as [[ps | es] |] eqn:Hl.
    + destruct (truthy (object_member ps "subscriptions")) eqn:Hsub.
      * injection Hrun as <- <-. exists l. rewrite Hl. auto.
      * destruct (truthy (object_member ps "url")) eqn:Hurl.
        -- destruct (object_member ps "url") as [| | c | n | s | l' | p]
             eqn:Hu; try discriminate.
           injection Hrun as <- <-. exists l. split; [reflexivity |].
           rewrite list_lookup_insert_eq
             by (eapply lookup_lt_Some; exact Hl).
           left. unfold object_member. rewrite assoc_set_eq.
           cbn [truthy] in Hurl |- *. apply negb_true_iff in Hurl.
           rewrite replace_nonempty by (reflexivity || exact Hurl).
           reflexivity.
        -- injection Hrun as <- <-. exists l. rewrite Hl. auto.
    + injection Hrun as <- <-. exists l. rewrite Hl. auto.
    + injection Hrun as <- <-. exists l. rewrite Hl. auto.
  - right. left. apply (Hprimitive (VBuiltin p)); auto; discriminate.
Qed.

(** X8. Normalizing an endpoint that [loadEndpointConfig] returned changes
    nothing: the second call returns the same value and leaves the heap as
    it is. *)
Theorem X8_loadEndpointConfig_idempotent
  (v : value) (b : bool) (h : heap) (e : value) (h1 : heap) :
  loadEndpointConfig v b h = (Ok e, h1) ->
  loadEndpointConfig e b h1 = (Ok e, h1).
Proof.
  intros Hrun.
  destruct (loadEndpointConfig_result _ _ _ _ _ Hrun)
    as [[-> ->] | [(Hs & Ht & Hr) | (l & -> & Hl)]].
  - apply (loadEndpointConfig_absent VUndefined false); reflexivity.
  - apply loadEndpointConfig_primitive; assumption.
  - rewrite loadEndpointConfig_ref.
    destruct (h1 !! l) as [[ps | es] |]; try reflexivity.
    destruct Hl as [Hsub | Hurl].
    + rewrite Hsub. reflexivity.
    + rewrite Hurl.
      destruct (truthy (object_member ps "subscriptions")); reflexivity.
Qed.

(** X9. An endpoint object that comes out of [loadEndpointConfig] with a
    [url] has [subscriptions] as well. *)
Theorem X9_url_comes_with_subscriptions
  (v : value) (b : bool) (h : heap) (l : loc) (h1 : heap)
  (ps : list (string * value)) :
  loadEndpointConfig v b h = (Ok (VRef l), h1) ->
  h1 !! l = Some (OObj ps) ->
  truthy (object_member ps "url") = true ->
  truthy (object_member ps "subscriptions") = true.
Proof.
  intros Hrun Hl Hurl.
  destruct (loadEndpointConfig_result _ _ _ _ _ Hrun)
    as [[[=] _] | [(_ & _ & Hr) | (l' & [= <-] & Hsettled)]].
  - contradiction (Hr l eq_refl).
  - rewrite Hl in Hsettled. destruct Hsettled as [Hsub | Hno].
    + exact Hsub.
    + congruence.
Qed.

(** X10. For a raw dependency without endpoint, [loadSchemaConfig] puts in
    the local endpoint exactly when [defaultEndpoint] is set and the raw
    dependency has no engine key of its own; an engine key that comes from
    the environment does not stand in the way. *)
Theorem X10_default_endpoint_unless_own_engineKey
  (ENGINE_API_KEY : option string) (h : heap) (l : loc)
  (ps : list (string * value)) (defaultEndpoint : bool) :
  h !! l = Some (OObj ps) ->
  is_string (object_member ps "endpoint") = false ->
  truthy (object_member ps "endpoint") = false ->
  exists r rps h',
    loadSchemaConfig ENGINE_API_KEY (VRef l) defaultEndpoint h
    = (Ok (VRef r), h') /\
    h' !! r = Some (OObj rps) /\
    if defaultEndpoint && negb (truthy (object_member ps "engineKey"))
    then exists e, assoc "endpoint" rps = Some (VRef e) /\
                   h' !! e = Some default_endpoint
    else assoc "endpoint" rps = Some VUndefined.
Proof.
  intros Hl Hs Ht.
  rewrite (loadSchemaConfig_object _ _ _ _ _ Hl).
  rewrite loadEndpointConfig_absent by assumption.
  assert (forall e k, assoc "endpoint" (spread_with ps e k) = Some e) as Hep.
  { intros e k. unfold spread_with.
    rewrite assoc_set_ne by discriminate. apply assoc_set_eq. }
  destruct (truthy (object_member ps "engineKey")), defaultEndpoint;
    cbn [negb andb]; eexists _, _, _;
    (split; [reflexivity |]);
    (split; [apply list_lookup_middle; reflexivity |]);
    try apply Hep.
  exists (length h). split; [apply Hep |].
  rewrite <- app_assoc. apply list_lookup_middle. reflexivity.
Qed.

(** *** Which computations only add objects *)

Lemma grows_read {A} (h0 : heap) (m : M A) :
  (forall h, (m h).2 = h) -> grows h0 m.
Proof. intros Hm news. exists news. apply Hm. Qed.

Lemma grows_ret {A} (h0 : heap) (a : A) : grows h0 (ret a).
Proof. apply grows_read. reflexivity. Qed.

Lemma grows_throw {A} (h0 : heap) e : grows h0 (@throw A e).
Proof. apply grows_read. reflexivity. Qed.

Lemma grows_get (h0 : heap) v k : grows h0 (get v k).
Proof.
  apply grows_read. intros h. unfold get.
  destruct v as [| | | | | l |]; try reflexivity.
  destruct (h !! l) as [[ps | es] |]; reflexivity.
Qed.

Lemma grows_entries (h0 : heap) v : grows h0 (entries v).
Proof. apply grows_read. reflexivity. Qed.

Lemma grows_keys (h0 : heap) v : grows h0 (keys v).
Proof. apply grows_read. reflexivity. Qed.

Lemma grows_elems (h0 : heap) v : grows h0 (elems v).
Proof. apply grows_read. reflexivity. Qed.

Lemma grows_isArray (h0 : heap) v : grows h0 (isArray v).
Proof.
  apply grows_read. intros h. unfold isArray.
  destruct v as [| | | | | l |]; try reflexivity.
  destruct (h !! l) as [[ps | es] |]; reflexivity.
Qed.

Lemma grows_alloc (h0 : heap) o : grows h0 (alloc o).
Proof.
  intros news. exists (news ++ [o]). unfold alloc. cbn.
  symmetry. apply app_assoc.
Qed.

Lemma grows_bind {A B} (h0 : heap) (m : M A) (k : A -> M B) :
  grows h0 m -> (forall a, grows h0 (k a)) -> grows h0 (bind m k).
Proof.
  intros Hm Hk news. unfold bind. destruct (Hm news) as [news1 H1].
  destruct (m (h0 ++ news)) as [[a | e] h1]; cbn in H1; subst h1.
  - apply Hk.
  - exists news1. reflexivity.
Qed.

(** Assigning to an object that was not there at the start. *)
Lemma grows_set_fresh (h0 : heap) i k x :
  grows h0 (set (VRef (length h0 + i)) k x).
Proof.
  intros news. unfold set.
  destruct ((h0 ++ news) !! (length h0 + i)) as [[ps | es] |];
    try (exists news; reflexivity).
  destruct (String.eqb k "__proto__"); [exists news; reflexivity |].
  eexists. cbn. apply insert_app_r.
Qed.

Lemma grows_isUrl (h0 : heap) v : grows h0 (isUrl v).
Proof. apply grows_read. intros h. destruct v; reflexivity. Qed.

Lemma grows_patterns (h0 : heap) raw dflt : grows h0 (patterns raw dflt).
Proof.
  unfold patterns. destruct (is_string raw); [apply grows_alloc |].
  destruct (truthy raw); [apply grows_ret | apply grows_alloc].
Qed.

Lemma grows_loadDocumentSet (h0 : heap) d : grows h0 (loadDocumentSet d).
Proof.
  unfold loadDocumentSet.
  repeat first
    [ apply grows_bind; [| intros ?]
    | apply grows_get | apply grows_patterns | apply grows_alloc ].
Qed.

Lemma grows_map_loadDocumentSet (h0 : heap) ds :
  grows h0 (map_loadDocumentSet ds).
Proof.
  induction ds as [| d ds IH]; cbn [map_loadDocumentSet].
  - apply grows_ret.
  - apply grows_bind; [apply grows_loadDocumentSet | intros r].
    apply grows_bind; [exact IH | intros rs]. apply grows_ret.
Qed.

Lemma grows_documentSets (h0 : heap) obj schemas :
  grows h0 (documentSets obj schemas).
Proof.
  unfold documentSets. apply grows_bind; [apply grows_get | intros q].
  destruct (truthy q).
  - apply grows_bind; [apply grows_isArray | intros [|]];
      [apply grows_elems | apply grows_ret].
  - apply grows_bind; [apply grows_keys | intros ks].
    destruct (Nat.eqb (length ks) 1); [| apply grows_ret].
    apply grows_bind; [apply grows_alloc | intros ?]. apply grows_ret.
Qed.

Lemma grows_clientSchemaEntry (h0 : heap) obj i :
  grows h0 (clientSchemaEntry obj (VRef (length h0 + i))).
Proof.
  unfold clientSchemaEntry. apply grows_bind; [apply grows_get | intros c].
  destruct (truthy c); [| apply grows_ret].
  repeat first
    [ apply grows_bind; [| intros ?]
    | apply grows_get | apply grows_keys | apply grows_alloc
    | apply grows_set_fresh ].
Qed.

Section Extras.

Variable ENGINE_API_KEY : option string.
Variable existsSync : string -> bool.
Variable basename : string -> string.

(** The only endpoint [serviceEntry] normalizes is a string: the
    reference has passed [isUrl]. *)
Lemma grows_serviceEntry (h0 : heap) obj i :
  grows h0 (serviceEntry ENGINE_API_KEY existsSync obj
              (VRef (length h0 + i))).
Proof.
  unfold serviceEntry. apply grows_bind; [apply grows_get | intros s].
  destruct (truthy s); [| apply grows_ret].
  apply grows_bind; [apply grows_entries | intros [| [name ref] rest]];
    [apply grows_throw |].
  destruct ref as [| | c | n | u | l | p];
    try (apply grows_read; reflexivity).
  apply grows_bind; [apply grows_isUrl | intros b].
  apply grows_bind.
  - destruct b; [| apply grows_ret].
    intros news. rewrite loadEndpointConfig_string. eexists. cbn.
    symmetry. apply app_assoc.
  - intros e. apply grows_bind.
    + apply grows_read. intros h. rewrite isFile_string. reflexivity.
    + intros f. apply grows_bind; [apply grows_alloc | intros dep].
      apply grows_set_fresh.
Qed.

(** The dependency [defaultEntry] normalizes is the [{}] it has just
    made. *)
Lemma grows_defaultEntry (h0 : heap) i de ds :
  grows h0 (defaultEntry ENGINE_API_KEY (VRef (length h0 + i)) de ds).
Proof.
  unfold defaultEntry. apply grows_bind; [apply grows_keys | intros ks].
  destruct (Nat.eqb (length ks) 0 && ds); [| apply grows_ret].
  intros news. erewrite bind_Ok by apply alloc_ext.
  unfold bind at 1.
  rewrite loadSchemaConfig_empty
    by (rewrite lookup_new; apply list_lookup_middle; reflexivity).
  destruct de; rewrite <- app_assoc; apply grows_set_fresh.
Qed.

Lemma grows_getSchemasFromServices (h : heap) obj de ds :
  exists news,
    (getSchemasFromServices ENGINE_API_KEY existsSync obj de ds h).2
    = h ++ news.
Proof.
  unfold getSchemasFromServices.
  erewrite bind_Ok by reflexivity.
  rewrite <- (Nat.add_0_r (length h)).
  apply (grows_bind h); [apply grows_serviceEntry | intros _].
  apply grows_bind; [apply grows_defaultEntry | intros _].
  apply grows_bind; [apply grows_clientSchemaEntry | intros _].
  apply grows_ret.
Qed.

(** X11. [loadConfig] never writes into an object that was there before
    the call: whatever it is given, and whether it returns or throws,
    it only adds objects to the heap. The one function that writes into
    what it is given, [loadEndpointConfig], is reached with a string or
    with nothing only: a service reference has passed [isUrl], which
    rejects whatever is not a string (the raw configuration being data,
    without a [match] of its own), and the default dependency is made
    of [{}]. *)
Theorem X11_loadConfig_leaves_the_raw_configuration
  (obj : value) (configFile configDir : string) (de ds : bool)
  (h : heap) :
  exists news,
    (loadConfig ENGINE_API_KEY existsSync basename
       obj configFile configDir de ds h).2 = h ++ news.
Proof.
  unfold loadConfig, bind at 1.
  destruct (grows_getSchemasFromServices h obj de ds) as [news1 H1].
  destruct (getSchemasFromServices _ _ _ _ _ _) as [[schemas | e] h1];
    cbn in H1; subst h1; [| exists news1; reflexivity].
  revert news1. change (grows h
    (let* sets := documentSets obj schemas in
     let* loaded := map_loadDocumentSet sets in
     let* queries := alloc (OArr loaded) in
     let* engineEndpoint := get obj "engineEndpoint" in
     alloc (OObj [("configFile", VStr configFile);
                  ("projectFolder", VStr configDir);
                  ("schemas", schemas);
                  ("name", VStr (basename configDir));
                  ("queries", queries);
                  ("engineEndpoint", engineEndpoint)]))).
  apply grows_bind; [apply grows_documentSets | intros sets].
  apply grows_bind; [apply grows_map_loadDocumentSet | intros loaded].
  apply grows_bind; [apply grows_alloc | intros queries].
  apply grows_bind; [apply grows_get | intros engineEndpoint].
  apply grows_alloc.
Qed.

(** *** The document sets of a configuration without [queries] *)

Lemma documentSets_implicit (H : heap) l ps schemas :
  H !! l = Some (OObj ps) ->
  truthy (object_member ps "queries") = false ->
  documentSets (VRef l) schemas H =
  match (own_props H schemas).*1 with
  | [k] => (Ok [VRef (length H)], H ++ [OObj [("schema", VStr k)]])
  | _ => (Ok [], H)
  end.
Proof.
  intros Hl Hq. unfold documentSets.
  erewrite bind_Ok by (unfold get; rewrite Hl; reflexivity).
  rewrite Hq. erewrite bind_Ok by reflexivity.
  destruct ((own_props H schemas).*1) as [| k [| k2 ks]]; reflexivity.
Qed.

(** A document set that gives neither [includes] nor [excludes]. *)
Lemma loadDocumentSet_bare (H news : heap) i ps :
  news !! i = Some (OObj ps) ->
  is_string (object_member ps "includes") = false ->
  truthy (object_member ps "includes") = false ->
  is_string (object_member ps "excludes") = false ->
  truthy (object_member ps "excludes") = false ->
  loadDocumentSet (VRef (length H + i)) (H ++ news) =
  (Ok (VRef (length H + (length news + 2))),
   H ++ (news ++
         [OArr [VStr "**"]; OArr [VStr "node_modules/**"];
          OObj [("schema", object_member ps "schema");
                ("includes", VRef (length H + length news));
                ("excludes", VRef (length H + (length news + 1)))]])).
Proof.
  intros Hi Hsi Hti Hse Hte. unfold loadDocumentSet.
  rewrite (bind_Ok _ _ _ _ _ (get_new i "schema" ps H news Hi)).
  rewrite (bind_Ok _ _ _ _ _ (get_new i "includes" ps H news Hi)).
  unfold patterns at 1. rewrite Hsi, Hti.
  rewrite (bind_Ok _ _ _ _ _ (alloc_ext _ H news)).
  assert ((news ++ [OArr [VStr "**"]]) !! i = Some (OObj ps)) as Hi'
    by (apply lookup_app_l_Some; exact Hi).
  rewrite (bind_Ok _ _ _ _ _ (get_new i "excludes" ps H _ Hi')).
  unfold patterns at 1. rewrite Hse, Hte.
  rewrite (bind_Ok _ _ _ _ _ (alloc_ext _ H _)).
  rewrite alloc_ext. rewrite !length_app. cbn [length].
  rewrite <- !app_assoc. cbn [app].
  replace (length news + 1 + 1) with (length news + 2) by lia.
  reflexivity.
Qed.

(** [loadConfig] on a raw configuration without [queries], given what
    [getSchemasFromServices] makes of it. *)
Lemma loadConfig_without_queries (h : heap) l ps cf cd de ds schemas h1 :
  h1 !! l = Some (OObj ps) ->
  truthy (object_member ps "queries") = false ->
  getSchemasFromServices ENGINE_API_KEY existsSync (VRef l) de ds h
  = (Ok schemas, h1) ->
  loadConfig ENGINE_API_KEY existsSync basename (VRef l) cf cd de ds h =
  match (own_props h1 schemas).*1 with
  | [k] =>
      (Ok (VRef (length h1 + 5)),
       h1 ++ [OObj [("schema", VStr k)];
              OArr [VStr "**"]; OArr [VStr "node_modules/**"];
              OObj [("schema", VStr k);
                    ("includes", VRef (length h1 + 1));
                    ("excludes", VRef (length h1 + 2))];
              OArr [VRef (length h1 + 3)];
              OObj [("configFile", VStr cf);
                    ("projectFolder", VStr cd);
                    ("schemas", schemas);
                    ("name", VStr (basename cd));
                    ("queries", VRef (length h1 + 4));
                    ("engineEndpoint", object_member ps "engineEndpoint")]])
  | _ =>
      (Ok (VRef (length h1 + 1)),
       h1 ++ [OArr [];
              OObj [("configFile", VStr cf);
                    ("projectFolder", VStr cd);
                    ("schemas", schemas);
                    ("name", VStr (basename cd));
                    ("queries", VRef (length h1));
                    ("engineEndpoint", object_member ps "engineEndpoint")]])
  end.
Proof.
  intros Hl Hq Hschemas. unfold loadConfig.
  rewrite (bind_Ok _ _ _ _ _ Hschemas).
  pose proof (documentSets_implicit h1 l ps schemas Hl Hq) as Hsets.
  destruct ((own_props h1 schemas).*1) as [| k [| k2 ks]].
  - rewrite (bind_Ok _ _ _ _ _ Hsets). cbn [map_loadDocumentSet].
    erewrite bind_Ok by reflexivity.
    js_start h1. js_step. js_step. js_norm. rewrite alloc_ext.
    js_norm. rewrite Nat.add_0_r. reflexivity.
  - rewrite (bind_Ok _ _ _ _ _ Hsets). cbn [map_loadDocumentSet].
    rewrite <- (Nat.add_0_r (length h1)) at 1.
    erewrite bind_Ok.
    2:{ erewrite bind_Ok
          by (apply (loadDocumentSet_bare h1 [OObj [("schema", VStr k)]] 0);
              reflexivity).
        erewrite bind_Ok by reflexivity. reflexivity. }
    cbn [length Nat.add app].
    js_step. js_step. js_norm. rewrite alloc_ext. js_norm. reflexivity.
  - rewrite (bind_Ok _ _ _ _ _ Hsets). cbn [map_loadDocumentSet].
    erewrite bind_Ok by reflexivity.
    js_start h1. js_step. js_step. js_norm. rewrite alloc_ext.
    js_norm. rewrite Nat.add_0_r. reflexivity.
Qed.

Lemma getSchemasFromServices_keeps (h : heap) obj de ds r h1 l o :
  getSchemasFromServices ENGINE_API_KEY existsSync obj de ds h = (r, h1) ->
  h !! l = Some o -> h1 !! l = Some o.
Proof.
  intros Hrun Hl.
  destruct (grows_getSchemasFromServices h obj de ds) as [news Hnews].
  rewrite Hrun in Hnews. cbn in Hnews. subst h1.
  apply lookup_app_l_Some. exact Hl.
Qed.

(** X12. Without [queries], [loadConfig] makes up one document set
    exactly when [getSchemasFromServices] has come up with exactly one
    schema: the set refers to that schema and takes the default
    patterns. With no schema, or with two, there is no document set. *)
Theorem X12_implicit_document_set
  (h : heap) (l : loc) (ps : list (string * value))
  (configFile configDir : string) (de ds : bool)
  (schemas : value) (h1 : heap) :
  h !! l = Some (OObj ps) ->
  truthy (object_member ps "queries") = false ->
  getSchemasFromServices ENGINE_API_KEY existsSync (VRef l) de ds h
  = (Ok schemas, h1) ->
  member_snapshot 3
    (loadConfig ENGINE_API_KEY existsSync basename
       (VRef l) configFile configDir de ds h) "queries"
  = Some (TArr match (own_props h1 schemas).*1 with
               | [k] =>
                   [TObj [("schema", TStr k);
                          ("includes", TArr [TStr "**"]);
                          ("excludes", TArr [TStr "node_modules/**"])]]
               | _ => []
               end).
Proof.
  intros Hl Hq Hschemas.
  pose proof (getSchemasFromServices_keeps _ _ _ _ _ _ _ _ Hschemas Hl)
    as Hl1.
  rewrite (loadConfig_without_queries h l ps _ _ de ds schemas h1 Hl1 Hq
             Hschemas).
  assert (forall (news : heap) i, (h1 ++ news) !! (length h1 + i) = news !! i)
    as Hnew by (intros; apply lookup_new).
  destruct ((own_props h1 schemas).*1) as [| k [| k2 ks]];
    unfold member_snapshot;
    (erewrite get_new by reflexivity);
    cbn [object_member assoc String.eqb Ascii.eqb Bool.eqb snapshot];
    rewrite ?Hnew; cbn [lookup list_lookup map];
    cbn [snapshot fst snd]; rewrite ?Hnew; cbn [lookup list_lookup map];
    cbn [snapshot fst snd]; rewrite ?Hnew; cbn [lookup list_lookup map];
    cbn [snapshot fst snd]; try reflexivity.
  - rewrite <- (Nat.add_0_r (length h1)) at 1. rewrite Hnew. reflexivity.
  - rewrite <- (Nat.add_0_r (length h1)) at 1. rewrite Hnew. reflexivity.
Qed.

(** *** A raw configuration with [services] *)

Lemma occurs_nonempty pat s :
  String.eqb pat EmptyString = false -> Str.occurs pat s = true ->
  String.eqb s EmptyString = false.
Proof.
  intros Hpat. destruct s as [| c s]; [| reflexivity].
  destruct pat; [discriminate | cbn; discriminate].
Qed.

Lemma serviceEntry_fresh (h : heap) l ps name ref rest :
  h !! l = Some (OObj ps) ->
  truthy (object_member ps "services") = true ->
  own_props h (object_member ps "services") = (name, VStr ref) :: rest ->
  name <> "__proto__" ->
  serviceEntry ENGINE_API_KEY existsSync (VRef l) (VRef (length h))
    (h ++ [OObj []])
  = (Ok tt, h ++ service_objects ENGINE_API_KEY existsSync name ref (length h)).
Proof.
  intros Hl Hs Hes Hname. unfold serviceEntry, service_objects.
  assert (own_props (h ++ [OObj []]) (object_member ps "services")
          = (name, VStr ref) :: rest) as Hes'.
  { rewrite own_props_old; [exact Hes |].
    destruct (object_member ps "services") as [| | | | | l' |]; try exact I.
    unfold own_props in Hes. destruct (h !! l'); [eauto | discriminate]. }
  assert (String.eqb name "__proto__" = false) as Hproto
    by (apply String.eqb_neq; exact Hname).
  rewrite (bind_Ok _ _ _ _ _ (get_old l "services" ps h _ Hl)). rewrite Hs.
  unfold bind at 1, entries at 1. rewrite Hes'.
  unfold bind at 1, isUrl at 1, ret at 1.
  destruct (Str.occurs "http" ref) eqn:Hu.
  - rewrite (bind_Ok _ _ _ _ _ (loadEndpointConfig_string ref true _)).
    rewrite (occurs_nonempty "http" ref eq_refl Hu).
    rewrite (bind_Ok _ _ _ _ _ (isFile_string existsSync ref _)).
    rewrite Hu. cbn [negb andb].
    rewrite <- app_assoc. cbn [app].
    rewrite (bind_Ok _ _ _ _ _ (alloc_ext _ h _)).
    rewrite length_app. cbn [length app].
    erewrite set_first by (reflexivity || exact Hproto).
    cbn [insert list_insert assoc_set].
    reflexivity.
  - unfold bind at 1, ret at 1.
    rewrite (bind_Ok _ _ _ _ _ (isFile_string existsSync ref _)).
    rewrite Hu. cbn [negb andb].
    rewrite (bind_Ok _ _ _ _ _ (alloc_ext _ h _)).
    cbn [length app].
    erewrite set_first by (reflexivity || exact Hproto).
    reflexivity.
Qed.

Lemma defaultEntry_skipped (h news : heap) sps k de ds :
  news !! 0 = Some (OObj (k :: sps)) ->
  defaultEntry ENGINE_API_KEY (VRef (length h)) de ds (h ++ news)
  = (Ok tt, h ++ news).
Proof.
  intros H0. unfold defaultEntry.
  rewrite (bind_Ok _ _ _ _ _ (keys_first _ h news H0)). reflexivity.
Qed.

Lemma service_objects_first name ref at_ :
  exists d tail,
    service_objects ENGINE_API_KEY existsSync name ref at_ = OObj [(name, VRef d)] :: tail.
Proof.
  unfold service_objects. destruct (Str.occurs "http" ref); eauto.
Qed.

(** X13. With [services] and without [clientSchema], the schemas of
    [getSchemasFromServices] are exactly one dependency, under the name
    of the first service: with an endpoint (and no schema file) when the
    reference contains "http", and otherwise without endpoint and with
    the reference as schema file if that file exists. Further services,
    [defaultSchema] and [defaultEndpoint] make no difference. *)
Theorem X13_first_service_only
  (h : heap) (l : loc) (ps : list (string * value))
  (name ref : string) (rest : list (string * value)) (de ds : bool) :
  h !! l = Some (OObj ps) ->
  truthy (object_member ps "services") = true ->
  own_props h (object_member ps "services") = (name, VStr ref) :: rest ->
  name <> "__proto__" ->
  truthy (object_member ps "clientSchema") = false ->
  getSchemasFromServices ENGINE_API_KEY existsSync (VRef l) de ds h
  = (Ok (VRef (length h)), h ++ service_objects ENGINE_API_KEY existsSync name ref (length h)).
Proof.
  intros Hl Hs Hes Hname Hc. unfold getSchemasFromServices.
  unfold bind at 1, alloc at 1.
  rewrite (bind_Ok _ _ _ _ _
             (serviceEntry_fresh h l ps name ref rest Hl Hs Hes Hname)).
  destruct (service_objects_first name ref (length h)) as (d & tail & ->).
  erewrite bind_Ok by (eapply defaultEntry_skipped; reflexivity).
  erewrite bind_Ok
    by (apply (clientSchemaEntry_none _ l ps);
        [apply lookup_app_l_Some; exact Hl | exact Hc]).
  reflexivity.
Qed.

(** X14. With [services] and [clientSchema], the client dependency is
    stored as "default" and extends the first service. A service that
    is itself called "default" is replaced by it, so that the client
    dependency extends itself. *)
Theorem X14_client_schema_extends_first_service
  (h : heap) (l : loc) (ps : list (string * value))
  (name ref : string) (rest : list (string * value)) (de ds : bool) :
  h !! l = Some (OObj ps) ->
  truthy (object_member ps "services") = true ->
  own_props h (object_member ps "services") = (name, VStr ref) :: rest ->
  name <> "__proto__" ->
  truthy (object_member ps "clientSchema") = true ->
  exists h' sps c,
    getSchemasFromServices ENGINE_API_KEY existsSync (VRef l) de ds h
    = (Ok (VRef (length h)), h') /\
    h' !! length h = Some (OObj sps) /\
    sps.*1 = (if String.eqb name "default" then ["default"]
              else [name; "default"]) /\
    assoc "default" sps = Some (VRef c) /\
    h' !! c = Some (client_dependency (object_member ps "clientSchema")
                      (VStr name)).
Proof.
  intros Hl Hs Hes Hname Hc. unfold getSchemasFromServices.
  unfold bind at 1, alloc at 1.
  rewrite (bind_Ok _ _ _ _ _
             (serviceEntry_fresh h l ps name ref rest Hl Hs Hes Hname)).
  destruct (service_objects_first name ref (length h)) as (d & tail & ->).
  erewrite bind_Ok by (eapply defaultEntry_skipped; reflexivity).
  erewrite bind_Ok
    by (apply clientSchemaEntry_assigns; [exact Hl | reflexivity | exact Hc]).
  eexists _, _, _. split; [reflexivity |].
  cbn [insert list_insert app].
  split; [apply list_lookup_middle; reflexivity |].
  split; [| split; [apply assoc_set_eq |]].
  - cbn [assoc_set]. rewrite (String.eqb_sym "default" name).
    destruct (String.eqb name "default"); reflexivity.
  - rewrite lookup_new. cbn [length]. rewrite lookup_cons.
    apply list_lookup_middle. reflexivity.
Qed.

(** *** Document sets, once normalized *)

Lemma get_heap v k (h : heap) r h' : get v k h = (r, h') -> h' = h.
Proof.
  unfold get. destruct v as [| | | | | l |]; try (intros [= _ <-]; reflexivity).
  destruct (h !! l) as [[ps | es] |]; intros [= _ <-]; reflexivity.
Qed.

Lemma patterns_result raw dflt (h : heap) r h' :
  patterns raw dflt h = (r, h') ->
  exists v news,
    r = Ok v /\ h' = h ++ news /\
    is_string v = false /\ truthy v = true /\
    (is_string raw = false -> truthy raw = true -> v = raw /\ news = []).
Proof.
  unfold patterns. destruct (is_string raw) eqn:Hs.
  - intros [= <- <-]. eexists _, _. repeat split; discriminate.
  - destruct (truthy raw) eqn:Ht.
    + intros [= <- <-]. exists raw, []. rewrite app_nil_r.
      repeat split; auto.
    + intros [= <- <-]. eexists _, _. repeat split; discriminate.
Qed.

(** What [loadDocumentSet] returns: a new object with the three members
    of a document set, the patterns being lists. *)
Lemma loadDocumentSet_result d (h : heap) v h' :
  loadDocumentSet d h = (Ok v, h') ->
  exists news schema inc exc,
    get d "schema" h = (Ok schema, h) /\
    v = VRef (length h + length news) /\
    h' = h ++ (news ++ [OObj [("schema", schema); ("includes", inc);
                              ("excludes", exc)]]) /\
    is_string inc = false /\ truthy inc = true /\
    is_string exc = false /\ truthy exc = true.
Proof.
  unfold loadDocumentSet. intros Hrun.
  apply bind_inv in Hrun as [(s & h1 & Hs & Hrun) | (e & _ & [=])].
  pose proof (get_heap _ _ _ _ _ Hs) as ->.
  apply bind_inv in Hrun as [(ri & h1 & Hri & Hrun) | (e & _ & [=])].
  pose proof (get_heap _ _ _ _ _ Hri) as ->.
  apply bind_inv in Hrun as [(inc & h1 & Hinc & Hrun) | (e & _ & [=])].
  apply patterns_result in Hinc
    as (inc' & n1 & [= <-] & -> & Hsi & Hti & _).
  apply bind_inv in Hrun as [(re & h2 & Hre & Hrun) | (e & _ & [=])].
  pose proof (get_heap _ _ _ _ _ Hre) as ->.
  apply bind_inv in Hrun as [(exc & h2 & Hexc & Hrun) | (e & _ & [=])].
  apply patterns_result in Hexc
    as (exc' & n2 & [= <-] & -> & Hse & Hte & _).
  unfold alloc in Hrun. injection Hrun as <- <-.
  exists (n1 ++ n2), s, inc, exc.
  rewrite !length_app, <- !app_assoc, Nat.add_assoc. auto 10.
Qed.

(** X15. Normalizing a document set that [loadDocumentSet] returned
    yields a new object with exactly the same members: the same schema,
    and the very same lists of patterns. *)
Theorem X15_loadDocumentSet_idempotent
  (d : value) (h : heap) (v : value) (h' : heap) :
  loadDocumentSet d h = (Ok v, h') ->
  exists r o,
    v = VRef r /\ h' !! r = Some o /\
    loadDocumentSet v h' = (Ok (VRef (length h')), h' ++ [o]).
Proof.
  intros Hrun.
  apply loadDocumentSet_result in Hrun
    as (news & s & inc & exc & _ & -> & -> & Hsi & Hti & Hse & Hte).
  eexists _, _. split; [reflexivity |].
  assert ((news ++ [OObj [("schema", s); ("includes", inc);
                          ("excludes", exc)]]) !! length news
          = Some (OObj [("schema", s); ("includes", inc);
                        ("excludes", exc)])) as Hnew
    by (apply list_lookup_middle; reflexivity).
  split; [rewrite lookup_new; exact Hnew |].
  unfold loadDocumentSet.
  rewrite (bind_Ok _ _ _ _ _ (get_new _ "schema" _ h _ Hnew)).
  rewrite (bind_Ok _ _ _ _ _ (get_new _ "includes" _ h _ Hnew)).
  change (object_member _ "includes") with inc.
  unfold patterns at 1. rewrite Hsi, Hti.
  unfold bind at 1, ret at 1.
  rewrite (bind_Ok _ _ _ _ _ (get_new _ "excludes" _ h _ Hnew)).
  change (object_member _ "excludes") with exc.
  unfold patterns at 1. rewrite Hse, Hte.
  unfold bind at 1, ret at 1. reflexivity.
Qed.

(** *** What [loadConfig] is made of *)

Lemma loadConfig_inv obj cf cd de ds (h : heap) v h' :
  loadConfig ENGINE_API_KEY existsSync basename obj cf cd de ds h
  = (Ok v, h') ->
  exists schemas h1 sets h2 loaded h3 ee,
    getSchemasFromServices ENGINE_API_KEY existsSync obj de ds h
    = (Ok schemas, h1) /\
    documentSets obj schemas h1 = (Ok sets, h2) /\
    map_loadDocumentSet sets h2 = (Ok loaded, h3) /\
    v = VRef (S (length h3)) /\
    h' = h3 ++ [OArr loaded;
                OObj [("configFile", VStr cf);
                      ("projectFolder", VStr cd);
                      ("schemas", schemas);
                      ("name", VStr (basename cd));
                      ("queries", VRef (length h3));
                      ("engineEndpoint", ee)]].
Proof.
  unfold loadConfig. intros Hrun.
  apply bind_inv in Hrun as [(schemas & h1 & H1 & Hrun) | (e & _ & [=])].
  apply bind_inv in Hrun as [(sets & h2 & H2 & Hrun) | (e & _ & [=])].
  apply bind_inv in Hrun as [(loaded & h3 & H3 & Hrun) | (e & _ & [=])].
  apply bind_inv in Hrun as [(q & h4 & H4 & Hrun) | (e & _ & [=])].
  unfold alloc in H4. injection H4 as <- <-.
  apply bind_inv in Hrun as [(ee & h5 & H5 & Hrun) | (e & _ & [=])].
  pose proof (get_heap _ _ _ _ _ H5) as ->.
  unfold alloc in Hrun. injection Hrun as <- <-.
  exists schemas, h1, sets, h2, loaded, h3, ee.
  repeat split; try assumption.
  - rewrite length_app. cbn [length]. f_equal. lia.
  - rewrite <- app_assoc. reflexivity.
Qed.

(** *** One document set per entry of [queries] *)

Lemma defined_ext (h news : heap) v : defined h v -> defined (h ++ news) v.
Proof.
  destruct v as [| | | | | l |]; try exact id.
  intros [o Ho]. exists o. apply lookup_app_l_Some. exact Ho.
Qed.

Lemma get_defined_ext (h news : heap) v k :
  defined h v -> (get v k (h ++ news)).1 = (get v k h).1.
Proof.
  destruct v as [| | | | | l |]; try reflexivity.
  intros [o Ho]. unfold get.
  rewrite (lookup_app_l_Some _ news _ _ Ho), Ho.
  destruct o; reflexivity.
Qed.

Lemma map_loadDocumentSet_result ds :
  forall (h0 pre : heap) rs h',
    Forall (defined h0) ds ->
    map_loadDocumentSet ds (h0 ++ pre) = (Ok rs, h') ->
    exists news,
      h' = h0 ++ (pre ++ news) /\
      Forall2 (fun e r => defined h' r /\
                          (get r "schema" h').1 = (get e "schema" h0).1)
              ds rs.
Proof.
  induction ds as [| d ds IH]; intros h0 pre rs h' Hds Hrun;
    cbn [map_loadDocumentSet] in Hrun.
  - injection Hrun as <- <-. exists []. rewrite app_nil_r.
    split; [reflexivity | constructor].
  - apply bind_inv in Hrun as [(r & h1 & Hr & Hrun) | (e & _ & [=])].
    apply bind_inv in Hrun as [(rs' & h2 & Hrs & Hrun) | (e & _ & [=])].
    injection Hrun as <- <-.
    apply loadDocumentSet_result in Hr
      as (n1 & s & inc & exc & Hs & -> & -> & _).
    inversion Hds as [| ? ? Hd Hds']; subst.
    rewrite <- !app_assoc in Hrs.
    apply IH in Hrs as (n2 & -> & Hall); [| exact Hds'].
    exists ((n1 ++ [OObj [("schema", s); ("includes", inc);
                           ("excludes", exc)]]) ++ n2).
    split; [rewrite <- !app_assoc; reflexivity |].
    constructor; [| exact Hall].
    assert ((h0 ++ (pre ++ n1 ++ [OObj [("schema", s); ("includes", inc);
                                       ("excludes", exc)]]) ++ n2)
              !! (length (h0 ++ pre) + length n1)
            = Some (OObj [("schema", s); ("includes", inc);
                          ("excludes", exc)])) as Hnew.
    { rewrite <- !app_assoc, (app_assoc h0 pre), lookup_new.
      apply list_lookup_middle. reflexivity. }
    split; [eexists; exact Hnew |].
    unfold get at 1. rewrite Hnew.
    rewrite <- (get_defined_ext h0 pre d "schema" Hd), Hs. reflexivity.
Qed.

(** X16. When [queries] is a list, the configuration gets a new list
    with one normalized document set per entry, in the same order, each
    with the schema of its entry. *)
Theorem X16_one_document_set_per_entry
  (h : heap) (l : loc) (ps : list (string * value)) (q : loc)
  (es : list value) (configFile configDir : string) (de ds : bool)
  (v : value) (h' : heap) :
  h !! l = Some (OObj ps) ->
  object_member ps "queries" = VRef q ->
  h !! q = Some (OArr es) ->
  Forall (defined h) es ->
  loadConfig ENGINE_API_KEY existsSync basename
    (VRef l) configFile configDir de ds h = (Ok v, h') ->
  exists c cps q' rs,
    v = VRef c /\ h' !! c = Some (OObj cps) /\
    assoc "queries" cps = Some (VRef q') /\ q' <> q /\
    h' !! q' = Some (OArr rs) /\
    Forall2 (fun e r => (get r "schema" h').1 = (get e "schema" h).1)
            es rs.
Proof.
  intros Hl Hq Harr Hes Hrun.
  apply loadConfig_inv in Hrun
    as (schemas & h1 & sets & h2 & loaded & h3 & ee
        & Hschemas & Hsets & Hloaded & -> & ->).
  destruct (grows_getSchemasFromServices h (VRef l) de ds) as [n1 Hn1].
  rewrite Hschemas in Hn1. cbn in Hn1. subst h1.
  assert (documentSets (VRef l) schemas (h ++ n1) = (Ok es, h ++ n1))
    as Hsets'.
  { unfold documentSets.
    erewrite bind_Ok by (eapply get_old; exact Hl).
    rewrite Hq. cbn [truthy].
    erewrite bind_Ok
      by (unfold isArray; rewrite (lookup_old _ n1 _ _ Harr); reflexivity).
    unfold elems, array_elems. rewrite (lookup_old _ n1 _ _ Harr).
    reflexivity. }
  rewrite Hsets' in Hsets. injection Hsets as <- <-.
  apply map_loadDocumentSet_result in Hloaded as (n2 & -> & Hall);
    [| exact Hes].
  assert (q < length (h ++ n1 ++ n2)) as Hlt
    by (apply lookup_lt_Some in Harr; rewrite !length_app; lia).
  revert Hall Hlt. generalize (h ++ n1 ++ n2). intros h3 Hall Hlt.
  eexists _, _, _, loaded. split; [reflexivity |].
  split.
  { replace (S (length h3)) with (length h3 + 1) by lia.
    rewrite lookup_new. reflexivity. }
  split; [reflexivity |].
  split; [lia |].
  split; [apply list_lookup_middle; reflexivity |].
  eapply Forall2_impl; [exact Hall |].
  cbn beta. intros e r [Hdef Heq]. rewrite <- Heq.
  apply get_defined_ext. exact Hdef.
Qed.

End Extras.

End LoadExtras.

(** * Finding and reading the configuration file *)

Module FilesExtras.
Import Js Load LoadFacts LoadExtras Frame Files.
Local Open Scope js_scope.

Lemma drop_plus p k f :
  Str.drop (String.length p + k) (p +:+ f) = Str.drop k f.
Proof. induction p as [| c p IH]; [reflexivity | exact IH]. Qed.

(** Whether a path ends with a suffix is decided by its last segment,
    when that is long enough. *)
Lemma endsWith_append p f suffix :
  String.length suffix <= String.length f ->
  endsWith (p +:+ f) suffix = endsWith f suffix.
Proof.
  intros Hlen. unfold endsWith. rewrite StrFacts.length_append.
  destruct (Nat.ltb_spec (String.length p + String.length f)
              (String.length suffix)); [lia |].
  destruct (Nat.ltb_spec (String.length f) (String.length suffix)); [lia |].
  replace (String.length p + String.length f - String.length suffix)
    with (String.length p + (String.length f - String.length suffix)) by lia.
  rewrite drop_plus. reflexivity.
Qed.

Section Extras.

Variable ENGINE_API_KEY : option string.
Variable existsSync : string -> bool.
Variable basename : string -> string.
Variable resolve : string -> string.
Variable dirname : string -> string.
Variable join : string -> string -> string.
Variable require_resolve : string -> result string.
Variable require : string -> M value.
Variable readFileSync : string -> result string.
Variable JSON_parse : string -> M value.

(** A configuration says where it was read from. *)
Lemma loadConfig_origin obj cf cd de ds (h : heap) v h' :
  loadConfig ENGINE_API_KEY existsSync basename obj cf cd de ds h
  = (Ok v, h') ->
  exists c cps,
    v = VRef c /\ h' !! c = Some (OObj cps) /\
    assoc "configFile" cps = Some (VStr cf) /\
    assoc "projectFolder" cps = Some (VStr cd) /\
    assoc "name" cps = Some (VStr (basename cd)).
Proof.
  intros Hrun.
  apply loadConfig_inv in Hrun
    as (schemas & h1 & sets & h2 & loaded & h3 & ee & _ & _ & _ & -> & ->).
  eexists _, _. split; [reflexivity |].
  split.
  - replace (S (length h3)) with (length h3 + 1) by lia.
    rewrite lookup_new. reflexivity.
  - repeat split; reflexivity.
Qed.

Lemma loadConfigFromFile_js file de ds (h : heap) v h' :
  endsWith file ".js" = true ->
  loadConfigFromFile ENGINE_API_KEY existsSync basename resolve dirname
    require_resolve require readFileSync JSON_parse file de ds h
  = (Ok v, h') ->
  exists c cps,
    v = VRef c /\ h' !! c = Some (OObj cps) /\
    assoc "configFile" cps = Some (VStr (resolve file)) /\
    assoc "projectFolder" cps = Some (VStr (dirname (resolve file))) /\
    assoc "name" cps = Some (VStr (basename (dirname (resolve file)))).
Proof.
  unfold loadConfigFromFile. intros -> Hrun.
  apply bind_inv in Hrun as [(p & h1 & _ & Hrun) | (e & _ & [=])].
  apply bind_inv in Hrun as [(m & h2 & _ & Hrun) | (e & _ & [=])].
  eapply loadConfig_origin. exact Hrun.
Qed.

Lemma loadConfigFromFile_other file de ds (h : heap) v h' :
  endsWith file ".js" = false ->
  loadConfigFromFile ENGINE_API_KEY existsSync basename resolve dirname
    require_resolve require readFileSync JSON_parse file de ds h
  = (Ok v, h') ->
  endsWith file "package.json" = true /\
  exists c cps,
    v = VRef c /\ h' !! c = Some (OObj cps) /\
    assoc "configFile" cps = Some (VStr file) /\
    assoc "projectFolder" cps = Some (VStr (dirname file)) /\
    assoc "name" cps = Some (VStr (basename (dirname file))).
Proof.
  unfold loadConfigFromFile. intros -> Hrun.
  destruct (endsWith file "package.json"); [| discriminate].
  split; [reflexivity |].
  apply bind_inv in Hrun as [(t & h1 & _ & Hrun) | (e & _ & [=])].
  apply bind_inv in Hrun as [(parsed & h2 & _ & Hrun) | (e & _ & [=])].
  apply bind_inv in Hrun as [(key & h3 & _ & Hrun) | (e & _ & [=])].
  destruct (truthy key).
  - eapply loadConfig_origin. exact Hrun.
  - apply bind_inv in Hrun as [(o & h4 & _ & Hrun) | (e & _ & [=])].
    eapply loadConfig_origin. exact Hrun.
Qed.

(** X17. [loadConfigFromFile] returns a configuration only for a file
    whose name ends with ".js" or with "package.json". The configuration
    of a ".js" file names the resolved path as its file and the folder
    of the resolved path as its project folder; that of a
    "package.json" names the path as it was given, and its folder. *)
Theorem X17_configuration_of_a_file_names_its_origin
  (file : string) (de ds : bool) (h : heap) (v : value) (h' : heap) :
  loadConfigFromFile ENGINE_API_KEY existsSync basename resolve dirname
    require_resolve require readFileSync JSON_parse file de ds h
  = (Ok v, h') ->
  exists c cps origin,
    v = VRef c /\ h' !! c = Some (OObj cps) /\
    origin = (if endsWith file ".js" then resolve file else file) /\
    (endsWith file ".js" || endsWith file "package.json" = true) /\
    assoc "configFile" cps = Some (VStr origin) /\
    assoc "projectFolder" cps = Some (VStr (dirname origin)) /\
    assoc "name" cps = Some (VStr (basename (dirname origin))).
Proof.
  intros Hrun. destruct (endsWith file ".js") eqn:Hjs.
  - destruct (loadConfigFromFile_js _ _ _ _ _ _ Hjs Hrun)
      as (c & cps & -> & Hc & H1 & H2 & H3).
    exists c, cps, (resolve file). auto 10.
  - destruct (loadConfigFromFile_other _ _ _ _ _ _ Hjs Hrun)
      as (Hpkg & c & cps & -> & Hc & H1 & H2 & H3).
    exists c, cps, file. rewrite Hpkg. auto 10.
Qed.

(** X18. A configuration that [findAndLoadConfig] returns names as its
    file the resolved path of the folder's "apollo.config.js" if there
    is one, else the path of its "package.json" as joined, if there is
    one, else the folder itself; the project folder is the folder of
    that path, and the folder itself when there is no file. All that is
    asked of [join] is that the two paths it makes here end with the
    file name they were made of. *)
Theorem X18_configuration_of_a_folder_names_its_origin
  (dir : string) (de ds : bool) (h : heap) (v : value) (h' : heap) :
  (exists p, join dir "apollo.config.js" = p +:+ "apollo.config.js") ->
  (exists p, join dir "package.json" = p +:+ "package.json") ->
  findAndLoadConfig ENGINE_API_KEY existsSync basename resolve dirname
    join require_resolve require readFileSync JSON_parse dir de ds h
  = (Ok v, h') ->
  exists c cps,
    v = VRef c /\ h' !! c = Some (OObj cps) /\
    assoc "configFile" cps
    = Some (VStr (if existsSync (join dir "apollo.config.js")
                  then resolve (join dir "apollo.config.js")
                  else if existsSync (join dir "package.json")
                       then join dir "package.json"
                       else dir)) /\
    assoc "projectFolder" cps
    = Some (VStr (if existsSync (join dir "apollo.config.js")
                  then dirname (resolve (join dir "apollo.config.js"))
                  else if existsSync (join dir "package.json")
                       then dirname (join dir "package.json")
                       else dir)).
Proof.
  intros Hconfig Hpackage. unfold findAndLoadConfig. intros Hrun.
  destruct (existsSync (join dir "apollo.config.js")).
  - assert (endsWith (join dir "apollo.config.js") ".js" = true) as Hjs.
    { destruct Hconfig as [p ->].
      rewrite endsWith_append by (cbn; lia). reflexivity. }
    destruct (loadConfigFromFile_js _ _ _ _ _ _ Hjs Hrun)
      as (c & cps & -> & Hc & H1 & H2 & _).
    exists c, cps. auto.
  - destruct (existsSync (join dir "package.json")).
    + assert (endsWith (join dir "package.json") ".js" = false) as Hjs.
      { destruct Hpackage as [p ->].
        rewrite endsWith_append by (cbn; lia). reflexivity. }
      destruct (loadConfigFromFile_other _ _ _ _ _ _ Hjs Hrun)
        as (_ & c & cps & -> & Hc & H1 & H2 & _).
      exists c, cps. auto.
    + apply bind_inv in Hrun as [(o & h1 & _ & Hrun) | (e & _ & [=])].
      apply loadConfig_origin in Hrun
        as (c & cps & -> & Hc & H1 & H2 & _).
      exists c, cps. auto.
Qed.

(** *** Nothing configured *)

Lemma getSchemasFromServices_nothing (h : heap) l ps de :
  h !! l = Some (OObj ps) ->
  truthy (object_member ps "services") = false ->
  truthy (object_member ps "clientSchema") = false ->
  getSchemasFromServices ENGINE_API_KEY existsSync (VRef l) de false h
  = (Ok (VRef (length h)), h ++ [OObj []]).
Proof.
  intros Hl Hs Hc. unfold getSchemasFromServices.
  unfold bind at 1, alloc at 1.
  pose proof (lookup_app_l_Some _ [OObj []] _ _ Hl) as Hl0.
  rewrite (bind_Ok _ _ _ _ _
             (serviceEntry_none ENGINE_API_KEY existsSync _ l ps _ Hl0 Hs)).
  erewrite bind_Ok.
  2:{ unfold defaultEntry.
      rewrite (bind_Ok _ _ _ _ _ (keys_first [] h [OObj []] eq_refl)).
      cbn [fmap list_fmap length Nat.eqb andb]. reflexivity. }
  erewrite bind_Ok by (apply (clientSchemaEntry_none _ l ps); assumption).
  reflexivity.
Qed.

Lemma loadConfig_empty (H : heap) l cf cd de ds :
  H !! l = Some (OObj []) ->
  exists c h',
    loadConfig ENGINE_API_KEY existsSync basename
      (VRef l) cf cd de ds H = (Ok (VRef c), h') /\
    snapshot 4 h' (VRef c)
    = default_configuration ENGINE_API_KEY basename cf cd de ds.
Proof.
  intros Hl.
  assert (forall (news : heap) i, (H ++ news) !! (length H + i) = news !! i)
    as Hnew by (intros; apply lookup_new).
  assert (forall (news : heap) x, (H ++ x :: news) !! length H = Some x)
    as Hfirst by (intros; apply list_lookup_middle; reflexivity).
  destruct ds.
  - pose proof (getSchemasFromServices_default ENGINE_API_KEY existsSync
                  H l [] de Hl eq_refl eq_refl) as Hschemas.
    destruct de.
    + eexists _, _. split.
      * rewrite (loadConfig_without_queries ENGINE_API_KEY existsSync
                   basename H l [] cf cd _ _ _ _
                   (lookup_app_l_Some _ _ _ _ Hl) eq_refl Hschemas).
        unfold own_props. rewrite Hfirst.
        cbn [fmap list_fmap fst]. reflexivity.
      * clear Hschemas. rewrite <- !app_assoc. cbn [app].
        rewrite !length_app. cbn [length].
        rewrite <- !Nat.add_assoc. cbn [Nat.add].
        unfold synthesized, default_endpoint, default_configuration.
        change (object_member [] "engineEndpoint") with VUndefined.
        generalize ENGINE_API_KEY. intros [k |];
          unfold or_else; cbn [env_ENGINE_API_KEY truthy];
          [destruct (String.eqb k EmptyString) |]; cbn [negb];
          repeat (cbn [snapshot map fst snd];
                  rewrite ?Hnew, ?Hfirst; cbn [lookup list_lookup]);
          reflexivity.
    + eexists _, _. split.
      * rewrite (loadConfig_without_queries ENGINE_API_KEY existsSync
                   basename H l [] cf cd _ _ _ _
                   (lookup_app_l_Some _ _ _ _ Hl) eq_refl Hschemas).
        unfold own_props. rewrite Hfirst.
        cbn [fmap list_fmap fst]. reflexivity.
      * clear Hschemas. rewrite <- !app_assoc. cbn [app].
        rewrite !length_app. cbn [length].
        rewrite <- !Nat.add_assoc. cbn [Nat.add].
        unfold synthesized, default_endpoint, default_configuration.
        change (object_member [] "engineEndpoint") with VUndefined.
        generalize ENGINE_API_KEY. intros [k |];
          unfold or_else; cbn [env_ENGINE_API_KEY truthy];
          [destruct (String.eqb k EmptyString) |]; cbn [negb];
          repeat (cbn [snapshot map fst snd];
                  rewrite ?Hnew, ?Hfirst; cbn [lookup list_lookup]);
          reflexivity.
  - pose proof (getSchemasFromServices_nothing H l [] de Hl eq_refl eq_refl)
      as Hschemas.
    eexists _, _. split.
    + rewrite (loadConfig_without_queries ENGINE_API_KEY existsSync
                 basename H l [] cf cd _ _ _ _
                 (lookup_app_l_Some _ _ _ _ Hl) eq_refl Hschemas).
      unfold own_props. rewrite Hfirst.
      cbn [fmap list_fmap fst]. reflexivity.
    + clear Hschemas. rewrite <- !app_assoc. cbn [app].
      rewrite !length_app. cbn [length].
      rewrite <- !Nat.add_assoc. cbn [Nat.add].
      unfold default_configuration.
      change (object_member [] "engineEndpoint") with VUndefined.
      repeat (cbn [snapshot map fst snd];
              rewrite ?Hnew, ?Hfirst; cbn [lookup list_lookup]).
      destruct de; reflexivity.
Qed.

(** X19. In a folder with neither "apollo.config.js" nor
    "package.json", [findAndLoadConfig] returns the default
    configuration: the folder as file and as project folder, and, where
    [defaultSchema] and [defaultEndpoint] ask for them, the schema
    "default" at the local endpoint, with the engine key of the
    environment, and one document set for it. *)
Theorem X19_default_configuration_of_a_bare_folder
  (dir : string) (de ds : bool) (h : heap) :
  found existsSync join dir = None ->
  exists c h',
    findAndLoadConfig ENGINE_API_KEY existsSync basename resolve dirname
      join require_resolve require readFileSync JSON_parse dir de ds h
    = (Ok (VRef c), h') /\
    snapshot 4 h' (VRef c)
    = default_configuration ENGINE_API_KEY basename dir dir de ds.
Proof.
  unfold found, findAndLoadConfig. intros Hnone.
  destruct (existsSync (join dir "apollo.config.js")); [discriminate |].
  destruct (existsSync (join dir "package.json")); [discriminate |].
  unfold bind at 1, alloc at 1.
  apply loadConfig_empty. apply list_lookup_middle. reflexivity.
Qed.

(** X20. A "package.json" without an [apollo] member is read as the
    default configuration of its folder. *)
Theorem X20_package_without_apollo_member
  (file text : string) (de ds : bool) (h : heap)
  (parsed : value) (h1 : heap) (apolloKey : value) :
  endsWith file ".js" = false ->
  endsWith file "package.json" = true ->
  readFileSync file = Ok text ->
  JSON_parse text h = (Ok parsed, h1) ->
  get parsed "apollo" h1 = (Ok apolloKey, h1) ->
  truthy apolloKey = false ->
  exists c h',
    loadConfigFromFile ENGINE_API_KEY existsSync basename resolve dirname
      require_resolve require readFileSync JSON_parse file de ds h
    = (Ok (VRef c), h') /\
    snapshot 4 h' (VRef c)
    = default_configuration ENGINE_API_KEY basename file (dirname file)
        de ds.
Proof.
  intros Hjs Hpkg Hread Hparse Hget Hfalsy.
  unfold loadConfigFromFile. rewrite Hjs, Hpkg.
  unfold bind at 1, lift at 1. rewrite Hread.
  rewrite (bind_Ok _ _ _ _ _ Hparse), (bind_Ok _ _ _ _ _ Hget), Hfalsy.
  unfold bind at 1, alloc at 1.
  apply loadConfig_empty. apply list_lookup_middle. reflexivity.
Qed.

End Extras.

End FilesExtras.

(** * The normalizers and the file lookup on the sample inputs *)

Module ExtraSamples.
Import Js Load Frame Files LoadExtras FilesExtras.

Lemma X8_idempotent_witness :
  loadEndpointConfig
    (VRef 0) false
    [OObj [("url", VStr "http://localhost:8080/graphql");
           ("subscriptions", VStr "ws://localhost:8080/graphql")]]
  = (Ok (VRef 0),
     [OObj [("url", VStr "http://localhost:8080/graphql");
            ("subscriptions", VStr "ws://localhost:8080/graphql")]]).
Proof.
  apply (X8_loadEndpointConfig_idempotent
           (VStr "http://localhost:8080/graphql") false []).
  vm_compute. reflexivity.
Defined.

Lemma X9_subscriptions_witness :
  truthy (object_member
            [("url", VStr "http://localhost:8080/graphql");
             ("subscriptions", VStr "ws://localhost:8080/graphql")]
            "subscriptions") = true.
Proof.
  apply (X9_url_comes_with_subscriptions
           (VRef 1) false World.nested_endpoint 1
           (loadEndpointConfig (VRef 1) false World.nested_endpoint).2).
  - vm_compute. reflexivity.
  - vm_compute. reflexivity.
  - vm_compute. reflexivity.
Defined.

Lemma X10_own_engineKey_witness :
  exists r rps h',
    loadSchemaConfig (Some "secret") (VRef 0) true World.keyed_dependency
    = (Ok (VRef r), h') /\
    h' !! r = Some (OObj rps) /\
    assoc "endpoint" rps = Some VUndefined.
Proof.
  exact (X10_default_endpoint_unless_own_engineKey (Some "secret")
           World.keyed_dependency 0 [("engineKey", VStr "configured")] true
           eq_refl eq_refl eq_refl).
Defined.

Lemma X12_implicit_set_witness :
  member_snapshot 3
    (loadConfig None World.existsSync World.basename (VRef 0)
       "/project/apollo.config.js" "/project" true true [OObj []])
    "queries"
  = Some (TArr [TObj [("schema", TStr "default");
                      ("includes", TArr [TStr "**"]);
                      ("excludes", TArr [TStr "node_modules/**"])]]).
Proof.
  apply (X12_implicit_document_set None World.existsSync World.basename
           [OObj []] 0 [] "/project/apollo.config.js" "/project" true true
           (VRef 1)
           (getSchemasFromServices None World.existsSync (VRef 0) true true
              [OObj []]).2).
  - reflexivity.
  - reflexivity.
  - vm_compute. reflexivity.
Defined.

Lemma X13_first_service_witness :
  getSchemasFromServices None World.existsSync (VRef 0) false false
    World.services_url
  = (Ok (VRef 4),
     World.services_url ++
     [OObj [("backend", VRef 6)];
      OObj [("url", VStr "http://localhost:8080/graphql");
            ("subscriptions", VStr "ws://localhost:8080/graphql")];
      OObj [("endpoint", VRef 5); ("engineKey", VUndefined);
            ("clientSide", VBool false); ("schema", VNull)]]).
Proof.
  apply (X13_first_service_only None World.existsSync World.services_url 0
           [("services", VRef 1); ("queries", VRef 2)]
           "backend" "http://localhost:8080/graphql" [] false false).
  - reflexivity.
  - reflexivity.
  - reflexivity.
  - discriminate.
  - reflexivity.
Defined.

Lemma X14_client_over_service_witness :
  exists h' sps c,
    getSchemasFromServices None World.existsSync (VRef 0) true true
      Samples.service_and_client
    = (Ok (VRef 2), h') /\
    h' !! 2 = Some (OObj sps) /\
    sps.*1 = ["backend"; "default"] /\
    assoc "default" sps = Some (VRef c) /\
    h' !! c = Some (client_dependency (VStr "client.graphql")
                      (VStr "backend")).
Proof.
  apply (X14_client_schema_extends_first_service None World.existsSync
           Samples.service_and_client 0
           [("services", VRef 1); ("clientSchema", VStr "client.graphql")]
           "backend" "schema.json" [] true true).
  - reflexivity.
  - reflexivity.
  - reflexivity.
  - discriminate.
  - reflexivity.
Defined.

Lemma X15_idempotent_witness :
  exists r o,
    VRef 6 = VRef r /\
    (loadDocumentSet (VRef 3) World.services_url).2 !! r = Some o /\
    loadDocumentSet (VRef 6) (loadDocumentSet (VRef 3) World.services_url).2
    = (Ok (VRef 7),
       (loadDocumentSet (VRef 3) World.services_url).2 ++ [o]).
Proof.
  apply (X15_loadDocumentSet_idempotent (VRef 3) World.services_url).
  vm_compute. reflexivity.
Defined.

Lemma X16_one_per_entry_witness :
  exists c cps q' rs,
    (World.loadConfig None World.services_url).1 = Ok (VRef c) /\
    (World.loadConfig None World.services_url).2 !! c = Some (OObj cps) /\
    assoc "queries" cps = Some (VRef q') /\ q' <> 2 /\
    (World.loadConfig None World.services_url).2 !! q' = Some (OArr rs) /\
    Forall2 (fun e r =>
               (get r "schema" (World.loadConfig None World.services_url).2).1
               = (get e "schema" World.services_url).1)
            [VRef 3] rs.
Proof.
  destruct (X16_one_document_set_per_entry None World.existsSync
              World.basename World.services_url 0
              [("services", VRef 1); ("queries", VRef 2)] 2 [VRef 3]
              "/project/apollo.config.js" "/project" true true
              (VRef 11) (World.loadConfig None World.services_url).2)
    as (c & cps & q' & rs & Hv & H);
    [reflexivity | reflexivity | reflexivity
    | constructor; [eexists; reflexivity | constructor]
    | vm_compute; reflexivity |].
  exists c, cps, q', rs. split; [| exact H].
  rewrite <- Hv. vm_compute. reflexivity.
Defined.

Lemma X17_package_origin_witness :
  exists c cps origin,
    VRef 11 = VRef c /\
    (Project.loadConfigFromFile "/project/package.json" true true []).2 !! c
    = Some (OObj cps) /\
    origin = "/project/package.json" /\
    true = true /\
    assoc "configFile" cps = Some (VStr origin) /\
    assoc "projectFolder" cps = Some (VStr (Project.dirname origin)) /\
    assoc "name" cps
    = Some (VStr (World.basename (Project.dirname origin))).
Proof.
  apply (X17_configuration_of_a_file_names_its_origin None
           Project.existsSync World.basename Project.resolve
           Project.dirname Project.require_resolve Project.require
           Project.readFileSync Project.JSON_parse
           "/project/package.json" true true []).
  vm_compute. reflexivity.
Defined.

Lemma X18_folder_origin_witness :
  exists c cps,
    VRef 11 = VRef c /\
    (Project.findAndLoadConfig "/project" true true []).2 !! c
    = Some (OObj cps) /\
    assoc "configFile" cps = Some (VStr "/project/package.json") /\
    assoc "projectFolder" cps = Some (VStr "/project").
Proof.
  apply (X18_configuration_of_a_folder_names_its_origin None
           Project.existsSync World.basename Project.resolve
           Project.dirname Project.join Project.require_resolve
           Project.require Project.readFileSync Project.JSON_parse
           "/project" true true []).
  - exists "/project/". reflexivity.
  - exists "/project/". reflexivity.
  - vm_compute. reflexivity.
Defined.

Lemma X19_bare_folder_witness :
  exists c h',
    findAndLoadConfig (Some "secret") World.existsSync World.basename
      Project.resolve Project.dirname Project.join Project.require_resolve
      Project.require Project.readFileSync Project.JSON_parse
      "/project" true true []
    = (Ok (VRef c), h') /\
    snapshot 4 h' (VRef c)
    = default_configuration (Some "secret") World.basename
        "/project" "/project" true true.
Proof.
  apply X19_default_configuration_of_a_bare_folder. reflexivity.
Defined.

Lemma X20_package_witness :
  exists c h',
    Project.loadConfigFromFile "/project/package.json" true true []
    = (Ok (VRef c), h') /\
    snapshot 4 h' (VRef c)
    = default_configuration None World.basename
        "/project/package.json" "/project" true true.
Proof.
  apply (X20_package_without_apollo_member None Project.existsSync
           World.basename Project.resolve Project.dirname
           Project.require_resolve Project.require Project.readFileSync
           Project.JSON_parse "/project/package.json" "{}" true true []
           (VRef 0) [OObj []] VUndefined);
    reflexivity.
Defined.

End ExtraSamples.
